(** * Growth Pattern API Gateway: the streamed and the synchronous calculation

    A shallow embedding of [api-gateway-python/main.py]: the validation of a
    request, the step loop, the MongoDB record and the event journal, and the
    exception handling of the two endpoints [calculate_growth_stream] and
    [calculate_growth].

    Python's exceptions, the two MongoDB collections, the generator's yielded
    chunks and [print] are threaded through a state-and-exception monad [M].
    A call to the store can raise: which calls do is read from a fault plan
    carried by the store, so every statement below quantifies over the
    failures of the store as well as over the request. *)

From Stdlib Require Import Ascii.
From Stdlib Require Import ZArith Uint63 PrimFloat SpecFloat FloatOps FloatAxioms
  FloatLemmas.
From stdpp Require Import base option list strings gmap sorting.

Local Open Scope Z_scope.
Set Warnings "-register-all".

(** ** Python values *)

(** A [datetime], in milliseconds on the clock of the run, and the
    [ObjectId] of a document. *)
Definition time := nat.
Definition ObjectId := nat.

(** A [str] built by an f-string, by [str(...)] or by [isoformat()]: the
    literal pieces are text, the formatted values are kept as values. *)
Inductive frag :=
| Lit (s : string)
| FmtFloat (x : float)
| FmtInt (n : Z)
| FmtTime (t : time)
| FmtOid (o : ObjectId).

Definition pystr := list frag.

Definition lit (s : string) : pystr := [Lit s].

(** What a dict literal holds and what [json.dumps] is given. *)
Inductive json :=
| JNone
| JStr (s : pystr)
| JInt (n : Z)
| JFloat (x : float)
| JTime (t : time)
| JObj (fields : list (string * json)).

(** Python's truth value, as [or] reads it. *)
Definition truthy (v : json) : bool :=
  match v with
  | JNone => false
  | JStr s => match s with [] | [Lit EmptyString] => false | _ => true end
  | JInt n => negb (n =? 0)
  | JFloat x => negb (x =? 0)%float
  | JTime _ => true
  | JObj fields => match fields with [] => false | _ => true end
  end.

(** [a or b] *)
Definition py_or (a b : json) : json := if truthy a then a else b.

(** [range(a, b)] *)
Definition py_range (a b : Z) : list Z :=
  map (fun k => a + Z.of_nat k) (seq 0 (Z.to_nat (b - a))).

(** ** Floating point *)

(** The conversion of an [int] operand to [float] in [base * i] and in
    [math.pow(base, i)]: the nearest double. *)
Definition float_of_int (n : Z) : float :=
  SF2Prim (binary_normalize prec emax n 0 false).

(** [base * i] with [i] an [int]: the IEEE product, which overflows to
    infinity without an exception. *)
Definition float_mul_int (x : float) (n : Z) : float :=
  (x * float_of_int n)%float.

Definition odd_int (n : Z) : bool := Z.odd n.

(** C's [pow(x, y)] for finite [x] and an integer [y]: the exact power,
    rounded to the nearest double (to infinity when it exceeds the range).
    The [pow] of a platform agrees with it up to the accuracy of its last
    bit. The endpoints call it with [y] from 1 to 100 only; a negative [y]
    is answered by the inverse of the opposite power. *)
Definition c_pow (x : float) (y : Z) : float :=
  match y with
  | Z0 => one
  | Zpos _ =>
      match Prim2SF x with
      | S754_finite s m e =>
          SF2Prim (binary_normalize prec emax
                     (if s && odd_int y then - (Z.pos m ^ y) else Z.pos m ^ y)
                     (e * y) false)
      | S754_zero s => if s && odd_int y then neg_zero else zero
      | _ => x
      end
  | Zneg _ =>
      match Prim2SF x with
      | S754_finite s m e =>
          let d := SF2Prim (binary_normalize prec emax
                              (if s && odd_int y then - (Z.pos m ^ (- y)) else Z.pos m ^ (- y))
                              (e * (- y)) false) in
          (one / d)%float
      | S754_zero s => if s && odd_int y then neg_infinity else infinity
      | _ => x
      end
  end.

(** ** Exceptions *)

Inductive exn :=
| HTTPException (status_code : Z) (detail : pystr)
| OverflowError (msg : string)
| ValueError (msg : string)
| InvalidId
| PyMongoError (msg : string).

(** [str(e)] *)
Definition str_exn (e : exn) : pystr :=
  match e with
  | HTTPException c d => d
  | OverflowError m => lit m
  | ValueError m => lit m
  | InvalidId => lit "not a valid ObjectId"
  | PyMongoError m => lit m
  end.

Inductive res (A : Type) :=
| Ret (a : A)
| Raise (e : exn).
Arguments Ret {A} a.
Arguments Raise {A} e.

(** [math.pow(x, y)] with [y] an [int]: CPython answers the special values
    itself, and turns an infinite result of finite operands into
    [OverflowError("math range error")] (a zero base with a negative exponent
    into [ValueError]). *)
Definition math_pow (x : float) (y : Z) : res float :=
  if is_nan x then Ret (if y =? 0 then one else x)
  else if is_infinity x then
    Ret (if 0 <? y then (if odd_int y then x else abs x)
         else if y =? 0 then one
         else if odd_int y && get_sign x then neg_zero else zero)
  else
    let r := c_pow x y in
    if is_nan r then Raise (ValueError "math domain error")
    else if is_infinity r then
      if is_zero x then Raise (ValueError "math domain error")
      else Raise (OverflowError "math range error")
    else Ret r.

(** ** The two collections *)

(** A document of [calculations_collection]; the fields that [$set] adds are
    absent ([None]) until then. *)
Record calc_document := CalculationDoc {
  doc_base : float;
  doc_exponent : Z;
  doc_status : string;
  doc_started_at : time;
  doc_completed_at : json;
  doc_linear_result : option float;
  doc_exponential_result : option float;
  doc_total_steps : option Z
}.

(** A document of [events_collection]. *)
Record event_document := EventDoc {
  ev_calculation_id : pystr;
  ev_event_type : string;
  ev_message : pystr;
  ev_timestamp : time;
  ev_data : json
}.

(** The calls the two endpoints make to the store. *)
Inductive store_op :=
| CalcInsertOne (doc : calc_document)
| CalcUpdateOne (oid : ObjectId) (status : string) (completed_at : time)
                (linear_result exponential_result : float) (total_steps : Z)
| EventInsertOne (doc : event_document).

(** A call the store received and whether it raised. *)
Record store_call := StoreCall {
  call_op : store_op;
  call_error : option string
}.

(** The store: the two collections, the next identifier the driver hands out,
    the calls received so far (oldest first), and the fault plan: the head
    says whether the next call raises, an exhausted plan means no fault. *)
Record mongo := Mongo {
  calculations_collection : gmap ObjectId calc_document;
  events_collection : list event_document;
  next_oid : ObjectId;
  store_calls : list store_call;
  faults : list (option string)
}.

(** ** The state of a run *)

(** The store, the clock read by [datetime.utcnow()], what [print] wrote,
    the chunks the generator yielded so far, and the local [calculation_id],
    unbound until the assignment that follows [insert_one]. *)
Record state := State {
  db : mongo;
  clock : time;
  stdout : list pystr;
  yielded : list json;
  local_calculation_id : option pystr
}.

Definition set_db (s : state) (m : mongo) : state :=
  State m (clock s) (stdout s) (yielded s) (local_calculation_id s).

Definition M (A : Type) : Type := state -> res A * state.

Definition ret {A} (a : A) : M A := fun s => (Ret a, s).

Definition raise {A} (e : exn) : M A := fun s => (Raise e, s).

Definition bind {A B} (m : M A) (k : A -> M B) : M B :=
  fun s =>
    match m s with
    | (Ret a, s') => k a s'
    | (Raise e, s') => (Raise e, s')
    end.

(** [try: m  except Exception as e: h e] *)
Definition try_except {A} (m : M A) (h : exn -> M A) : M A :=
  fun s =>
    match m s with
    | (Ret a, s') => (Ret a, s')
    | (Raise e, s') => h e s'
    end.

Definition lift {A} (r : res A) : M A := fun s => (r, s).

Declare Scope py_scope.
Delimit Scope py_scope with py.
Notation "x <- m ;; k" := (bind m (fun x => k))
  (at level 100, m at next level, right associativity) : py_scope.
Notation "m ;; k" := (bind m (fun _ => k))
  (at level 100, right associativity) : py_scope.
Local Open Scope py_scope.

(** [for x in xs: body x] *)
Fixpoint for_each {A} (xs : list A) (body : A -> M unit) : M unit :=
  match xs with
  | [] => ret tt
  | x :: xs' => body x ;; for_each xs' body
  end.

(** A loop that grows local lists: [acc] is their value so far. *)
Fixpoint for_fold {A S} (xs : list A) (acc : S) (body : A -> S -> M S) : M S :=
  match xs with
  | [] => ret acc
  | x :: xs' => acc' <- body x acc ;; for_fold xs' acc' body
  end.

(** [datetime.utcnow()]: the clock, which the two sleeps of the generator
    advance. *)
Definition utcnow : M time := fun s => (Ret (clock s), s).

(** [await asyncio.sleep(ms / 1000)] *)
Definition asyncio_sleep (ms : nat) : M unit :=
  fun s => (Ret tt, State (db s) (clock s + ms)%nat (stdout s) (yielded s)
                          (local_calculation_id s)).

(** [print(line)] *)
Definition print (line : pystr) : M unit :=
  fun s => (Ret tt, State (db s) (clock s) (stdout s ++ [line]) (yielded s)
                          (local_calculation_id s)).

(** [yield f"data: {json.dumps(payload)}\n\n"] *)
Definition yield_data (payload : json) : M unit :=
  fun s => (Ret tt, State (db s) (clock s) (stdout s) (yielded s ++ [payload])
                          (local_calculation_id s)).

(** The assignment [calculation_id = ...] and ['calculation_id' in locals()]. *)
Definition bind_calculation_id (cid : pystr) : M unit :=
  fun s => (Ret tt, State (db s) (clock s) (stdout s) (yielded s) (Some cid)).

Definition locals_calculation_id : M (option pystr) :=
  fun s => (Ret (local_calculation_id s), s).

(** ** Calls to the store *)

(** The store takes a call: it raises when the fault plan says so and leaves
    the collections as they were, else it applies [effect]; the call is
    recorded either way. *)
Definition mongo_call (op : store_op) (effect : mongo -> mongo) (m : mongo)
  : option string * mongo :=
  let fault := match faults m with f :: _ => f | [] => None end in
  let m1 := match fault with Some _ => m | None => effect m end in
  (fault,
   Mongo (calculations_collection m1) (events_collection m1) (next_oid m1)
         (store_calls m ++ [StoreCall op fault]) (tail (faults m))).

Definition store (op : store_op) (effect : mongo -> mongo) : M unit :=
  fun s =>
    match mongo_call op effect (db s) with
    | (Some msg, m') => (Raise (PyMongoError msg), set_db s m')
    | (None, m') => (Ret tt, set_db s m')
    end.

(** [calculations_collection.insert_one(doc).inserted_id] *)
Definition calculations_insert_one (doc : calc_document) : M ObjectId :=
  oid <- (fun s => (Ret (next_oid (db s)), s)) ;;
  store (CalcInsertOne doc)
    (fun m => Mongo (<[oid := doc]> (calculations_collection m))
                    (events_collection m) (S oid) (store_calls m) (faults m)) ;;
  ret oid.

(** What [$set] does to the document it matches. *)
Definition set_fields (status : string) (completed_at : time)
    (linear_result exponential_result : float) (total_steps : Z)
    (d : calc_document) : calc_document :=
  CalculationDoc (doc_base d) (doc_exponent d) status (doc_started_at d)
    (JTime completed_at) (Some linear_result) (Some exponential_result)
    (Some total_steps).

(** [calculations_collection.update_one({"_id": oid}, {"$set": {...}})] *)
Definition calculations_update_one (oid : ObjectId) (status : string)
    (completed_at : time) (linear_result exponential_result : float)
    (total_steps : Z) : M unit :=
  store (CalcUpdateOne oid status completed_at linear_result exponential_result
           total_steps)
    (fun m =>
       Mongo (alter (set_fields status completed_at linear_result
                       exponential_result total_steps)
                oid (calculations_collection m))
             (events_collection m) (next_oid m) (store_calls m) (faults m)).

(** [events_collection.insert_one(doc)] *)
Definition events_insert_one (doc : event_document) : M unit :=
  store (EventInsertOne doc)
    (fun m => Mongo (calculations_collection m) (events_collection m ++ [doc])
                    (next_oid m) (store_calls m) (faults m)).

(** [str(oid)] and [ObjectId(s)] *)
Definition str_oid (oid : ObjectId) : pystr := [FmtOid oid].

Definition ObjectId_of_str (s : pystr) : res ObjectId :=
  match s with
  | [FmtOid oid] => Ret oid
  | _ => Raise InvalidId
  end.

(** [t.isoformat()] *)
Definition isoformat (t : time) : pystr := [FmtTime t].

(** ** [log_event] *)

(** [data] is [JNone] where the caller leaves the default. *)
Definition log_event (calculation_id : pystr) (event_type : string)
    (message : pystr) (data : json) : M unit :=
  timestamp <- utcnow ;;
  let event_doc :=
    EventDoc calculation_id event_type message timestamp (py_or data (JObj []))
  in
  events_insert_one event_doc.

(** ** Requests and responses *)

Record CalculationRequest := Request {
  base : float;
  exponent : Z
}.

Record StepLog := MkStepLog {
  step : Z;
  operation : pystr;
  result : float;
  timestamp : pystr
}.

Record CalculationResponse := Response {
  calculation_id : pystr;
  resp_base : float;
  resp_exponent : Z;
  linear_result : float;
  exponential_result : float;
  linear_logs : list StepLog;
  exponential_logs : list StepLog;
  total_steps : Z;
  started_at : pystr;
  completed_at : pystr
}.

Record StreamingResponse := MkStreamingResponse {
  status_code : Z;
  media_type : string;
  headers : list (string * string);
  body_iterator : M unit
}.

(** ** The streamed endpoint *)

Definition error_chunk (text : string) : json :=
  JObj [("type", JStr (lit "error")); ("error", JStr (lit text))].

Definition start_chunk (calculation_id : pystr) (request : CalculationRequest) : json :=
  JObj [("type", JStr (lit "start"));
        ("calculation_id", JStr calculation_id);
        ("base", JFloat (base request));
        ("exponent", JInt (exponent request))].

Definition linear_operation (b : float) (i : Z) : pystr :=
  [FmtFloat b; Lit " × "; FmtInt i].

Definition exponential_operation (b : float) (i : Z) : pystr :=
  [FmtFloat b; Lit "^"; FmtInt i].

Definition step_chunk (b : float) (i : Z) (linear_result exponential_result : float)
    (now : time) : json :=
  JObj [("type", JStr (lit "step"));
        ("step", JInt i);
        ("linear", JObj [("operation", JStr (linear_operation b i));
                         ("result", JFloat linear_result)]);
        ("exponential", JObj [("operation", JStr (exponential_operation b i));
                              ("result", JFloat exponential_result)]);
        ("timestamp", JStr (isoformat now))].

Definition complete_chunk (calculation_id : pystr) (linear_final exponential_final : float)
    (total : Z) (started_at completed_at : time) : json :=
  JObj [("type", JStr (lit "complete"));
        ("calculation_id", JStr calculation_id);
        ("linear_result", JFloat linear_final);
        ("exponential_result", JFloat exponential_final);
        ("total_steps", JInt total);
        ("started_at", JStr (isoformat started_at));
        ("completed_at", JStr (isoformat completed_at))].

Definition failure_chunk (e : exn) : json :=
  JObj [("type", JStr (lit "error")); ("message", JStr (str_exn e))].

Definition new_calculation (request : CalculationRequest) (started_at : time)
  : calc_document :=
  CalculationDoc (base request) (exponent request) "in_progress" started_at JNone
    None None None.

Definition started_message (request : CalculationRequest) : pystr :=
  [Lit "Starting calculation: base="; FmtFloat (base request);
   Lit ", exponent="; FmtInt (exponent request)].

Definition started_data (request : CalculationRequest) : json :=
  JObj [("base", JFloat (base request)); ("exponent", JInt (exponent request))].

Definition step_message (label : pystr) (i : Z) (value : float) : pystr :=
  [Lit "Step "; FmtInt i; Lit ": "] ++ label ++ [Lit " = "; FmtFloat value].

Definition step_data (i : Z) (value : float) (kind : string) : json :=
  JObj [("step", JInt i); ("result", JFloat value); ("type", JStr (lit kind))].

Definition error_message (e : exn) : pystr := Lit "Error: " :: str_exn e.

Definition error_data (e : exn) : json := JObj [("error", JStr (str_exn e))].

(** The body of the [for] loop of the generator, lines 118 to 155. *)
Definition stream_step (request : CalculationRequest) (calculation_id : pystr)
    (i : Z) : M unit :=
  let linear_result := float_mul_int (base request) i in
  exponential_result <- lift (math_pow (base request) i) ;;
  now <- utcnow ;;
  yield_data (step_chunk (base request) i linear_result exponential_result now) ;;
  try_except
    (log_event calculation_id "linear_step"
       (step_message (linear_operation (base request) i) i linear_result)
       (step_data i linear_result "linear") ;;
     log_event calculation_id "exponential_step"
       (step_message (exponential_operation (base request) i) i exponential_result)
       (step_data i exponential_result "exponential"))
    (fun e => print (Lit "Warning: Failed to log event: " :: str_exn e)) ;;
  asyncio_sleep 1000.

Definition generate_calculation_events (request : CalculationRequest) : M unit :=
  try_except
    (if (base request <=? 0)%float then
       yield_data (error_chunk "Base must be positive")
     else if (exponent request <=? 0) || (100 <? exponent request) then
       yield_data (error_chunk "Exponent must be between 1 and 100")
     else
       started_at <- utcnow ;;
       let calculation_doc := new_calculation request started_at in
       calc_result <- calculations_insert_one calculation_doc ;;
       let calculation_id := str_oid calc_result in
       bind_calculation_id calculation_id ;;
       yield_data (start_chunk calculation_id request) ;;
       log_event calculation_id "calculation_started" (started_message request)
         (started_data request) ;;
       asyncio_sleep 100 ;;
       for_each (py_range 1 (exponent request + 1))
         (stream_step request calculation_id) ;;
       let linear_final := float_mul_int (base request) (exponent request) in
       exponential_final <- lift (math_pow (base request) (exponent request)) ;;
       completed_at <- utcnow ;;
       try_except
         (oid <- lift (ObjectId_of_str calculation_id) ;;
          calculations_update_one oid "completed" completed_at linear_final
            exponential_final (exponent request) ;;
          log_event calculation_id "calculation_completed"
            (lit "Calculation completed successfully") JNone)
         (fun e => print (Lit "Warning: Failed to update calculation: " :: str_exn e)) ;;
       yield_data (complete_chunk calculation_id linear_final exponential_final
                     (exponent request) started_at completed_at))
    (fun e =>
       yield_data (failure_chunk e) ;;
       bound <- locals_calculation_id ;;
       match bound with
       | Some calculation_id =>
           try_except
             (log_event calculation_id "calculation_error" (error_message e)
                (error_data e))
             (fun _ => ret tt)
       | None => ret tt
       end).

Definition calculate_growth_stream (request : CalculationRequest)
  : M StreamingResponse :=
  ret (MkStreamingResponse 200 "text/event-stream"
         [("Cache-Control", "no-cache, no-transform");
          ("Connection", "keep-alive");
          ("X-Accel-Buffering", "no");
          ("Content-Type", "text/event-stream; charset=utf-8")]
         (generate_calculation_events request)).

(** ** The synchronous endpoint *)

(** The body of the [for] loop of [calculate_growth], lines 250 to 267. *)
Definition sync_step (request : CalculationRequest) (i : Z)
    (logs : list StepLog * list StepLog) : M (list StepLog * list StepLog) :=
  let '(linear_logs, exponential_logs) := logs in
  let linear_result := float_mul_int (base request) i in
  t1 <- utcnow ;;
  let linear_logs :=
    linear_logs ++ [MkStepLog i (linear_operation (base request) i) linear_result
                      (isoformat t1)] in
  exponential_result <- lift (math_pow (base request) i) ;;
  t2 <- utcnow ;;
  ret (linear_logs,
       exponential_logs ++ [MkStepLog i (exponential_operation (base request) i)
                              exponential_result (isoformat t2)]).

Definition calculate_growth (request : CalculationRequest) : M CalculationResponse :=
  try_except
    (if (base request <=? 0)%float then
       raise (HTTPException 400 (lit "Base must be positive"))
     else if (exponent request <=? 0) || (100 <? exponent request) then
       raise (HTTPException 400 (lit "Exponent must be between 1 and 100"))
     else
       started_at <- utcnow ;;
       let calculation_doc := new_calculation request started_at in
       calc_result <- calculations_insert_one calculation_doc ;;
       let calculation_id := str_oid calc_result in
       bind_calculation_id calculation_id ;;
       log_event calculation_id "calculation_started" (started_message request)
         (started_data request) ;;
       logs <- for_fold (py_range 1 (exponent request + 1)) ([], [])
                 (sync_step request) ;;
       let linear_final := float_mul_int (base request) (exponent request) in
       exponential_final <- lift (math_pow (base request) (exponent request)) ;;
       completed_at <- utcnow ;;
       oid <- lift (ObjectId_of_str calculation_id) ;;
       calculations_update_one oid "completed" completed_at linear_final
         exponential_final (exponent request) ;;
       log_event calculation_id "calculation_completed"
         (lit "Calculation completed successfully") JNone ;;
       ret (Response calculation_id (base request) (exponent request)
              linear_final exponential_final (fst logs) (snd logs)
              (exponent request) (isoformat started_at) (isoformat completed_at)))
    (fun e =>
       match e with
       | HTTPException _ _ => raise e
       | _ =>
           bound <- locals_calculation_id ;;
           log_event (match bound with
                      | Some calculation_id => calculation_id
                      | None => lit "unknown"
                      end)
             "calculation_error" (error_message e) (error_data e) ;;
           raise (HTTPException 500 (str_exn e))
       end).

(** ** Serving a request *)

(** A call starts with an empty frame, nothing printed and nothing sent. *)
Definition fresh (m : mongo) (now : time) : state := State m now [] [] None.

(** The server calls the endpoint, sends the status line of the response it
    returns, then drains the body iterator. *)
Definition serve_stream (request : CalculationRequest) (m : mongo) (now : time)
  : Z * (res unit * state) :=
  match calculate_growth_stream request (fresh m now) with
  | (Ret response, s) => (status_code response, body_iterator response s)
  | (Raise (HTTPException c d), s) => (c, (Raise (HTTPException c d), s))
  | (Raise e, s) => (500, (Raise e, s))
  end.

(** The status of the response to the synchronous endpoint: 200 with the
    model it returns, the status of the [HTTPException] it raises, and 500
    for any other exception. *)
Definition http_status {A} (r : res A) : Z :=
  match r with
  | Ret _ => 200
  | Raise (HTTPException c _) => c
  | Raise _ => 500
  end.

Definition serve_calculate (request : CalculationRequest) (m : mongo) (now : time)
  : res CalculationResponse * state :=
  calculate_growth request (fresh m now).

(** ** The blocks of the two endpoints *)

(** The blocks of [generate_calculation_events], named for the proofs: the
    end of the [try] body, after the loop (lines 157 to 193); the [try] body
    for a request that passed both checks (lines 89 to 193); the [except]
    clause (lines 195 to 202). *)
Definition stream_finish (request : CalculationRequest) (calculation_id : pystr)
    (started_at : time) : M unit :=
  let linear_final := float_mul_int (base request) (exponent request) in
  exponential_final <- lift (math_pow (base request) (exponent request)) ;;
  completed_at <- utcnow ;;
  try_except
    (oid <- lift (ObjectId_of_str calculation_id) ;;
     calculations_update_one oid "completed" completed_at linear_final
       exponential_final (exponent request) ;;
     log_event calculation_id "calculation_completed"
       (lit "Calculation completed successfully") JNone)
    (fun e => print (Lit "Warning: Failed to update calculation: " :: str_exn e)) ;;
  yield_data (complete_chunk calculation_id linear_final exponential_final
                (exponent request) started_at completed_at).

Definition stream_main (request : CalculationRequest) : M unit :=
  started_at <- utcnow ;;
  let calculation_doc := new_calculation request started_at in
  calc_result <- calculations_insert_one calculation_doc ;;
  let calculation_id := str_oid calc_result in
  bind_calculation_id calculation_id ;;
  yield_data (start_chunk calculation_id request) ;;
  log_event calculation_id "calculation_started" (started_message request)
    (started_data request) ;;
  asyncio_sleep 100 ;;
  for_each (py_range 1 (exponent request + 1))
    (stream_step request calculation_id) ;;
  stream_finish request calculation_id started_at.

Definition stream_except (e : exn) : M unit :=
  yield_data (failure_chunk e) ;;
  bound <- locals_calculation_id ;;
  match bound with
  | Some calculation_id =>
      try_except
        (log_event calculation_id "calculation_error" (error_message e)
           (error_data e))
        (fun _ => ret tt)
  | None => ret tt
  end.

(** The blocks of [calculate_growth]: the [try] body for a request that
    passed both checks (lines 230 to 300) and the clause
    [except Exception as e] (lines 304 to 307). *)
Definition sync_main (request : CalculationRequest) : M CalculationResponse :=
  started_at <- utcnow ;;
  let calculation_doc := new_calculation request started_at in
  calc_result <- calculations_insert_one calculation_doc ;;
  let calculation_id := str_oid calc_result in
  bind_calculation_id calculation_id ;;
  log_event calculation_id "calculation_started" (started_message request)
    (started_data request) ;;
  logs <- for_fold (py_range 1 (exponent request + 1)) ([], [])
            (sync_step request) ;;
  let linear_final := float_mul_int (base request) (exponent request) in
  exponential_final <- lift (math_pow (base request) (exponent request)) ;;
  completed_at <- utcnow ;;
  oid <- lift (ObjectId_of_str calculation_id) ;;
  calculations_update_one oid "completed" completed_at linear_final
    exponential_final (exponent request) ;;
  log_event calculation_id "calculation_completed"
    (lit "Calculation completed successfully") JNone ;;
  ret (Response calculation_id (base request) (exponent request)
         linear_final exponential_final (fst logs) (snd logs)
         (exponent request) (isoformat started_at) (isoformat completed_at)).

Definition sync_except (e : exn) : M CalculationResponse :=
  bound <- locals_calculation_id ;;
  log_event (match bound with
             | Some calculation_id => calculation_id
             | None => lit "unknown"
             end)
    "calculation_error" (error_message e) (error_data e) ;;
  raise (HTTPException 500 (str_exn e)).

(** ** Reading chunks, calls and fault plans *)

(** [d.get(key)] on a dict. *)
Fixpoint get_field (key : string) (fields : list (string * json)) : option json :=
  match fields with
  | [] => None
  | (k, v) :: rest => if String.eqb k key then Some v else get_field key rest
  end.

(** The ['type'] of a chunk: [start], [step], [complete] or [error]. *)
Definition chunk_kind (c : json) : string :=
  match c with
  | JObj fields =>
      match get_field "type" fields with
      | Some (JStr [Lit k]) => k
      | _ => ""
      end
  | _ => ""
  end.

(** The ['step'] of a [step] chunk. *)
Definition step_index (c : json) : option Z :=
  match c with
  | JObj fields =>
      if String.eqb (chunk_kind c) "step" then
        match get_field "step" fields with
        | Some (JInt i) => Some i
        | _ => None
        end
      else None
  | _ => None
  end.

(** The step indices of the [step] chunks of a body, in the order sent. *)
Definition step_indices (chunks : list json) : list Z := omap step_index chunks.

(** Whether the [k]-th next call to the store raises, and with what. *)
Definition fault_at (m : mongo) (k : nat) : option string :=
  match faults m !! k with
  | Some f => f
  | None => None
  end.

(** A request that passes both checks of the endpoints. *)
Definition valid (request : CalculationRequest) : Prop :=
  (base request <=? 0)%float = false ∧ 1 ≤ exponent request ≤ 100.

(** The event type of a call that writes to the journal. *)
Definition call_event_type (c : store_call) : option string :=
  match call_op c with
  | EventInsertOne d => Some (ev_event_type d)
  | _ => None
  end.

(** The calls the store received since it was [m]. *)
Definition calls_since (m : mongo) (s : state) : list store_call :=
  drop (length (store_calls m)) (store_calls (db s)).

(** The journal entries written since the store was [m]. *)
Definition events_since (m : mongo) (s : state) : list event_document :=
  drop (length (events_collection m)) (events_collection (db s)).

(** The status of the record [oid], if the collection has it. *)
Definition record_status (s : state) (oid : ObjectId) : option string :=
  doc_status <$> calculations_collection (db s) !! oid.

(** ** The journal as the calls show it *)

(** The step number in the payload of a journal document. *)
Definition doc_step (d : event_document) : option Z :=
  match ev_data d with
  | JObj fields =>
      match get_field "step" fields with
      | Some (JInt i) => Some i
      | _ => None
      end
  | _ => None
  end.

(** The steps for which a journal write of type [ty] was initiated, in the
    order of the calls. *)
Definition attempted (ty : string) (cs : list store_call) : list Z :=
  omap (λ c, match call_op c with
             | EventInsertOne d =>
                 if String.eqb (ev_event_type d) ty then doc_step d else None
             | _ => None
             end) cs.

(** The same, for the writes that the store accepted. *)
Definition stored (ty : string) (cs : list store_call) : list Z :=
  attempted ty (filter (λ c, call_error c = None) cs).

(** The documents that a list of calls added to the journal. *)
Definition journal_writes (cs : list store_call) : list event_document :=
  omap (λ c, match call_op c, call_error c with
             | EventInsertOne d, None => Some d
             | _, _ => None
             end) cs.

(** A call of the step loop: a [linear_step] or an [exponential_step] write. *)
Definition step_call (c : store_call) : Prop :=
  call_event_type c = Some "linear_step" ∨ call_event_type c = Some "exponential_step".

(** [s'] comes from [s] by the journal writes [cs] and nothing else that the
    store or the frame can see: the records, the identifiers and the local
    [calculation_id] are as they were. *)
Record journal_only (s s' : state) (cs : list store_call) : Prop := JournalOnly {
  jo_records : calculations_collection (db s') = calculations_collection (db s);
  jo_next_oid : next_oid (db s') = next_oid (db s);
  jo_local : local_calculation_id s' = local_calculation_id s;
  jo_calls : store_calls (db s') = store_calls (db s) ++ cs;
  jo_events : events_collection (db s') = events_collection (db s) ++ journal_writes cs;
  jo_faults : faults (db s') = drop (length cs) (faults (db s))
}.

(** The value [math.pow] returns, where it returns. *)
Definition pow_value (x : float) (i : Z) : float :=
  match math_pow x i with
  | Ret v => v
  | Raise _ => nan
  end.

(** The [step] chunk of step [i], sent at [t]. *)
Definition step_chunk_of (request : CalculationRequest) (i : Z) (t : time) : json :=
  step_chunk (base request) i (float_mul_int (base request) i)
    (pow_value (base request) i) t.


(** ** How the end of a run shows in the store *)

(** The call that marks the record [oid] completed at [tc]. *)
Definition update_op (request : CalculationRequest) (oid : ObjectId) (tc : time)
  : store_op :=
  CalcUpdateOne oid "completed" tc
    (float_mul_int (base request) (exponent request))
    (pow_value (base request) (exponent request)) (exponent request).

(** What [$set] makes of the record at [tc]. *)
Definition completed_fields (request : CalculationRequest) (tc : time)
  : calc_document → calc_document :=
  set_fields "completed" tc
    (float_mul_int (base request) (exponent request))
    (pow_value (base request) (exponent request)) (exponent request).

Definition started_doc (request : CalculationRequest) (cid : pystr) (t : time)
  : event_document :=
  EventDoc cid "calculation_started" (started_message request) t
    (started_data request).

Definition completed_doc (cid : pystr) (t : time) : event_document :=
  EventDoc cid "calculation_completed"
    (lit "Calculation completed successfully") t (JObj []).

Definition error_doc (cid : pystr) (e : exn) (t : time) : event_document :=
  EventDoc cid "calculation_error" (error_message e) t (error_data e).

(** The line that the generator prints when the final update fails. *)
Definition update_warning (msg : string) : pystr :=
  Lit "Warning: Failed to update calculation: " :: lit msg.

(** The three ways in which the update of the record and its journal entry
    can go in the generator: the calls made, the records and the printed
    lines after them. *)
Inductive finish_calls (request : CalculationRequest) (oid : ObjectId) (tc : time)
    (records records' : gmap ObjectId calc_document) (out out' : list pystr)
    (fin : list store_call) : Prop :=
| update_failed (msg : string) :
    fin = [StoreCall (update_op request oid tc) (Some msg)] →
    records' = records →
    out' = out ++ [update_warning msg] →
    finish_calls request oid tc records records' out out' fin
| completed_not_journaled (msg : string) :
    fin = [StoreCall (update_op request oid tc) None;
           StoreCall (EventInsertOne (completed_doc (str_oid oid) tc)) (Some msg)] →
    records' = alter (completed_fields request tc) oid records →
    out' = out ++ [update_warning msg] →
    finish_calls request oid tc records records' out out' fin
| completed_journaled :
    fin = [StoreCall (update_op request oid tc) None;
           StoreCall (EventInsertOne (completed_doc (str_oid oid) tc)) None] →
    records' = alter (completed_fields request tc) oid records →
    out' = out →
    finish_calls request oid tc records records' out out' fin.

(** ** How a run of the generator ends *)

(** The three ways in which the generator can end for a request that passed
    both checks, read off the final state [s'] of the run that started with
    the store [m] at [now]: the record could not be created; the record was
    created and the [try] body raised [e] later; the [try] body reached its
    end. [l1] are the steps sent, [ts] their timestamps, [cs] the journal
    calls of the loop, [fin] the calls of the final update. *)
Inductive stream_outcome (request : CalculationRequest) (m : mongo) (now : time)
    (s' : state) : Prop :=
| stream_no_record (msg : string) :
    fault_at m 0 = Some msg →
    yielded s' = [failure_chunk (PyMongoError msg)] →
    calculations_collection (db s') = calculations_collection m →
    store_calls (db s') =
      store_calls m ++ [StoreCall (CalcInsertOne (new_calculation request now)) (Some msg)] →
    events_collection (db s') = events_collection m →
    stream_outcome request m now s'
| stream_failed (e : exn) (l1 : list Z) (ts : list time) (cs : list store_call)
    (t : time) (f1 f : option string) :
    fault_at m 0 = None →
    fault_at m 1 = f1 →
    yielded s' =
      start_chunk (str_oid (next_oid m)) request
        :: zip_with (step_chunk_of request) l1 ts ++ [failure_chunk e] →
    length ts = length l1 →
    (∀ i, i ∈ l1 → math_pow (base request) i = Ret (pow_value (base request) i)) →
    ((∃ msg, f1 = Some msg ∧ e = PyMongoError msg ∧ l1 = [] ∧ cs = [])
     ∨ (f1 = None ∧ ∃ i l2, py_range 1 (exponent request + 1) = l1 ++ i :: l2
                            ∧ math_pow (base request) i = Raise e)) →
    Forall step_call cs →
    attempted "linear_step" cs = l1 →
    attempted "exponential_step" cs = stored "linear_step" cs →
    calculations_collection (db s') =
      <[next_oid m := new_calculation request now]> (calculations_collection m) →
    store_calls (db s') =
      store_calls m ++
        StoreCall (CalcInsertOne (new_calculation request now)) None
        :: StoreCall (EventInsertOne (started_doc request (str_oid (next_oid m)) now)) f1
        :: cs ++ [StoreCall (EventInsertOne (error_doc (str_oid (next_oid m)) e t)) f] →
    events_collection (db s') =
      events_collection m ++
        journal_writes
          (StoreCall (EventInsertOne (started_doc request (str_oid (next_oid m)) now)) f1
           :: cs ++ [StoreCall (EventInsertOne (error_doc (str_oid (next_oid m)) e t)) f]) →
    stream_outcome request m now s'
| stream_completed (ts : list time) (cs fin : list store_call) (tc : time)
    (out : list pystr) :
    fault_at m 0 = None →
    fault_at m 1 = None →
    (∀ i, 1 ≤ i ≤ exponent request →
          math_pow (base request) i = Ret (pow_value (base request) i)) →
    yielded s' =
      start_chunk (str_oid (next_oid m)) request
        :: zip_with (step_chunk_of request) (py_range 1 (exponent request + 1)) ts
        ++ [complete_chunk (str_oid (next_oid m))
              (float_mul_int (base request) (exponent request))
              (pow_value (base request) (exponent request))
              (exponent request) now tc] →
    length ts = length (py_range 1 (exponent request + 1)) →
    Forall step_call cs →
    attempted "linear_step" cs = py_range 1 (exponent request + 1) →
    attempted "exponential_step" cs = stored "linear_step" cs →
    finish_calls request (next_oid m) tc
      (<[next_oid m := new_calculation request now]> (calculations_collection m))
      (calculations_collection (db s')) out (stdout s') fin →
    store_calls (db s') =
      store_calls m ++
        StoreCall (CalcInsertOne (new_calculation request now)) None
        :: StoreCall (EventInsertOne (started_doc request (str_oid (next_oid m)) now)) None
        :: cs ++ fin →
    events_collection (db s') =
      events_collection m ++
        started_doc request (str_oid (next_oid m)) now
        :: journal_writes cs ++ journal_writes fin →
    stream_outcome request m now s'.

(** ** How a call of the synchronous endpoint ends *)

(** The entries of [linear_logs] and [exponential_logs] for step [i]. *)
Definition linear_log (request : CalculationRequest) (t : time) (i : Z) : StepLog :=
  MkStepLog i (linear_operation (base request) i)
    (float_mul_int (base request) i) (isoformat t).

Definition exponential_log (request : CalculationRequest) (t : time) (i : Z) : StepLog :=
  MkStepLog i (exponential_operation (base request) i)
    (pow_value (base request) i) (isoformat t).

(** The response of a call that reaches [return]. *)
Definition response_of (request : CalculationRequest) (oid : ObjectId) (now : time)
  : CalculationResponse :=
  Response (str_oid oid) (base request) (exponent request)
    (float_mul_int (base request) (exponent request))
    (pow_value (base request) (exponent request))
    (linear_log request now <$> py_range 1 (exponent request + 1))
    (exponential_log request now <$> py_range 1 (exponent request + 1))
    (exponent request) (isoformat now) (isoformat now).

(** The four places at which the [try] body of [calculate_growth] can raise
    once the record exists: the exception [e], the calls [pre] made after
    [insert_one] and before the [except] clause, and the records then. *)
Inductive sync_failure (request : CalculationRequest) (m : mongo) (now : time)
    (e : exn) (pre : list store_call) (records' : gmap ObjectId calc_document)
  : Prop :=
| started_write_failed (msg : string) :
    fault_at m 1 = Some msg →
    e = PyMongoError msg →
    pre = [StoreCall (EventInsertOne (started_doc request (str_oid (next_oid m)) now))
             (Some msg)] →
    records' = <[next_oid m := new_calculation request now]> (calculations_collection m) →
    sync_failure request m now e pre records'
| power_raised (i : Z) :
    fault_at m 1 = None →
    1 ≤ i ≤ exponent request →
    math_pow (base request) i = Raise e →
    pre = [StoreCall (EventInsertOne (started_doc request (str_oid (next_oid m)) now))
             None] →
    records' = <[next_oid m := new_calculation request now]> (calculations_collection m) →
    sync_failure request m now e pre records'
| update_raised (msg : string) :
    fault_at m 1 = None →
    fault_at m 2 = Some msg →
    e = PyMongoError msg →
    pre = [StoreCall (EventInsertOne (started_doc request (str_oid (next_oid m)) now))
             None;
           StoreCall (update_op request (next_oid m) now) (Some msg)] →
    records' = <[next_oid m := new_calculation request now]> (calculations_collection m) →
    sync_failure request m now e pre records'
| completed_write_failed (msg : string) :
    fault_at m 1 = None →
    fault_at m 2 = None →
    fault_at m 3 = Some msg →
    e = PyMongoError msg →
    pre = [StoreCall (EventInsertOne (started_doc request (str_oid (next_oid m)) now))
             None;
           StoreCall (update_op request (next_oid m) now) None;
           StoreCall (EventInsertOne (completed_doc (str_oid (next_oid m)) now))
             (Some msg)] →
    records' = alter (completed_fields request now) (next_oid m)
                 (<[next_oid m := new_calculation request now]> (calculations_collection m)) →
    sync_failure request m now e pre records'.

(** What the [except] clause raises for [e]: the [HTTPException] with status
    500 when its journal write returns, the exception of that write
    otherwise. *)
Definition sync_raised (e : exn) (f : option string) : exn :=
  match f with
  | None => HTTPException 500 (str_exn e)
  | Some msg => PyMongoError msg
  end.

(** The three ways in which [calculate_growth] can end for a request that
    passed both checks. *)
Inductive sync_outcome (request : CalculationRequest) (m : mongo) (now : time)
    (r : res CalculationResponse) (s' : state) : Prop :=
| sync_no_record (msg : string) (f : option string) :
    fault_at m 0 = Some msg →
    r = Raise (sync_raised (PyMongoError msg) f) →
    calculations_collection (db s') = calculations_collection m →
    store_calls (db s') =
      store_calls m ++
        [StoreCall (CalcInsertOne (new_calculation request now)) (Some msg);
         StoreCall (EventInsertOne (error_doc (lit "unknown") (PyMongoError msg) now)) f] →
    events_collection (db s') =
      events_collection m ++
        journal_writes
          [StoreCall (EventInsertOne (error_doc (lit "unknown") (PyMongoError msg) now)) f] →
    sync_outcome request m now r s'
| sync_failed (e : exn) (pre : list store_call) (f : option string) :
    fault_at m 0 = None →
    sync_failure request m now e pre (calculations_collection (db s')) →
    r = Raise (sync_raised e f) →
    store_calls (db s') =
      store_calls m ++
        StoreCall (CalcInsertOne (new_calculation request now)) None
        :: pre ++ [StoreCall (EventInsertOne (error_doc (str_oid (next_oid m)) e now)) f] →
    events_collection (db s') =
      events_collection m ++
        journal_writes
          (pre ++ [StoreCall (EventInsertOne (error_doc (str_oid (next_oid m)) e now)) f]) →
    sync_outcome request m now r s'
| sync_returned :
    fault_at m 0 = None →
    fault_at m 1 = None →
    fault_at m 2 = None →
    fault_at m 3 = None →
    (∀ i, 1 ≤ i ≤ exponent request →
          math_pow (base request) i = Ret (pow_value (base request) i)) →
    r = Ret (response_of request (next_oid m) now) →
    calculations_collection (db s') =
      alter (completed_fields request now) (next_oid m)
        (<[next_oid m := new_calculation request now]> (calculations_collection m)) →
    store_calls (db s') =
      store_calls m ++
        [StoreCall (CalcInsertOne (new_calculation request now)) None;
         StoreCall (EventInsertOne (started_doc request (str_oid (next_oid m)) now)) None;
         StoreCall (update_op request (next_oid m) now) None;
         StoreCall (EventInsertOne (completed_doc (str_oid (next_oid m)) now)) None] →
    events_collection (db s') =
      events_collection m ++
        [started_doc request (str_oid (next_oid m)) now;
         completed_doc (str_oid (next_oid m)) now] →
    sync_outcome request m now r s'.

(** ** The statements about a run *)

(** Whether [math.pow] returns at every step of the request. *)
Definition powers_fit (request : CalculationRequest) : bool :=
  forallb (λ i, match math_pow (base request) i with
                | Ret _ => true
                | Raise _ => false
                end)
    (py_range 1 (exponent request + 1)).

(** The final state of the streamed run and of the synchronous call. *)
Definition stream_end (request : CalculationRequest) (m : mongo) (now : time)
  : state :=
  snd (snd (serve_stream request m now)).

Definition sync_end (request : CalculationRequest) (m : mongo) (now : time)
  : state :=
  snd (serve_calculate request m now).

(** The [step] chunks carry the indices 1 to E in this order, the last
    chunk is [complete], and its two totals are [base * exponent] and
    [math.pow(base, exponent)], the very values of the chunk of step E. *)
Definition steps_in_order (request : CalculationRequest) (s' : state) : Prop :=
  step_indices (yielded s') = py_range 1 (exponent request + 1)
  ∧ math_pow (base request) (exponent request)
    = Ret (pow_value (base request) (exponent request))
  ∧ ∃ (cid : pystr) (t0 tc tE : time),
      last (yielded s')
      = Some (complete_chunk cid
                (float_mul_int (base request) (exponent request))
                (pow_value (base request) (exponent request))
                (exponent request) t0 tc)
      ∧ step_chunk (base request) (exponent request)
          (float_mul_int (base request) (exponent request))
          (pow_value (base request) (exponent request)) tE
        ∈ yielded s'.

(** A store with no record, no event and no fault planned; the same with a
    fault plan. *)
Definition empty_store : mongo := Mongo ∅ [] 0%nat [] [].

Definition faulty_store (plan : list (option string)) : mongo :=
  Mongo ∅ [] 0%nat [] plan.

(** base 2, exponent 3; and base 1e200, exponent 2, whose square exceeds the
    range of a double. *)
Definition small_request : CalculationRequest := Request 2 3.

Definition overflowing_request : CalculationRequest :=
  Request 0x1.4e718d7d7625ap+664 2.

(** The two answers to a request that fails a check. *)
Definition base_error : string := "Base must be positive".

Definition exponent_error : string := "Exponent must be between 1 and 100".

(** A request that fails both checks: base -1, exponent 0. *)
Definition doubly_invalid_request : CalculationRequest := Request (-1) 0.

(** The type of the last chunk sent. *)
Definition last_kind (s : state) : option string :=
  chunk_kind <$> last (yielded s).

(** The records other than the one of the run are as they were. *)
Definition others_untouched (m : mongo) (s' : state) : Prop :=
  ∀ oid, oid ≠ next_oid m →
         calculations_collection (db s') !! oid = calculations_collection m !! oid.

(** The last call to the store is the journal write of [calculation_error]
    for the record of the run, with the message of [e]; the journal has the
    entry if the store accepted it. *)
Definition error_journaled (m : mongo) (s' : state) (e : exn) : Prop :=
  ∃ (t : time) (f : option string),
    last (calls_since m s')
    = Some (StoreCall (EventInsertOne (error_doc (str_oid (next_oid m)) e t)) f)
    ∧ (f = None →
       last (events_collection (db s')) = Some (error_doc (str_oid (next_oid m)) e t)).

(** A store whose journal refuses the first write of a run, the one of
    [calculation_started], after the record was created. *)
Definition journal_down_at_start : mongo :=
  faulty_store [None; Some "journal unavailable"].

(** The messages of the calls to [update_one] that raised. *)
Definition update_errors (cs : list store_call) : list string :=
  omap (λ c, match call_op c with
             | CalcUpdateOne _ _ _ _ _ _ => call_error c
             | _ => None
             end) cs.

(** The event types of the journal writes among the calls. *)
Definition event_types (cs : list store_call) : list string :=
  omap call_event_type cs.

(** Stores whose [update_one] raises: it is the ninth call of a streamed run
    with exponent 3 and a healthy journal, and the third of a synchronous
    call. *)
Definition update_down_stream : mongo :=
  faulty_store [None; None; None; None; None; None; None; None;
                Some "record store unavailable"].

Definition update_down_sync : mongo :=
  faulty_store [None; None; Some "record store unavailable"].

(** A store whose journal accepts the write of [calculation_started] and
    refuses the write of [linear_step] of each of three steps and the write
    of [calculation_completed]; the records are written without fault. *)
Definition journal_down_after_start : mongo :=
  faulty_store [None; None;
                Some "journal unavailable"; Some "journal unavailable";
                Some "journal unavailable";
                None; Some "journal unavailable"].

(** base 10, exponent 100; and the double nearest to 1e100. *)
Definition ten_to_hundred_request : CalculationRequest := Request 10 100.

Definition googol : float := 0x1.249ad2594c37dp+332.

(** * The retrieval endpoints *)

(** ** Comparing two [str] *)

(** [find] selects the documents whose [calculation_id] is the [str] asked
    for. Two [str] are compared piece by piece, formatted values as values;
    on the identifiers that this program writes, [str(ObjectId)] and the
    literal ["unknown"], this is the equality of their text. *)
#[global] Instance float_eq_dec : EqDecision float.
Proof.
  intros x y. destruct (PrimFloat.Leibniz.eqb x y) eqn:E; [left|right].
  - by apply FloatAxioms.Leibniz.eqb_spec.
  - intros H. apply FloatAxioms.Leibniz.eqb_spec in H. congruence.
Defined.

#[global] Instance frag_eq_dec : EqDecision frag.
Proof. solve_decision. Defined.

(** ** Cursors *)

(** A read of the store, [list(collection.find(...).sort(...).limit(...))]:
    it raises when the fault plan says so, and changes nothing in the two
    collections. *)
Definition store_read {A} (view : mongo → A) : M A :=
  fun s =>
    let m := db s in
    let m' := Mongo (calculations_collection m) (events_collection m) (next_oid m)
                (store_calls m) (tail (faults m)) in
    match faults m with
    | Some msg :: _ => (Raise (PyMongoError msg), set_db s m')
    | _ => (Ret (view m), set_db s m')
    end.

(** The values of [limit] that the driver hands to the server as they are:
    not negative, and within 32 bits. *)
Definition limit_ok (limit : Z) : Prop := 0 ≤ limit < 2 ^ 31.

(** [cursor.limit(n)]: no limit for 0, and the size of the one batch for a
    negative [n]. *)
Definition cursor_limit {A} (n : Z) (l : list A) : list A :=
  if n =? 0 then l else take (Z.to_nat (Z.abs n)) l.

(** The journal with the [_id] of each entry, taken to be its position in
    the collection. *)
Definition journal_entries (m : mongo) : list (ObjectId * event_document) :=
  imap (λ k d, (k, d)) (events_collection m).

(** The order of [sort("timestamp", 1)] and of [sort("timestamp", -1)]. *)
Definition not_after (a b : ObjectId * event_document) : Prop :=
  (ev_timestamp a.2 ≤ ev_timestamp b.2)%nat.

Definition not_before (a b : ObjectId * event_document) : Prop :=
  (ev_timestamp b.2 ≤ ev_timestamp a.2)%nat.

#[global] Instance not_after_dec : RelDecision not_after.
Proof. intros a b. unfold not_after. apply _. Defined.

#[global] Instance not_before_dec : RelDecision not_before.
Proof. intros a b. unfold not_before. apply _. Defined.

(** The order of [sort("started_at", -1)]. *)
Definition started_not_before (a b : ObjectId * calc_document) : Prop :=
  (doc_started_at b.2 ≤ doc_started_at a.2)%nat.

#[global] Instance started_not_before_dec : RelDecision started_not_before.
Proof. intros a b. unfold started_not_before. apply _. Defined.

(** ** [get_calculation_events] and [get_all_events] *)

(** The dict of a journal entry after the loop that turns [_id] into a [str]
    and [timestamp], which every entry has, into its ISO text. *)
Definition event_json (e : ObjectId * event_document) : json :=
  JObj [("_id", JStr (str_oid e.1));
        ("calculation_id", JStr (ev_calculation_id e.2));
        ("event_type", JStr (lit (ev_event_type e.2)));
        ("message", JStr (ev_message e.2));
        ("timestamp", JStr (isoformat (ev_timestamp e.2)));
        ("data", ev_data e.2)].

(** The dict [{"events": events, "count": len(events)}]. *)
Record EventsResult := MkEventsResult {
  events : list json;
  count : Z
}.

Definition events_result (found : list (ObjectId * event_document)) : EventsResult :=
  let events := event_json <$> found in
  MkEventsResult events (Z.of_nat (length events)).

(** The entries of the journal for [calculation_id], oldest first. *)
Definition find_calculation_events (calculation_id : pystr) (m : mongo)
  : list (ObjectId * event_document) :=
  merge_sort not_after
    (filter (λ e, ev_calculation_id e.2 = calculation_id) (journal_entries m)).

Definition get_calculation_events (calculation_id : pystr) : M EventsResult :=
  found <- store_read (find_calculation_events calculation_id) ;;
  ret (events_result found).

(** The [limit] most recent entries of the journal, most recent first. *)
Definition find_all_events (limit : Z) (m : mongo)
  : list (ObjectId * event_document) :=
  cursor_limit limit (merge_sort not_before (journal_entries m)).

Definition get_all_events (limit : Z) : M EventsResult :=
  found <- store_read (find_all_events limit) ;;
  ret (events_result found).

(** ** [get_calculations] *)

(** [value.isoformat()] under [if value:]: a falsy value is left as it is, a
    [datetime] becomes its ISO text, and any other value has no
    [isoformat]. *)
Definition isoformat_if_set (value : json) : option json :=
  if truthy value then
    match value with
    | JTime t => Some (JStr (isoformat t))
    | _ => None
    end
  else Some value.

(** The keys that [$set] added, for a document that has them. *)
Definition optional_field {A} (key : string) (to_json : A → json) (value : option A)
  : list (string * json) :=
  match value with
  | Some v => [(key, to_json v)]
  | None => []
  end.

(** The dict of a record after the loop of [get_calculations], or [None]
    where [completed_at.isoformat()] raises [AttributeError]. *)
Definition calc_json (c : ObjectId * calc_document) : option json :=
  completed_at ← isoformat_if_set (doc_completed_at c.2);
  Some (JObj ([("_id", JStr (str_oid c.1));
               ("base", JFloat (doc_base c.2));
               ("exponent", JInt (doc_exponent c.2));
               ("status", JStr (lit (doc_status c.2)));
               ("started_at", JStr (isoformat (doc_started_at c.2)));
               ("completed_at", completed_at)]
              ++ optional_field "linear_result" JFloat (doc_linear_result c.2)
              ++ optional_field "exponential_result" JFloat (doc_exponential_result c.2)
              ++ optional_field "total_steps" JInt (doc_total_steps c.2))).

(** The [limit] records started last, the last started first. *)
Definition find_calculations (limit : Z) (m : mongo)
  : list (ObjectId * calc_document) :=
  cursor_limit limit
    (merge_sort started_not_before (map_to_list (calculations_collection m))).

(** What a retrieval endpoint raises: an exception of the store, or the
    [AttributeError] of [isoformat] on a value that is no [datetime]. *)
Inductive fetch_exn :=
| StoreRaised (e : exn)
| AttributeError (attribute : string).

Inductive fetched (A : Type) :=
| Fetched (a : A)
| FetchRaised (e : fetch_exn).
Arguments Fetched {A} a.
Arguments FetchRaised {A} e.

(** The value of ["calculations"] in the dict that [get_calculations]
    returns. *)
Definition get_calculations (limit : Z) (s : state) : fetched (list json) * state :=
  match store_read (find_calculations limit) s with
  | (Raise e, s') => (FetchRaised (StoreRaised e), s')
  | (Ret calculations, s') =>
      (match mapM calc_json calculations with
       | Some dicts => Fetched dicts
       | None => FetchRaised (AttributeError "isoformat")
       end, s')
  end.

(** The records whose [completed_at] is [None] or a [datetime], as the two
    calculation endpoints write them. *)
Definition completed_at_ok (d : calc_document) : Prop :=
  doc_completed_at d = JNone ∨ ∃ t, doc_completed_at d = JTime t.

Definition records_ok (m : mongo) : Prop :=
  ∀ oid d, calculations_collection m !! oid = Some d → completed_at_ok d.

(** [d.get(key)] on a value that is a dict. *)
Definition dict_get (key : string) (v : json) : option json :=
  match v with
  | JObj fields => get_field key fields
  | _ => None
  end.

(** The entries of the journal of [m] for [calculation_id], with their
    [_id], in the order of the collection. *)
Definition entries_of (calculation_id : pystr) (m : mongo)
  : list (ObjectId * event_document) :=
  filter (λ e, ev_calculation_id e.2 = calculation_id) (journal_entries m).

(** The number of documents that [cursor.limit(n)] lets through, of [size]. *)
Definition limited_size (n : Z) (size : nat) : nat :=
  if n =? 0 then size else Nat.min (Z.to_nat (Z.abs n)) size.

(** What [get_calculations] makes of [completed_at]: [None] stays [None], a
    [datetime] becomes its ISO text. *)
Definition rendered_completed_at (d : calc_document) : json :=
  match doc_completed_at d with
  | JTime t => JStr (isoformat t)
  | v => v
  end.

(** The dict [j] renders the record [c] of the store [m]. *)
Definition renders (m : mongo) (c : ObjectId * calc_document) (j : json) : Prop :=
  calculations_collection m !! c.1 = Some c.2
  ∧ dict_get "_id" j = Some (JStr (str_oid c.1))
  ∧ dict_get "base" j = Some (JFloat (doc_base c.2))
  ∧ dict_get "exponent" j = Some (JInt (doc_exponent c.2))
  ∧ dict_get "status" j = Some (JStr (lit (doc_status c.2)))
  ∧ dict_get "started_at" j = Some (JStr (isoformat (doc_started_at c.2)))
  ∧ dict_get "completed_at" j = Some (rendered_completed_at c.2).

(** A store with one record, in progress, and an empty journal. *)
Definition one_record_store : mongo :=
  Mongo {[ 0%nat := new_calculation small_request 0%nat ]} [] 1%nat [] [].

(** * More on the two calculation endpoints *)

(** The step, the linear result and the exponential result that a [step]
    chunk carries. *)
Definition step_values (c : json) : option (Z * float * float) :=
  if String.eqb (chunk_kind c) "step" then
    match dict_get "step" c, dict_get "linear" c, dict_get "exponential" c with
    | Some (JInt i), Some linear, Some exponential =>
        match dict_get "result" linear, dict_get "result" exponential with
        | Some (JFloat x), Some (JFloat y) => Some (i, x, y)
        | _, _ => None
        end
    | _, _, _ => None
    end
  else None.

(** The same three values, of the two log entries of a step. *)
Definition log_values (linear exponential : StepLog) : Z * float * float :=
  (step linear, result linear, result exponential).

(** The record of a run as the final update leaves it. *)
Definition completed_record (request : CalculationRequest) (now tc : time)
  : calc_document :=
  completed_fields request tc (new_calculation request now).

(** The journal entries written since the store was [m] hold an entry of
    type [ty]. *)
Definition journaled (ty : string) (m : mongo) (s : state) : Prop :=
  ty ∈ ev_event_type <$> events_since m s.

(** A store whose first call raises. *)
Definition store_down : mongo := faulty_store [Some "store unavailable"].

(** A call for the record [oid], once it exists: an update of that record
    or a journal write under its identifier, and no insertion of a
    record. *)
Definition call_about (oid : ObjectId) (c : store_call) : Prop :=
  match call_op c with
  | CalcInsertOne _ => False
  | CalcUpdateOne o _ _ _ _ _ => o = oid
  | EventInsertOne d => ev_calculation_id d = str_oid oid
  end.

(** The journal entries written since the store was [m], with their [_id]. *)
Definition entries_since (m : mongo) (s : state) : list (ObjectId * event_document) :=
  imap (λ k d, (length (events_collection m) + k, d)%nat) (events_since m s).

(** * Failures of a run and the text of its numbers *)

(** ** The failure of a run *)

(** The failure that ends a streamed run whose record was created, read off
    the request and the fault plan: the exception of the first journal
    write, or the [OverflowError] of the first power that exceeds the
    range. The failures of the later calls to the store are caught inside
    the [try] body. *)
Definition stream_fault (request : CalculationRequest) (m : mongo) : option exn :=
  match fault_at m 1 with
  | Some msg => Some (PyMongoError msg)
  | None => if powers_fit request then None
            else Some (OverflowError "math range error")
  end.

(** The same for a synchronous call, where the update of the record and the
    last journal write are not guarded, with the number of calls that the
    store has received when the [except] clause is entered. *)
Definition sync_fault (request : CalculationRequest) (m : mongo)
  : option (exn * nat) :=
  match fault_at m 1 with
  | Some msg => Some (PyMongoError msg, 2%nat)
  | None =>
      if powers_fit request then
        match fault_at m 2 with
        | Some msg => Some (PyMongoError msg, 3%nat)
        | None =>
            match fault_at m 3 with
            | Some msg => Some (PyMongoError msg, 4%nat)
            | None => None
            end
        end
      else Some (OverflowError "math range error", 2%nat)
  end.

(** A store whose journal refuses every write of a failing run, after the
    record was created. *)
Definition journal_down : mongo :=
  faulty_store [None; Some "journal unavailable"; Some "journal unavailable"].

(** The [float] values of a payload. *)
Fixpoint json_floats (v : json) : list float :=
  match v with
  | JFloat x => [x]
  | JObj fields =>
      (fix go (fs : list (string * json)) : list float :=
         match fs with
         | [] => []
         | (_, v) :: fs => json_floats v ++ go fs
         end) fields
  | _ => []
  end.


(** ** Floats as text *)

(** The double nearest to [d * 10 ^ k], ties to even, with the sign [neg]:
    [float(text)] for the digits [d] and the decimal exponent [k]. *)
Definition float_of_decimal (neg : bool) (d k : Z) : float :=
  let signed n := if neg then - n else n in
  if d =? 0 then (if neg then neg_zero else zero)
  else if 0 <=? k then
    SF2Prim (binary_normalize prec emax (signed (d * 10 ^ k)) 0 false)
  else
    let den := 10 ^ (- k) in
    let sh := Z.max 0 (64 + Z.log2_up den - Z.log2 d) in
    let q := (d * 2 ^ sh) / den in
    let sticky := if (d * 2 ^ sh) mod den =? 0 then 0 else 1 in
    SF2Prim (binary_normalize prec emax (signed (2 * q + sticky)) (- sh - 1) false).

(** Whether [10 ^ d <= num / den]. *)
Definition pow10_le (d num den : Z) : bool :=
  if 0 <=? d then 10 ^ d * den <=? num else den <=? num * 10 ^ (- d).

Fixpoint log10_down (fuel : nat) (num den d : Z) : Z :=
  match fuel with
  | O => d
  | S fuel => if pow10_le d num den then d else log10_down fuel num den (d - 1)
  end.

Fixpoint log10_up (fuel : nat) (num den d : Z) : Z :=
  match fuel with
  | O => d
  | S fuel => if pow10_le (d + 1) num den then log10_up fuel num den (d + 1) else d
  end.

(** The largest [d] with [10 ^ d <= num / den], from an estimate that is off
    by one at most. *)
Definition floor_log10 (num den : Z) : Z :=
  let estimate := (Z.log2 num - Z.log2 den) * 1233 / 4096 in
  log10_up 3 num den (log10_down 3 num den estimate).

(** The two decimals of [n] digits next to [num / den], with the remainder
    that tells which is nearer. *)
Definition decimal_neighbours (num den n : Z) : Z * Z * Z * Z :=
  let k := floor_log10 num den - (n - 1) in
  let '(a, b) := if 0 <=? k then (num, den * 10 ^ k) else (num * 10 ^ (- k), den) in
  (a / b, k, a mod b, b).

Definition nearer (lo r b : Z) : Z :=
  if 2 * r <? b then lo
  else if b <? 2 * r then lo + 1
  else if Z.even lo then lo else lo + 1.

(** The decimal of [n] digits that reads back as [x], the nearer to [x] if
    there are two. *)
Definition decimal_candidate (x : float) (num den n : Z) : option (Z * Z) :=
  let '(lo, k, r, b) := decimal_neighbours num den n in
  let reads_back d := (float_of_decimal false d k =? x)%float in
  if r =? 0 then Some (lo, k)
  else match reads_back lo, reads_back (lo + 1) with
       | true, true => Some (nearer lo r b, k)
       | true, false => Some (lo, k)
       | false, true => Some (lo + 1, k)
       | false, false => None
       end.

(** The shortest decimal that reads back as [x]; 17 digits always do. *)
Fixpoint shortest_decimal (ns : list Z) (x : float) (num den : Z) : Z * Z :=
  match ns with
  | [] => let '(lo, k, r, b) := decimal_neighbours num den 17 in (nearer lo r b, k)
  | n :: ns =>
      match decimal_candidate x num den n with
      | Some found => found
      | None => shortest_decimal ns x num den
      end
  end.

Fixpoint strip_zeros (fuel : nat) (d k : Z) : Z * Z :=
  match fuel with
  | O => (d, k)
  | S fuel => if (0 <? d) && (d mod 10 =? 0) then strip_zeros fuel (d / 10) (k + 1)
              else (d, k)
  end.

Definition digit_char (d : Z) : Ascii.ascii := Ascii.ascii_of_nat (48 + Z.to_nat d).

Fixpoint digits_of (fuel : nat) (n : Z) (acc : string) : string :=
  match fuel with
  | O => acc
  | S fuel =>
      let acc := String (digit_char (n mod 10)) acc in
      if n <? 10 then acc else digits_of fuel (n / 10) acc
  end.

(** [str(n)] for [n >= 0]. *)
Definition str_nat (n : Z) : string := digits_of (S (Z.to_nat (Z.log2 n))) n "".

Fixpoint zeros (n : nat) : string :=
  match n with
  | O => ""
  | S n => String "0"%char (zeros n)
  end.

(** The exponent as [repr] writes it: a sign and two digits at least. *)
Definition exponent_text (e : Z) : string :=
  (if e <? 0 then "-" else "+") +:+ (if Z.abs e <? 10 then "0" else "")
  +:+ str_nat (Z.abs e).

(** The digits [ds] with the decimal point after [decpt] of them, as [repr]
    lays them out: with an exponent from 1e16 on and below 1e-4. *)
Definition format_repr (neg : bool) (ds : string) (decpt : Z) : string :=
  let n := Z.of_nat (String.length ds) in
  (if neg then "-" else "") +:+
  (if (decpt <=? -4) || (16 <? decpt) then
     match ds with
     | String c EmptyString => String c EmptyString
     | String c rest => String c ("." +:+ rest)
     | EmptyString => EmptyString
     end +:+ "e" +:+ exponent_text (decpt - 1)
   else if decpt <=? 0 then "0." +:+ zeros (Z.to_nat (- decpt)) +:+ ds
   else if n <=? decpt then ds +:+ zeros (Z.to_nat (decpt - n)) +:+ ".0"
   else String.substring 0 (Z.to_nat decpt) ds +:+ "."
        +:+ String.substring (Z.to_nat decpt) (Z.to_nat (n - decpt)) ds).

(** [repr(x)]: the shortest text that reads back as [x]. *)
Definition float_repr (x : float) : string :=
  match Prim2SF x with
  | S754_nan => "nan"
  | S754_infinity s => if s then "-inf" else "inf"
  | S754_zero s => if s then "-0.0" else "0.0"
  | S754_finite s m e =>
      let '(num, den) := if 0 <=? e then (Z.pos m * 2 ^ e, 1) else (Z.pos m, 2 ^ (- e)) in
      let '(d, k) := shortest_decimal (py_range 1 17) (abs x) num den in
      let '(d, k) := strip_zeros 17 d k in
      let ds := str_nat d in
      format_repr s ds (Z.of_nat (String.length ds) + k)
  end.

(** What [json.dumps] writes for a [float]. *)
Definition dumps_float (x : float) : string :=
  if is_nan x then "NaN"
  else if (x =? infinity)%float then "Infinity"
  else if (x =? neg_infinity)%float then "-Infinity"
  else float_repr x.

Definition digit_value (c : Ascii.ascii) : option Z :=
  let n := Z.of_nat (Ascii.nat_of_ascii c) in
  if (48 <=? n) && (n <=? 57) then Some (n - 48) else None.

(** The digits at the head of [s]: their value, their number, and the rest. *)
Fixpoint read_digits (s : string) (acc : Z) (count : Z) : Z * Z * string :=
  match s with
  | String c rest =>
      match digit_value c with
      | Some d => read_digits rest (10 * acc + d) (count + 1)
      | None => (acc, count, s)
      end
  | EmptyString => (acc, count, s)
  end.

(** What [json.loads] reads from a text that is one number: an [int] where
    there is neither a fraction nor an exponent, else the [float] of the
    text; and the three names that [json.dumps] writes for the values that
    are no numbers. *)
Definition loads_number (s : string) : option json :=
  if String.eqb s "NaN" then Some (JFloat nan)
  else if String.eqb s "Infinity" then Some (JFloat infinity)
  else if String.eqb s "-Infinity" then Some (JFloat neg_infinity)
  else
    let '(neg, s) := match s with
                     | String "-"%char rest => (true, rest)
                     | _ => (false, s)
                     end in
    let leading_zero := match s with
                        | String "0"%char (String c _) =>
                            match digit_value c with Some _ => true | None => false end
                        | _ => false
                        end in
    let '(int_part, int_count, s) := read_digits s 0 0 in
    if (int_count =? 0) || leading_zero then None
    else
      let '(frac, frac_count, s, has_frac) :=
        match s with
        | String "."%char rest =>
            let '(v, c, rest) := read_digits rest int_part 0 in (v, c, rest, true)
        | _ => (int_part, 0, s, false)
        end in
      if has_frac && (frac_count =? 0) then None
      else
        match s with
        | EmptyString =>
            if has_frac then Some (JFloat (float_of_decimal neg frac (- frac_count)))
            else Some (JInt (if neg then - int_part else int_part))
        | String c rest =>
            if (Ascii.eqb c "e"%char || Ascii.eqb c "E"%char)%bool then
              let '(eneg, rest) := match rest with
                                   | String "-"%char r => (true, r)
                                   | String "+"%char r => (false, r)
                                   | _ => (false, rest)
                                   end in
              let '(ev, ecount, rest) := read_digits rest 0 0 in
              if (ecount =? 0) || negb (String.eqb rest "") then None
              else Some (JFloat (float_of_decimal neg frac
                                   ((if eneg then - ev else ev) - frac_count)))
            else None
        end.

(** [x] is finite, and the text that [json.dumps] writes for it is read
    back by [json.loads] as [x]. *)
Definition round_trips (x : float) : Prop :=
  is_finite x = true ∧ loads_number (dumps_float x) = Some (JFloat x).

Definition round_trips_b (x : float) : bool :=
  is_finite x
  && match loads_number (dumps_float x) with
     | Some (JFloat y) => PrimFloat.Leibniz.eqb x y
     | _ => false
     end.
(** * Properties *)

(** ** The event-logging operation *)

Lemma truthy_not_None (v : json) : truthy v = true → v ≠ JNone.
Proof. by destruct v. Qed.

Lemma py_or_not_None (a b : json) : b ≠ JNone → py_or a b ≠ JNone.
Proof.
  intros Hb. unfold py_or. destruct (truthy a) eqn:Ha; [|done].
  by apply truthy_not_None.
Qed.

Lemma calls_since_app (m : mongo) (s : state) (cs : list store_call) :
  store_calls (db s) = store_calls m ++ cs → calls_since m s = cs.
Proof. intros E. unfold calls_since. rewrite E. apply drop_app_length. Qed.

Lemma events_since_app (m : mongo) (s : state) (ds : list event_document) :
  events_collection (db s) = events_collection m ++ ds → events_since m s = ds.
Proof. intros E. unfold events_since. rewrite E. apply drop_app_length. Qed.

(** What one call of [log_event] does: one call to the store, with the
    document built from the arguments and the clock; the journal grows by
    that document unless the store raises. *)
Lemma log_event_run (calculation_id : pystr) (event_type : string)
    (message : pystr) (data : json) (s : state) :
  let doc := EventDoc calculation_id event_type message (clock s)
               (py_or data (JObj [])) in
  let fault := fault_at (db s) 0 in
  log_event calculation_id event_type message data s =
    (match fault with Some msg => Raise (PyMongoError msg) | None => Ret tt end,
     State (Mongo (calculations_collection (db s))
              (events_collection (db s) ++
                 match fault with Some _ => [] | None => [doc] end)
              (next_oid (db s))
              (store_calls (db s) ++ [StoreCall (EventInsertOne doc) fault])
              (tail (faults (db s))))
       (clock s) (stdout s) (yielded s) (local_calculation_id s)).
Proof.
  destruct s as [[calcs evs oid calls fs] t out ys loc].
  unfold fault_at. destruct fs as [|[msg|] fs]; cbn; rewrite ?app_nil_r; reflexivity.
Qed.

(** C10: every document that [log_event] hands to the journal has a payload
    that is not [None]: the payload is the [data] argument when that is
    truthy and the empty dict otherwise, in particular when no payload is
    supplied; so a journal whose entries all have a payload still has that
    property after the call. *)
Theorem log_event_data_never_null :
  ∀ (calculation_id : pystr) (event_type : string) (message : pystr)
    (data : json) (s : state),
    let s' := snd (log_event calculation_id event_type message data s) in
    ∃ doc : event_document,
      calls_since (db s) s' = [StoreCall (EventInsertOne doc) (fault_at (db s) 0)]
      ∧ ev_data doc ≠ JNone
      ∧ ev_data doc = (if truthy data then data else JObj [])
      ∧ (data = JNone → ev_data doc = JObj [])
      ∧ (events_since (db s) s' = [doc] ∨ events_since (db s) s' = [])
      ∧ (Forall (λ d, ev_data d ≠ JNone) (events_collection (db s)) →
         Forall (λ d, ev_data d ≠ JNone) (events_collection (db s'))).
Proof.
  intros cid ty msg data s. cbv zeta. rewrite log_event_run. cbn [snd].
  eexists. split; [|split; [|split; [|split; [|split]]]].
  - by apply calls_since_app.
  - cbn. by apply py_or_not_None.
  - reflexivity.
  - intros ->. reflexivity.
  - destruct (fault_at (db s) 0).
    + right. apply events_since_app. cbn. reflexivity.
    + left. by apply events_since_app.
  - intros Hall. cbn. apply Forall_app. split; [done|].
    destruct (fault_at (db s) 0); [constructor|].
    constructor; [|constructor]. cbn. by apply py_or_not_None.
Qed.

Lemma journal_only_refl (s : state) : journal_only s s [].
Proof. split; cbn; rewrite ?app_nil_r; reflexivity. Qed.

Lemma journal_writes_app (cs1 cs2 : list store_call) :
  journal_writes (cs1 ++ cs2) = journal_writes cs1 ++ journal_writes cs2.
Proof. apply omap_app. Qed.

Lemma attempted_app (ty : string) (cs1 cs2 : list store_call) :
  attempted ty (cs1 ++ cs2) = attempted ty cs1 ++ attempted ty cs2.
Proof. apply omap_app. Qed.

Lemma stored_app (ty : string) (cs1 cs2 : list store_call) :
  stored ty (cs1 ++ cs2) = stored ty cs1 ++ stored ty cs2.
Proof. unfold stored. by rewrite filter_app, attempted_app. Qed.

Lemma journal_only_trans (s1 s2 s3 : state) (cs1 cs2 : list store_call) :
  journal_only s1 s2 cs1 → journal_only s2 s3 cs2 → journal_only s1 s3 (cs1 ++ cs2).
Proof.
  intros [] []. split; try congruence.
  - rewrite app_assoc. congruence.
  - rewrite journal_writes_app, app_assoc. congruence.
  - rewrite length_app, <- drop_drop. congruence.
Qed.


Lemma fault_at_tail (m : mongo) (calcs : gmap ObjectId calc_document)
    (evs : list event_document) (o : ObjectId) (cs : list store_call) (k : nat) :
  fault_at (Mongo calcs evs o cs (tail (faults m))) k = fault_at m (S k).
Proof. unfold fault_at. cbn. by destruct (faults m). Qed.

Lemma journal_writes_fail (op : store_op) (msg : string) (cs : list store_call) :
  journal_writes (StoreCall op (Some msg) :: cs) = journal_writes cs.
Proof. by destruct op. Qed.

Lemma journal_writes_ok (d : event_document) (cs : list store_call) :
  journal_writes (StoreCall (EventInsertOne d) None :: cs) = d :: journal_writes cs.
Proof. reflexivity. Qed.

Lemma journal_writes_update (oid : ObjectId) (st : string) (t : time)
    (x y : float) (n : Z) (f : option string) (cs : list store_call) :
  journal_writes (StoreCall (CalcUpdateOne oid st t x y n) f :: cs) = journal_writes cs.
Proof. reflexivity. Qed.

Lemma journal_writes_insert (d : calc_document) (f : option string)
    (cs : list store_call) :
  journal_writes (StoreCall (CalcInsertOne d) f :: cs) = journal_writes cs.
Proof. reflexivity. Qed.

Ltac journal_writes_tac :=
  cbn [db events_collection];
  rewrite ?journal_writes_update, ?journal_writes_insert, ?journal_writes_fail,
    ?journal_writes_ok, ?app_nil_r, <- ?app_assoc;
  reflexivity.

Lemma journal_writes_nil : journal_writes [] = [].
Proof. reflexivity. Qed.

Lemma drop_1_tail {A} (l : list A) : tail l = drop 1 l.
Proof. by destruct l. Qed.


Ltac journal_only_tac :=
  split;
  cbn [db clock stdout yielded local_calculation_id calculations_collection
       events_collection next_oid store_calls faults length];
  [ reflexivity | reflexivity | reflexivity
  | rewrite <- ?app_assoc; reflexivity
  | rewrite ?journal_writes_fail, ?journal_writes_ok, ?journal_writes_nil,
      ?app_nil_r, <- ?app_assoc; reflexivity
  | rewrite ?drop_1_tail, ?drop_drop; reflexivity ].

(** One turn of the loop of the generator. Where [math.pow] raises, nothing
    was sent or written for the step. Where it returns, the [step] chunk is
    sent, then the [linear_step] write is initiated, then the
    [exponential_step] write unless the first raised; the turn returns
    either way. *)
Lemma stream_step_raise (request : CalculationRequest) (cid : pystr) (i : Z)
    (s : state) (e : exn) :
  math_pow (base request) i = Raise e →
  stream_step request cid i s = (Raise e, s).
Proof. intros H. unfold stream_step, bind, lift. by rewrite H. Qed.

Lemma stream_step_ret (request : CalculationRequest) (cid : pystr) (i : Z)
    (s : state) (v : float) :
  math_pow (base request) i = Ret v →
  ∃ (s' : state) (cs : list store_call),
    stream_step request cid i s = (Ret tt, s')
    ∧ yielded s' = yielded s ++ [step_chunk_of request i (clock s)]
    ∧ journal_only s s' cs
    ∧ Forall step_call cs
    ∧ attempted "linear_step" cs = [i]
    ∧ attempted "exponential_step" cs = stored "linear_step" cs.
Proof.
  intros H. unfold step_chunk_of, pow_value. rewrite H.
  unfold stream_step, bind, try_except, lift, utcnow, yield_data.
  rewrite H. cbv beta iota. rewrite log_event_run. cbv zeta.
  cbn [db clock stdout yielded local_calculation_id].
  destruct (fault_at (db s) 0) as [msg1|] eqn:F1.
  - eexists _, [_].
    cbn [print asyncio_sleep ret yielded db clock stdout local_calculation_id].
    split; [reflexivity|]. split; [reflexivity|]. split; [|split; [|split]].
    + journal_only_tac.
    + constructor; [by left|constructor].
    + reflexivity.
    + reflexivity.
  - rewrite log_event_run. cbv zeta.
    cbn [db clock stdout yielded local_calculation_id]. rewrite fault_at_tail.
    destruct (fault_at (db s) 1) as [msg2|] eqn:F2.
    + eexists _, [_; _].
      cbn [print asyncio_sleep ret yielded db clock stdout local_calculation_id].
      split; [reflexivity|]. split; [reflexivity|]. split; [|split; [|split]].
      * journal_only_tac.
      * constructor; [by left|constructor; [by right|constructor]].
      * reflexivity.
      * reflexivity.
    + eexists _, [_; _].
      cbn [print asyncio_sleep ret yielded db clock stdout local_calculation_id].
      split; [reflexivity|]. split; [reflexivity|]. split; [|split; [|split]].
      * journal_only_tac.
      * constructor; [by left|constructor; [by right|constructor]].
      * reflexivity.
      * reflexivity.
Qed.

(** The generator and the synchronous endpoint are the compositions of their
    blocks. *)
Lemma generate_calculation_events_blocks (request : CalculationRequest) :
  generate_calculation_events request =
  try_except
    (if (base request <=? 0)%float then
       yield_data (error_chunk "Base must be positive")
     else if (exponent request <=? 0) || (100 <? exponent request) then
       yield_data (error_chunk "Exponent must be between 1 and 100")
     else stream_main request)
    stream_except.
Proof. reflexivity. Qed.

Lemma calculate_growth_blocks (request : CalculationRequest) :
  calculate_growth request =
  try_except
    (if (base request <=? 0)%float then
       raise (HTTPException 400 (lit "Base must be positive"))
     else if (exponent request <=? 0) || (100 <? exponent request) then
       raise (HTTPException 400 (lit "Exponent must be between 1 and 100"))
     else sync_main request)
    (fun e => match e with
              | HTTPException _ _ => raise e
              | _ => sync_except e
              end).
Proof. reflexivity. Qed.

(** The loop of the generator over any list of indices: the turns before the
    first index at which [math.pow] raises each send their chunk and
    initiate their journal writes, in order; the loop raises there, and
    returns if there is no such index. *)
Lemma stream_loop (request : CalculationRequest) (cid : pystr) (l : list Z) :
  ∀ s : state,
  ∃ (r : res unit) (s' : state) (l1 : list Z) (ts : list time)
    (cs : list store_call),
    for_each l (stream_step request cid) s = (r, s')
    ∧ yielded s' = yielded s ++ zip_with (step_chunk_of request) l1 ts
    ∧ length ts = length l1
    ∧ journal_only s s' cs
    ∧ Forall step_call cs
    ∧ attempted "linear_step" cs = l1
    ∧ attempted "exponential_step" cs = stored "linear_step" cs
    ∧ (∀ i, i ∈ l1 → math_pow (base request) i = Ret (pow_value (base request) i))
    ∧ match r with
      | Ret _ => l1 = l
      | Raise e => ∃ i l2, l = l1 ++ i :: l2 ∧ math_pow (base request) i = Raise e
      end.
Proof.
  induction l as [|i l IH]; intros s.
  - exists (Ret tt), s, [], [], []. cbn [for_each ret zip_with length].
    rewrite app_nil_r. split_and!; try done.
    + apply journal_only_refl.
    + intros i Hi. by apply elem_of_nil in Hi.
  - cbn [for_each]. unfold bind at 1.
    destruct (math_pow (base request) i) as [v|e] eqn:Hpow.
    + destruct (stream_step_ret request cid i s v Hpow)
        as (s1 & cs1 & Hrun & Hy1 & Hj1 & Hc1 & Hl1 & He1).
      rewrite Hrun.
      destruct (IH s1) as (r & s' & l1 & ts & cs & Hloop & Hy & Hlen & Hj & Hc & Hl & He & Hp & Hr).
      exists r, s', (i :: l1), (clock s :: ts), (cs1 ++ cs).
      split; [exact Hloop|]. split.
      { rewrite Hy, Hy1, <- app_assoc. reflexivity. }
      split; [cbn; by rewrite Hlen|].
      split; [by eapply journal_only_trans|].
      split; [by apply Forall_app|].
      split; [by rewrite attempted_app, Hl1, Hl|].
      split; [by rewrite attempted_app, stored_app, He1, He|].
      split.
      { intros j Hj'. apply elem_of_cons in Hj' as [->|Hj'].
        - unfold pow_value. by rewrite Hpow.
        - by apply Hp. }
      destruct r as [[]|e].
      * by rewrite Hr.
      * destruct Hr as (j & l2 & -> & Hj'). by exists j, l2.
    + rewrite (stream_step_raise request cid i s e Hpow).
      exists (Raise e), s, [], [], []. cbn [zip_with length].
      rewrite app_nil_r. split_and!; try done.
      * apply journal_only_refl.
      * intros j Hj. by apply elem_of_nil in Hj.
      * by exists i, l.
Qed.

Ltac run_cbn :=
  cbv beta iota zeta delta
    [bind try_except lift ret raise utcnow yield_data print asyncio_sleep
     bind_calculation_id locals_calculation_id fresh set_db];
  cbn [db clock stdout yielded local_calculation_id
       calculations_collection events_collection next_oid store_calls faults
       fst snd].

(** A call to the store, by the head of the fault plan. *)
Lemma store_run (op : store_op) (effect : mongo → mongo) (s : state) :
  store op effect s =
  match fault_at (db s) 0 with
  | Some msg =>
      (Raise (PyMongoError msg),
       set_db s (Mongo (calculations_collection (db s)) (events_collection (db s))
                   (next_oid (db s))
                   (store_calls (db s) ++ [StoreCall op (Some msg)])
                   (tail (faults (db s)))))
  | None =>
      (Ret tt,
       set_db s (Mongo (calculations_collection (effect (db s)))
                   (events_collection (effect (db s)))
                   (next_oid (effect (db s)))
                   (store_calls (db s) ++ [StoreCall op None])
                   (tail (faults (db s)))))
  end.
Proof.
  unfold store, mongo_call, fault_at.
  destruct (faults (db s)) as [|[msg|] fs]; reflexivity.
Qed.

Lemma py_or_obj (k : string) (v : json) (fields : list (string * json)) (b : json) :
  py_or (JObj ((k, v) :: fields)) b = JObj ((k, v) :: fields).
Proof. reflexivity. Qed.

(** The end of the [try] body of the generator. *)
Lemma stream_finish_ret (request : CalculationRequest) (oid : ObjectId)
    (t0 : time) (s : state) (v : float) :
  math_pow (base request) (exponent request) = Ret v →
  ∃ (s' : state) (fin : list store_call),
    stream_finish request (str_oid oid) t0 s = (Ret tt, s')
    ∧ yielded s' = yielded s ++
        [complete_chunk (str_oid oid)
           (float_mul_int (base request) (exponent request))
           (pow_value (base request) (exponent request))
           (exponent request) t0 (clock s)]
    ∧ store_calls (db s') = store_calls (db s) ++ fin
    ∧ events_collection (db s') = events_collection (db s) ++ journal_writes fin
    ∧ next_oid (db s') = next_oid (db s)
    ∧ local_calculation_id s' = local_calculation_id s
    ∧ finish_calls request oid (clock s) (calculations_collection (db s))
        (calculations_collection (db s')) (stdout s) (stdout s') fin.
Proof.
  intros H.
  assert (Hv : pow_value (base request) (exponent request) = v)
    by (unfold pow_value; by rewrite H).
  unfold stream_finish, bind, try_except, lift, utcnow, calculations_update_one.
  rewrite H, Hv. cbv beta iota. cbn [ObjectId_of_str str_oid]. rewrite store_run.
  cbn [db clock stdout yielded local_calculation_id set_db].
  destruct (fault_at (db s) 0) as [msg1|] eqn:F1.
  - eexists _, _. cbn [print yield_data ret db clock stdout yielded local_calculation_id].
    split; [reflexivity|]. split; [reflexivity|].
    split; [reflexivity|]. split; [by rewrite journal_writes_fail, app_nil_r|].
    split; [reflexivity|]. split; [reflexivity|].
    eapply update_failed;
      [unfold update_op; rewrite Hv; reflexivity|reflexivity|reflexivity].
  - rewrite log_event_run. cbv zeta.
    cbn [db clock stdout yielded local_calculation_id calculations_collection
         events_collection next_oid store_calls faults set_db].
    rewrite fault_at_tail.
    change (py_or JNone (JObj [])) with (JObj []).
    destruct (fault_at (db s) 1) as [msg2|] eqn:F2.
    + eexists _, _. cbn [print yield_data ret db clock stdout yielded local_calculation_id
                           calculations_collection events_collection next_oid store_calls].
      split; [reflexivity|]. split; [reflexivity|].
      split; [by rewrite <- app_assoc|]. split; [journal_writes_tac|].
      split; [reflexivity|]. split; [reflexivity|].
      eapply completed_not_journaled;
        [unfold update_op; rewrite Hv; reflexivity
        |unfold completed_fields; rewrite Hv; reflexivity
        |reflexivity].
    + eexists _, _. cbn [print yield_data ret db clock stdout yielded local_calculation_id
                           calculations_collection events_collection next_oid store_calls].
      split; [reflexivity|]. split; [reflexivity|].
      split; [by rewrite <- app_assoc|]. split; [journal_writes_tac|].
      split; [reflexivity|]. split; [reflexivity|].
      eapply completed_journaled;
        [unfold update_op; rewrite Hv; reflexivity
        |unfold completed_fields; rewrite Hv; reflexivity
        |reflexivity].
Qed.

(** The [except] clause of the generator: the [error] chunk is sent, then,
    if [calculation_id] is bound, one journal write is initiated, whose
    failure is dropped; the clause returns. *)
Lemma stream_except_run (e : exn) (s : state) :
  ∃ s' : state,
    stream_except e s = (Ret tt, s')
    ∧ yielded s' = yielded s ++ [failure_chunk e]
    ∧ match local_calculation_id s with
      | Some cid =>
          journal_only s s'
            [StoreCall (EventInsertOne (error_doc cid e (clock s)))
               (fault_at (db s) 0)]
      | None => db s' = db s
      end.
Proof.
  unfold stream_except, bind, yield_data, locals_calculation_id.
  cbn [local_calculation_id].
  destruct (local_calculation_id s) as [cid|] eqn:Hloc.
  - unfold try_except. rewrite log_event_run. cbv zeta.
    cbn [db clock stdout yielded local_calculation_id].
    unfold error_data at 1. rewrite py_or_obj. fold (error_data e).
    fold (error_doc cid e (clock s)).
    destruct (fault_at (db s) 0) as [msg|] eqn:F.
    + eexists. split; [reflexivity|]. split; [reflexivity|].
      split; cbn [db clock stdout yielded local_calculation_id calculations_collection
                     events_collection next_oid store_calls faults length ret];
        rewrite ?journal_writes_fail, ?journal_writes_nil, ?drop_1_tail; try done.
    + eexists. split; [reflexivity|]. split; [reflexivity|].
      split; cbn [db clock stdout yielded local_calculation_id calculations_collection
                     events_collection next_oid store_calls faults length ret];
        rewrite ?journal_writes_ok, ?journal_writes_nil, ?drop_1_tail; try done.
  - eexists. split; [reflexivity|]. split; reflexivity.
Qed.

Lemma elem_of_py_range (a b i : Z) : i ∈ py_range a b ↔ a ≤ i < b.
Proof.
  unfold py_range. rewrite list_elem_of_fmap. split.
  - intros (k & -> & Hk). apply elem_of_seq in Hk. lia.
  - intros Hi. exists (Z.to_nat (i - a)). split; [lia|].
    apply elem_of_seq. lia.
Qed.

(** The [try] body of the generator from a fresh frame, up to the loop. *)
Lemma stream_main_run (request : CalculationRequest) (m : mongo) (now : time) :
  let oid := next_oid m in
  let cid := str_oid oid in
  let doc0 := new_calculation request now in
  let ins f := StoreCall (CalcInsertOne doc0) f in
  let started f := StoreCall (EventInsertOne (started_doc request cid now)) f in
  stream_main request (fresh m now) =
  match fault_at m 0 with
  | Some msg =>
      (Raise (PyMongoError msg),
       State (Mongo (calculations_collection m) (events_collection m) oid
                (store_calls m ++ [ins (Some msg)]) (tail (faults m)))
         now [] [] None)
  | None =>
      match fault_at m 1 with
      | Some msg =>
          (Raise (PyMongoError msg),
           State (Mongo (<[oid := doc0]> (calculations_collection m))
                    (events_collection m) (S oid)
                    ((store_calls m ++ [ins None]) ++ [started (Some msg)])
                    (tail (tail (faults m))))
             now [] [start_chunk cid request] (Some cid))
      | None =>
          match for_each (py_range 1 (exponent request + 1))
                  (stream_step request cid)
                  (State (Mongo (<[oid := doc0]> (calculations_collection m))
                            (events_collection m ++ [started_doc request cid now])
                            (S oid)
                            ((store_calls m ++ [ins None]) ++ [started None])
                            (tail (tail (faults m))))
                     (now + 100)%nat [] [start_chunk cid request] (Some cid))
          with
          | (Ret _, s3) => stream_finish request cid now s3
          | (Raise e, s3) => (Raise e, s3)
          end
      end
  end.
Proof.
  cbv zeta.
  unfold stream_main, calculations_insert_one.
  run_cbn. rewrite store_run. run_cbn.
  destruct (fault_at m 0) as [msg|] eqn:F0; [reflexivity|].
  rewrite log_event_run. cbv zeta. run_cbn.
  rewrite fault_at_tail. unfold started_data at 1. rewrite py_or_obj.
  fold (started_data request).
  destruct (fault_at m 1) as [msg|] eqn:F1.
  - rewrite app_nil_r. reflexivity.
  - reflexivity.
Qed.

Lemma valid_exponent_test (request : CalculationRequest) :
  1 ≤ exponent request ≤ 100 →
  (exponent request <=? 0) || (100 <? exponent request) = false.
Proof. intros H. apply orb_false_intro; [apply Z.leb_gt|apply Z.ltb_ge]; lia. Qed.

(** Every run of the generator for a request that passed both checks
    returns, and ends in one of the three ways of [stream_outcome]. *)
Lemma stream_run (request : CalculationRequest) (m : mongo) (now : time) :
  valid request →
  ∃ s' : state,
    generate_calculation_events request (fresh m now) = (Ret tt, s')
    ∧ stream_outcome request m now s'.
Proof.
  intros [Hb He]. rewrite generate_calculation_events_blocks.
  unfold try_except at 1. rewrite Hb, (valid_exponent_test request He).
  rewrite stream_main_run. cbv zeta.
  destruct (fault_at m 0) as [msg0|] eqn:F0.
  { (* the record could not be created *)
    match goal with |- context [stream_except ?e ?s] =>
      destruct (stream_except_run e s) as (s' & Hrun & Hy & Hdb) end.
    rewrite Hrun. exists s'. split; [reflexivity|].
    cbn [local_calculation_id yielded] in Hy, Hdb.
    eapply stream_no_record; [exact F0|exact Hy|by rewrite Hdb..]. }
  destruct (fault_at m 1) as [msg1|] eqn:F1.
  { (* the record exists, the first journal write raised *)
    match goal with |- context [stream_except ?e ?s] =>
      destruct (stream_except_run e s) as (s' & Hrun & Hy & Hjo) end.
    rewrite Hrun. exists s'. split; [reflexivity|].
    cbn [local_calculation_id yielded clock db] in Hy, Hjo.
    destruct Hjo as [Hrec _ _ Hcalls Hev _].
    cbn [db calculations_collection store_calls events_collection] in Hrec, Hcalls, Hev.
    eapply (stream_failed request m now s' (PyMongoError msg1) [] [] []);
      [exact F0|exact F1|exact Hy|reflexivity| |left; by exists msg1
      |constructor|reflexivity|reflexivity|exact Hrec| |].
    - intros i Hi. by apply elem_of_nil in Hi.
    - rewrite Hcalls, <- !app_assoc. reflexivity.
    - rewrite Hev. rewrite journal_writes_fail. reflexivity. }
  (* the loop *)
  match goal with |- context [for_each ?l ?body ?s] =>
    destruct (stream_loop request (str_oid (next_oid m)) l s)
      as (r & s3 & l1 & ts & cs & Hloop & Hy3 & Hlen & Hjo3 & Hsc & Hlin & Hexp & Hpow & Hr)
  end.
  rewrite Hloop.
  destruct Hjo3 as [Hrec3 Hoid3 Hloc3 Hcalls3 Hev3 _].
  cbn [db calculations_collection store_calls events_collection next_oid
       local_calculation_id yielded] in Hrec3, Hoid3, Hloc3, Hcalls3, Hev3, Hy3.
  destruct r as [[]|e].
  - (* the loop returned *)
    rewrite Hr in Hy3, Hlen, Hlin. setoid_rewrite Hr in Hpow. clear Hr.
    assert (HE : math_pow (base request) (exponent request)
                 = Ret (pow_value (base request) (exponent request))).
    { apply Hpow, elem_of_py_range. lia. }
    destruct (stream_finish_ret request (next_oid m) now s3 _ HE)
      as (s' & fin & Hrun & Hy & Hcalls & Hev & Hoid & Hloc & Hfin).
    unfold try_except. rewrite Hrun. exists s'. split; [reflexivity|].
    eapply (stream_completed request m now s' ts cs fin (clock s3) (stdout s3));
      [exact F0|exact F1| | |exact Hlen|exact Hsc|exact Hlin|exact Hexp| | |].
    + intros i Hi. apply Hpow, elem_of_py_range. lia.
    + rewrite Hy, Hy3. reflexivity.
    + by rewrite <- Hrec3.
    + rewrite Hcalls, Hcalls3, <- !app_assoc. reflexivity.
    + rewrite Hev, Hev3, <- !app_assoc. reflexivity.
  - (* the loop raised *)
    unfold try_except.
    destruct (stream_except_run e s3) as (s' & Hrun & Hy & Hjo).
    rewrite Hrun. exists s'. split; [reflexivity|].
    rewrite Hloc3 in Hjo.
    destruct Hjo as [Hrec _ _ Hcalls Hev _].
    eapply (stream_failed request m now s' e l1 ts cs (clock s3) None);
      [exact F0|exact F1| |exact Hlen|exact Hpow|right; by split
      |exact Hsc|exact Hlin|exact Hexp| | |].
    + rewrite Hy, Hy3. reflexivity.
    + by rewrite Hrec, Hrec3.
    + rewrite Hcalls, Hcalls3, <- !app_assoc. reflexivity.
    + rewrite Hev, Hev3, journal_writes_ok, journal_writes_app, <- !app_assoc.
      reflexivity.
Qed.

(** ** The synchronous endpoint *)

(** The loop of [calculate_growth] calls neither the store nor the journal:
    it leaves the state as it was, and returns the two lists of logs unless
    [math.pow] raises at one of the indices. *)
Lemma sync_loop (request : CalculationRequest) (l : list Z) :
  ∀ (acc : list StepLog * list StepLog) (s : state),
  ∃ r : res (list StepLog * list StepLog),
    for_fold l acc (sync_step request) s = (r, s)
    ∧ match r with
      | Ret logs =>
          logs = (fst acc ++ (linear_log request (clock s) <$> l),
                  snd acc ++ (exponential_log request (clock s) <$> l))
          ∧ ∀ i, i ∈ l → math_pow (base request) i = Ret (pow_value (base request) i)
      | Raise e => ∃ i, i ∈ l ∧ math_pow (base request) i = Raise e
      end.
Proof.
  induction l as [|i l IH]; intros [lin exp] s.
  - exists (Ret (lin, exp)). cbn. rewrite !app_nil_r. split_and!; try done.
    intros i Hi. by apply elem_of_nil in Hi.
  - cbn [for_fold]. unfold bind at 1, sync_step at 1. run_cbn.
    destruct (math_pow (base request) i) as [v|e] eqn:Hpow.
    + destruct (IH (lin ++ [linear_log request (clock s) i],
                    exp ++ [exponential_log request (clock s) i]) s)
        as (r & Hrun & Hr).
      assert (Hv : pow_value (base request) i = v)
        by (unfold pow_value; by rewrite Hpow).
      exists r. split; [rewrite <- Hv; exact Hrun|].
      destruct r as [logs|e].
      * destruct Hr as [-> Hall]. cbn [fst snd fmap list_fmap].
        rewrite <- !app_assoc. split; [reflexivity|].
        intros j Hj. apply elem_of_cons in Hj as [->|Hj]; [congruence|by apply Hall].
      * destruct Hr as (j & Hj & Hraise). exists j. split; [by right|done].
    + exists (Raise e). split; [reflexivity|]. exists i. split; [by left|done].
Qed.

Lemma fault_at_tail2 (m : mongo) (calcs : gmap ObjectId calc_document)
    (evs : list event_document) (o : ObjectId) (cs : list store_call) (k : nat) :
  fault_at (Mongo calcs evs o cs (tail (tail (faults m)))) k = fault_at m (S (S k)).
Proof. unfold fault_at. cbn [faults]. by rewrite !lookup_tail. Qed.

Lemma fault_at_tail3 (m : mongo) (calcs : gmap ObjectId calc_document)
    (evs : list event_document) (o : ObjectId) (cs : list store_call) (k : nat) :
  fault_at (Mongo calcs evs o cs (tail (tail (tail (faults m))))) k
  = fault_at m (S (S (S k))).
Proof. unfold fault_at. cbn [faults]. by rewrite !lookup_tail. Qed.

Lemma fault_at_tail4 (m : mongo) (calcs : gmap ObjectId calc_document)
    (evs : list event_document) (o : ObjectId) (cs : list store_call) (k : nat) :
  fault_at (Mongo calcs evs o cs (tail (tail (tail (tail (faults m)))))) k
  = fault_at m (S (S (S (S k)))).
Proof. unfold fault_at. cbn [faults]. by rewrite !lookup_tail. Qed.

(** [math.pow] raises nothing but [ValueError] and [OverflowError]. *)
Lemma math_pow_raises (x : float) (y : Z) (e : exn) :
  math_pow x y = Raise e →
  e = ValueError "math domain error" ∨ e = OverflowError "math range error".
Proof.
  unfold math_pow.
  destruct (is_nan x); [discriminate|].
  destruct (is_infinity x); [discriminate|].
  destruct (is_nan (c_pow x y)); [intros [= <-]; by left|].
  destruct (is_infinity (c_pow x y)); [|discriminate].
  destruct (is_zero x); intros [= <-]; [by left|by right].
Qed.

(** The clause [except Exception as e] of [calculate_growth]: one journal
    write, for the bound [calculation_id] or for ["unknown"], then the
    [HTTPException] with status 500, unless the write itself raises. *)
Lemma sync_except_run (e : exn) (s : state) :
  let cid := match local_calculation_id s with
             | Some c => c
             | None => lit "unknown"
             end in
  let f := fault_at (db s) 0 in
  let call := StoreCall (EventInsertOne (error_doc cid e (clock s))) f in
  sync_except e s =
  (Raise (sync_raised e f),
   State (Mongo (calculations_collection (db s))
            (events_collection (db s) ++ journal_writes [call])
            (next_oid (db s)) (store_calls (db s) ++ [call])
            (tail (faults (db s))))
     (clock s) (stdout s) (yielded s) (local_calculation_id s)).
Proof.
  cbv zeta. unfold sync_except. run_cbn. rewrite log_event_run. cbv zeta.
  unfold error_data at 1. rewrite py_or_obj. fold (error_data e).
  unfold error_doc.
  destruct (fault_at (db s) 0) as [msg|]; reflexivity.
Qed.

Ltac events_tac :=
  run_cbn; cbn [app];
  rewrite ?journal_writes_ok, ?journal_writes_fail, ?journal_writes_update,
    ?journal_writes_insert, ?app_nil_r, <- ?app_assoc;
  reflexivity.

(** Every call of [calculate_growth] for a request that passed both checks
    ends in one of the three ways of [sync_outcome]. *)
Lemma sync_run (request : CalculationRequest) (m : mongo) (now : time) :
  valid request →
  ∃ (r : res CalculationResponse) (s' : state),
    calculate_growth request (fresh m now) = (r, s')
    ∧ sync_outcome request m now r s'.
Proof.
  intros [Hb He]. rewrite calculate_growth_blocks.
  unfold try_except at 1. rewrite Hb, (valid_exponent_test request He).
  unfold sync_main, calculations_insert_one. run_cbn. rewrite store_run. run_cbn.
  destruct (fault_at m 0) as [msg0|] eqn:F0.
  { rewrite sync_except_run. cbv zeta. run_cbn. rewrite fault_at_tail.
    eexists _, _. split; [reflexivity|].
    eapply (sync_no_record request m now _ _ msg0 (fault_at m 1));
      [exact F0|reflexivity|reflexivity|events_tac|reflexivity]. }
  rewrite log_event_run. cbv zeta. run_cbn. rewrite fault_at_tail.
  unfold started_data at 1. rewrite py_or_obj. fold (started_data request).
  fold (started_doc request (str_oid (next_oid m)) now).
  destruct (fault_at m 1) as [msg1|] eqn:F1.
  { rewrite sync_except_run. cbv zeta. run_cbn. rewrite fault_at_tail2.
    eexists _, _. split; [reflexivity|].
    eapply (sync_failed request m now _ _ (PyMongoError msg1) [_] (fault_at m 2));
      [exact F0|by eapply started_write_failed|reflexivity
      |events_tac
      |events_tac]. }
  match goal with |- context [for_fold ?l ?acc ?body ?s] =>
    destruct (sync_loop request l acc s) as (r & Hloop & Hr)
  end.
  rewrite Hloop. cbn [clock fst snd app] in Hr.
  destruct r as [logs|e].
  2:{ destruct Hr as (i & Hi & Hraise). apply elem_of_py_range in Hi.
      destruct (math_pow_raises _ _ _ Hraise) as [->| ->].
      all: rewrite sync_except_run; cbv zeta; run_cbn; rewrite fault_at_tail2.
      all: eexists _, _; (split; [reflexivity|]).
      all: eapply (sync_failed request m now _ _ _ [_] (fault_at m 2));
        [exact F0|eapply (power_raised _ _ _ _ _ _ i); first [done|lia]|reflexivity
        |events_tac
        |events_tac]. }
  destruct Hr as [-> Hpow].
  assert (HE : math_pow (base request) (exponent request)
               = Ret (pow_value (base request) (exponent request))).
  { apply Hpow, elem_of_py_range. lia. }
  rewrite HE. unfold calculations_update_one. run_cbn.
  cbn [ObjectId_of_str str_oid]. run_cbn. rewrite store_run. run_cbn.
  rewrite fault_at_tail2.
  fold (update_op request (next_oid m) now).
  destruct (fault_at m 2) as [msg2|] eqn:F2.
  { rewrite sync_except_run. cbv zeta. run_cbn. rewrite fault_at_tail3.
    eexists _, _. split; [reflexivity|].
    eapply (sync_failed request m now _ _ (PyMongoError msg2) [_; _] (fault_at m 3));
      [exact F0|by eapply update_raised|reflexivity
      |events_tac
      |events_tac]. }
  rewrite log_event_run. cbv zeta. run_cbn. rewrite fault_at_tail3.
  change (py_or JNone (JObj [])) with (JObj []).
  fold (completed_doc (str_oid (next_oid m)) now).
  destruct (fault_at m 3) as [msg3|] eqn:F3.
  { rewrite sync_except_run. cbv zeta. run_cbn. rewrite fault_at_tail4.
    eexists _, _. split; [reflexivity|].
    eapply (sync_failed request m now _ _ (PyMongoError msg3) [_; _; _] (fault_at m 4));
      [exact F0|by eapply completed_write_failed|reflexivity
      |events_tac
      |events_tac]. }
  eexists _, _. split; [reflexivity|].
  eapply sync_returned; try done.
  - intros i Hi. apply Hpow, elem_of_py_range. lia.
  - events_tac.
  - events_tac.
Qed.

(** ** The streamed endpoint *)

Lemma serve_stream_run (request : CalculationRequest) (m : mongo) (now : time) :
  serve_stream request m now
  = (200, generate_calculation_events request (fresh m now)).
Proof. reflexivity. Qed.

Lemma powers_fit_spec (request : CalculationRequest) :
  powers_fit request = true ↔
  ∀ i, 1 ≤ i ≤ exponent request →
       math_pow (base request) i = Ret (pow_value (base request) i).
Proof.
  unfold powers_fit. rewrite forallb_forall. split.
  - intros H i Hi. specialize (H i). unfold pow_value.
    destruct (math_pow (base request) i); [done|].
    assert (false = true); [|done]. apply H.
    apply list_elem_of_In, elem_of_py_range. lia.
  - intros H i Hi. apply list_elem_of_In, elem_of_py_range in Hi.
    rewrite H; [done|lia].
Qed.

Lemma step_indices_steps (request : CalculationRequest) (l : list Z) :
  ∀ ts : list time,
    length ts = length l →
    step_indices (zip_with (step_chunk_of request) l ts) = l.
Proof.
  induction l as [|i l IH]; intros [|t ts] Hlen; try done.
  cbn [zip_with]. unfold step_indices. cbn [omap list_omap].
  change (step_index (step_chunk_of request i t)) with (Some i).
  cbn. f_equal. apply IH. by injection Hlen.
Qed.

Lemma step_indices_app (xs ys : list json) :
  step_indices (xs ++ ys) = step_indices xs ++ step_indices ys.
Proof. apply omap_app. Qed.

Lemma elem_of_zip_with_last (request : CalculationRequest) (l : list Z) (i : Z) :
  ∀ ts : list time,
    length ts = length l → i ∈ l →
    ∃ t, step_chunk_of request i t ∈ zip_with (step_chunk_of request) l ts.
Proof.
  induction l as [|j l IH]; intros [|t ts] Hlen Hi; try done.
  - by apply elem_of_nil in Hi.
  - apply elem_of_cons in Hi as [->|Hi].
    + exists t. by left.
    + destruct (IH ts) as (t' & Ht'); [by injection Hlen|done|].
      exists t'. by right.
Qed.

(** C1, as amended: for a request that passed both checks, if the record is
    created, the first journal write returns and [math.pow] returns at every
    step, the generator returns and sends [step] chunks with the indices 1
    to E in this order, then a [complete] chunk whose totals are
    [base * exponent] and [math.pow(base, exponent)], the values of the
    chunk of step E; this holds whatever the later calls to the store do. *)
Theorem stream_steps_in_order :
  ∀ (request : CalculationRequest) (m : mongo) (now : time),
    valid request →
    fault_at m 0 = None →
    fault_at m 1 = None →
    powers_fit request = true →
    fst (snd (serve_stream request m now)) = Ret tt
    ∧ steps_in_order request (stream_end request m now).
Proof.
  intros request m now Hvalid F0 F1 Hfit.
  unfold stream_end. rewrite serve_stream_run. cbn [snd].
  destruct (stream_run request m now Hvalid) as (s' & Hrun & Hout).
  rewrite Hrun. cbn [fst snd]. split; [reflexivity|].
  rewrite powers_fit_spec in Hfit.
  destruct Hout as [msg F0' _ _ _ _
                   |e l1 ts cs t f1 f _ F1' _ _ _ Hcause _ _ _ _ _ _
                   |ts cs fin tc out _ _ Hpow Hy Hlen _ _ _ _ _ _].
  - congruence.
  - destruct Hcause as [(msg & -> & _)|(_ & i & l2 & Hl & Hraise)]; [congruence|].
    assert (Hi : i ∈ py_range 1 (exponent request + 1)).
    { rewrite Hl. apply elem_of_app. right. by left. }
    apply elem_of_py_range in Hi. rewrite Hfit in Hraise; [done|lia].
  - destruct Hvalid as [_ He].
    split; [|split; [apply Hfit; lia|]].
    + rewrite Hy. change (?x :: ?l ++ ?y) with ([x] ++ l ++ y).
      rewrite !step_indices_app, step_indices_steps by done.
      cbn. by rewrite app_nil_r.
    + destruct (elem_of_zip_with_last request (py_range 1 (exponent request + 1))
                  (exponent request) ts Hlen) as (tE & HtE).
      { apply elem_of_py_range. lia. }
      exists (str_oid (next_oid m)), now, tc, tE. split.
      * rewrite Hy. change (?x :: ?l ++ ?y) with ((x :: l) ++ y).
        by rewrite last_snoc.
      * rewrite Hy. right. apply elem_of_app. by left.
Qed.

(** A request and a store for which the hypotheses hold. *)
Lemma stream_steps_in_order_witness :
  fst (snd (serve_stream small_request empty_store 0%nat)) = Ret tt
  ∧ steps_in_order small_request (stream_end small_request empty_store 0%nat).
Proof.
  apply (stream_steps_in_order small_request empty_store 0%nat).
  - split; [reflexivity|]. cbn. lia.
  - reflexivity.
  - reflexivity.
  - vm_compute. reflexivity.
Defined.

(** C1, as stated, fails where a power exceeds the range of a double: the
    request with base 1e200 and exponent 2 passes both checks, the store is
    healthy, and the generator sends the chunk of step 1, then an [error]
    chunk with the message of [OverflowError]; no chunk of step 2 and no
    [complete] chunk follow. *)
Lemma stream_steps_stop_at_overflow :
  valid overflowing_request
  ∧ py_range 1 (exponent overflowing_request + 1) = [1; 2]
  ∧ step_indices (yielded (stream_end overflowing_request empty_store 0%nat)) = [1]
  ∧ last (yielded (stream_end overflowing_request empty_store 0%nat))
    = Some (failure_chunk (OverflowError "math range error"))
  ∧ ¬ steps_in_order overflowing_request
        (stream_end overflowing_request empty_store 0%nat).
Proof.
  assert (Hsteps : step_indices
            (yielded (stream_end overflowing_request empty_store 0%nat)) = [1])
    by (vm_compute; reflexivity).
  split_and!.
  - split; [vm_compute; reflexivity|]. cbn. lia.
  - reflexivity.
  - exact Hsteps.
  - vm_compute. reflexivity.
  - intros [Hidx _]. rewrite Hsteps in Hidx. discriminate Hidx.
Qed.

(** ** Requests that fail a check *)

Lemma invalid_exponent_test (request : CalculationRequest) :
  ¬ 1 ≤ exponent request ≤ 100 →
  (exponent request <=? 0) || (100 <? exponent request) = true.
Proof.
  intros H. apply orb_true_iff.
  destruct (Z.leb_spec (exponent request) 0); [by left|right].
  apply Z.ltb_lt. lia.
Qed.

(** C2, as amended: a request with base ≤ 0 is answered with the base
    error, and a request whose base is not ≤ 0 and whose exponent is outside
    1..100 with the exponent error. In both cases the generator sends that
    one [error] chunk and returns, the synchronous endpoint raises the
    [HTTPException] with status 400, and neither makes a call to the store:
    the store is exactly as it was, with no new record and no new event. *)
Theorem invalid_request_rejected_before_persistence :
  ∀ (request : CalculationRequest) (m : mongo) (now : time) (text : string),
    ((base request <=? 0)%float = true ∧ text = base_error)
    ∨ ((base request <=? 0)%float = false ∧ ¬ 1 ≤ exponent request ≤ 100
       ∧ text = exponent_error) →
    fst (snd (serve_stream request m now)) = Ret tt
    ∧ yielded (stream_end request m now) = [error_chunk text]
    ∧ db (stream_end request m now) = m
    ∧ fst (serve_calculate request m now) = Raise (HTTPException 400 (lit text))
    ∧ db (sync_end request m now) = m.
Proof.
  intros request m now text H.
  unfold stream_end, sync_end, serve_calculate. rewrite serve_stream_run.
  rewrite generate_calculation_events_blocks, calculate_growth_blocks.
  unfold try_except.
  destruct H as [[Hb ->]|(Hb & He & ->)]; rewrite Hb.
  - by split_and!.
  - rewrite (invalid_exponent_test request He). by split_and!.
Qed.

(** A request with a negative base, on an empty store. *)
Lemma invalid_request_rejected_witness :
  fst (snd (serve_stream (Request (-1) 5) empty_store 0%nat)) = Ret tt
  ∧ yielded (stream_end (Request (-1) 5) empty_store 0%nat) = [error_chunk base_error]
  ∧ db (stream_end (Request (-1) 5) empty_store 0%nat) = empty_store
  ∧ fst (serve_calculate (Request (-1) 5) empty_store 0%nat)
    = Raise (HTTPException 400 (lit base_error))
  ∧ db (sync_end (Request (-1) 5) empty_store 0%nat) = empty_store.
Proof.
  apply (invalid_request_rejected_before_persistence (Request (-1) 5) empty_store
           0%nat base_error).
  left. split; [vm_compute; reflexivity|reflexivity].
Defined.

(** C2, as stated, fails for a request that fails both checks: with base -1
    and exponent 0 the exponent is outside 1..100, yet the answer of both
    endpoints is the base error, not the exponent error. *)
Lemma exponent_error_hidden_by_base_error :
  ¬ 1 ≤ exponent doubly_invalid_request ≤ 100
  ∧ yielded (stream_end doubly_invalid_request empty_store 0%nat)
    = [error_chunk base_error]
  ∧ yielded (stream_end doubly_invalid_request empty_store 0%nat)
    ≠ [error_chunk exponent_error]
  ∧ fst (serve_calculate doubly_invalid_request empty_store 0%nat)
    = Raise (HTTPException 400 (lit base_error))
  ∧ fst (serve_calculate doubly_invalid_request empty_store 0%nat)
    ≠ Raise (HTTPException 400 (lit exponent_error)).
Proof.
  split_and!.
  - cbn. lia.
  - vm_compute. reflexivity.
  - vm_compute. discriminate.
  - vm_compute. reflexivity.
  - vm_compute. discriminate.
Qed.

(** ** The record of a run *)

Lemma finish_calls_record (request : CalculationRequest) (oid : ObjectId)
    (tc : time) (records records' : gmap ObjectId calc_document)
    (d : calc_document) (out out' : list pystr) (fin : list store_call) :
  finish_calls request oid tc (<[oid := d]> records) records' out out' fin →
  (records' !! oid = Some d
   ∨ records' !! oid = Some (completed_fields request tc d))
  ∧ ∀ o, o ≠ oid → records' !! o = records !! o.
Proof.
  intros [msg _ -> _|msg _ -> _|_ -> _].
  - split; [left; apply lookup_insert_eq|].
    intros o Ho. by apply lookup_insert_ne.
  - split; [right; by rewrite lookup_alter_eq, lookup_insert_eq|].
    intros o Ho. rewrite lookup_alter_ne by done. by apply lookup_insert_ne.
  - split; [right; by rewrite lookup_alter_eq, lookup_insert_eq|].
    intros o Ho. rewrite lookup_alter_ne by done. by apply lookup_insert_ne.
Qed.

Lemma record_status_created (request : CalculationRequest) (now : time)
    (s' : state) (oid : ObjectId) :
  calculations_collection (db s') !! oid = Some (new_calculation request now) →
  record_status s' oid = Some "in_progress".
Proof. intros H. unfold record_status. by rewrite H. Qed.

Lemma record_status_completed (request : CalculationRequest) (now tc : time)
    (s' : state) (oid : ObjectId) :
  calculations_collection (db s') !! oid
  = Some (completed_fields request tc (new_calculation request now)) →
  record_status s' oid = Some "completed".
Proof. intros H. unfold record_status. by rewrite H. Qed.

Lemma journal_writes_snoc_ok (cs : list store_call) (d : event_document) :
  journal_writes (cs ++ [StoreCall (EventInsertOne d) None]) = journal_writes cs ++ [d].
Proof. by rewrite journal_writes_app. Qed.

Lemma error_journaled_intro (m : mongo) (s' : state) (e : exn) (t : time)
    (f : option string) (front : list store_call) :
  store_calls (db s')
  = store_calls m ++ front
      ++ [StoreCall (EventInsertOne (error_doc (str_oid (next_oid m)) e t)) f] →
  events_collection (db s')
  = events_collection m ++
      journal_writes
        (front ++ [StoreCall (EventInsertOne (error_doc (str_oid (next_oid m)) e t)) f]) →
  error_journaled m s' e.
Proof.
  intros Hcalls Hev. exists t, f. split.
  - rewrite (calls_since_app _ _ _ Hcalls). apply last_snoc.
  - intros ->. rewrite Hev, journal_writes_snoc_ok, app_assoc. apply last_snoc.
Qed.

Lemma chunk_kind_last_complete (ys : list json) (cid : pystr) (x y : float)
    (n : Z) (t0 tc : time) :
  (chunk_kind <$> last (ys ++ [complete_chunk cid x y n t0 tc])) = Some "complete".
Proof. by rewrite last_snoc. Qed.

Lemma chunk_kind_last_failure (ys : list json) (e : exn) :
  (chunk_kind <$> last (ys ++ [failure_chunk e])) = Some "error".
Proof.
  by rewrite last_snoc.
Qed.

Lemma sync_failure_record (request : CalculationRequest) (m : mongo) (now : time)
    (e : exn) (pre : list store_call) (records' : gmap ObjectId calc_document) :
  sync_failure request m now e pre records' →
  (records' !! next_oid m = Some (new_calculation request now)
   ∨ records' !! next_oid m
     = Some (completed_fields request now (new_calculation request now)))
  ∧ ∀ o, o ≠ next_oid m → records' !! o = calculations_collection m !! o.
Proof.
  intros [msg _ _ _ ->|i _ _ _ _ ->|msg _ _ _ _ ->|msg _ _ _ _ _ ->].
  1-3: split; [left; apply lookup_insert_eq|];
       intros o Ho; by apply lookup_insert_ne.
  split; [right; by rewrite lookup_alter_eq, lookup_insert_eq|].
  intros o Ho. rewrite lookup_alter_ne by done. by apply lookup_insert_ne.
Qed.

Lemma http_status_sync_raised {A} (e : exn) (f : option string) :
  http_status (A := A) (Raise (sync_raised e f)) = 500.
Proof. by destruct f. Qed.

(** ** [math.pow] on a base that passed the check *)

Lemma shr_1_nonneg (mrs : shr_record) : 0 ≤ shr_m mrs → 0 ≤ shr_m (shr_1 mrs).
Proof.
  destruct mrs as [m r s]. cbn [shr_m]. intros Hm.
  destruct m as [|[p|p|]|p]; cbn; lia.
Qed.

Lemma iter_pos_shr_1_nonneg (p : positive) :
  ∀ mrs, 0 ≤ shr_m mrs → 0 ≤ shr_m (SpecFloat.iter_pos shr_1 p mrs).
Proof.
  induction p as [p IH|p IH|]; intros mrs Hm; cbn [SpecFloat.iter_pos].
  - apply IH, IH, shr_1_nonneg, Hm.
  - apply IH, IH, Hm.
  - apply shr_1_nonneg, Hm.
Qed.

Lemma shr_fexp_nonneg (m e : Z) (l : location) :
  0 ≤ m → 0 ≤ shr_m (fst (shr_fexp prec emax m e l)).
Proof.
  intros Hm. unfold shr_fexp, shr.
  assert (H0 : 0 ≤ shr_m (shr_record_of_loc m l)) by (by destruct l as [|[]]).
  destruct (fexp prec emax (Zdigits2 m + e) - e); cbn [fst]; try done.
  by apply iter_pos_shr_1_nonneg.
Qed.

Lemma binary_round_aux_not_nan (sx : bool) (mx ex : Z) (lx : location) :
  0 ≤ mx → binary_round_aux prec emax sx mx ex lx ≠ S754_nan.
Proof.
  intros Hm. unfold binary_round_aux.
  pose proof (shr_fexp_nonneg mx ex lx Hm) as H1.
  destruct (shr_fexp prec emax mx ex lx) as [mrs' e']. cbn [fst] in H1.
  assert (H2 : 0 ≤ round_nearest_even (shr_m mrs') (loc_of_shr_record mrs')).
  { unfold round_nearest_even.
    destruct (loc_of_shr_record mrs') as [|[]]; try lia.
    destruct (Z.even (shr_m mrs')); lia. }
  pose proof (shr_fexp_nonneg _ e' loc_Exact H2) as H3.
  destruct (shr_fexp prec emax _ e' loc_Exact) as [mrs'' e'']. cbn [fst] in H3.
  destruct (shr_m mrs'') as [|p|p]; [done| |lia].
  by destruct (e'' <=? emax - prec).
Qed.

Lemma binary_round_not_nan (sx : bool) (mx : positive) (ex : Z) :
  binary_round prec emax sx mx ex ≠ S754_nan.
Proof.
  unfold binary_round. destruct (shl_align _ _ _) as [mz ez].
  by apply binary_round_aux_not_nan.
Qed.

Lemma binary_normalize_not_nan (m e : Z) (szero : bool) :
  binary_normalize prec emax m e szero ≠ S754_nan.
Proof. destruct m; [done|apply binary_round_not_nan..]. Qed.

Lemma is_nan_Prim2SF (x : float) : Prim2SF x ≠ S754_nan → is_nan x = false.
Proof.
  unfold Prim2SF. by destruct (is_nan x).
Qed.

Lemma Prim2SF_is_nan (x : float) : is_nan x = false → Prim2SF x ≠ S754_nan.
Proof.
  intros Hx. unfold Prim2SF. rewrite Hx.
  destruct (is_zero x); [done|]. destruct (is_infinity x); [done|].
  destruct (Z.frexp x) as [r ex]. destruct (shr_fexp _ _ _ _ _) as [mrs e'].
  by destruct (shr_m mrs).
Qed.

Lemma is_nan_SF2Prim (s : spec_float) : s ≠ S754_nan → is_nan (SF2Prim s) = false.
Proof.
  intros Hs. destruct s as [[]|[]| |sx m e]; [reflexivity..|done|].
  apply is_nan_Prim2SF. unfold SF2Prim.
  assert (H : Prim2SF (Z.ldexp (of_uint63 (of_Z (Z.pos m))) e) ≠ S754_nan).
  { rewrite Z_ldexp_spec, of_uint63_spec. unfold SFldexp.
    pose proof (binary_normalize_not_nan (to_Z (of_Z (Z.pos m))) 0 false) as Hn.
    destruct (binary_normalize prec emax (to_Z (of_Z (Z.pos m))) 0 false);
      try done. apply binary_round_not_nan. }
  destruct sx; [|exact H].
  rewrite opp_spec. by destruct (Prim2SF (Z.ldexp _ e)).
Qed.

Lemma c_pow_not_nan (x : float) (y : Z) :
  is_nan x = false → 0 < y → is_nan (c_pow x y) = false.
Proof.
  intros Hx Hy. unfold c_pow. destruct y as [|p|p]; [lia| |lia].
  destruct (Prim2SF x) as [s|s| |s m e]; try exact Hx.
  - by destruct (s && odd_int (Z.pos p)).
  - apply is_nan_SF2Prim, binary_normalize_not_nan.
Qed.

Lemma is_zero_leb (x : float) : (x <=? 0)%float = false → is_zero x = false.
Proof.
  unfold is_zero. rewrite leb_spec, FloatAxioms.eqb_spec. unfold SFleb, SFeqb.
  change zero with 0%float.
  by destruct (SFcompare (Prim2SF x) (Prim2SF 0)) as [[]|].
Qed.

Lemma math_pow_overflow (x : float) (y : Z) (e : exn) :
  (x <=? 0)%float = false → 0 < y →
  math_pow x y = Raise e → e = OverflowError "math range error".
Proof.
  intros Hx Hy. unfold math_pow.
  destruct (is_nan x) eqn:Hnan; [discriminate|].
  destruct (is_infinity x); [discriminate|].
  rewrite (c_pow_not_nan x y Hnan Hy), (is_zero_leb x Hx).
  destruct (is_infinity (c_pow x y)); [|discriminate].
  by intros [= <-].
Qed.

(** ** The failure of a run, from the request and the fault plan *)

Lemma powers_fit_raise (request : CalculationRequest) (i : Z) (e : exn) :
  1 ≤ i ≤ exponent request →
  math_pow (base request) i = Raise e →
  powers_fit request = false.
Proof.
  intros Hi Hraise. destruct (powers_fit request) eqn:Hfit; [|done].
  rewrite powers_fit_spec in Hfit. rewrite Hfit in Hraise; [done|lia].
Qed.

(** A synchronous call whose record was created ends as [sync_fault] says:
    with its failure, after one more journal write, or with the response. *)
Lemma sync_fault_run (request : CalculationRequest) (m : mongo) (now : time) :
  valid request →
  fault_at m 0 = None →
  ∃ (r : res CalculationResponse) (s' : state),
    calculate_growth request (fresh m now) = (r, s')
    ∧ match sync_fault request m with
      | Some (e, k) =>
          ∃ pre : list store_call,
            r = Raise (sync_raised e (fault_at m k))
            ∧ k = S (length pre)
            ∧ sync_failure request m now e pre (calculations_collection (db s'))
            ∧ store_calls (db s') =
                store_calls m ++
                  StoreCall (CalcInsertOne (new_calculation request now)) None
                  :: pre ++ [StoreCall (EventInsertOne
                                          (error_doc (str_oid (next_oid m)) e now))
                               (fault_at m k)]
            ∧ events_collection (db s') =
                events_collection m ++
                  journal_writes
                    (pre ++ [StoreCall (EventInsertOne
                                          (error_doc (str_oid (next_oid m)) e now))
                               (fault_at m k)])
      | None =>
          r = Ret (response_of request (next_oid m) now)
          ∧ calculations_collection (db s') =
              alter (completed_fields request now) (next_oid m)
                (<[next_oid m := new_calculation request now]>
                   (calculations_collection m))
      end.
Proof.
  intros Hvalid F0. pose proof Hvalid as [Hb He].
  unfold sync_fault. rewrite calculate_growth_blocks.
  unfold try_except at 1. rewrite Hb, (valid_exponent_test request He).
  unfold sync_main, calculations_insert_one. run_cbn. rewrite store_run. run_cbn.
  rewrite F0.
  rewrite log_event_run. cbv zeta. run_cbn. rewrite fault_at_tail.
  unfold started_data at 1. rewrite py_or_obj. fold (started_data request).
  fold (started_doc request (str_oid (next_oid m)) now).
  destruct (fault_at m 1) as [msg1|] eqn:F1.
  { rewrite sync_except_run. cbv zeta. run_cbn. rewrite fault_at_tail2.
    eexists _, _. split; [reflexivity|].
    exists [StoreCall (EventInsertOne
                         (started_doc request (str_oid (next_oid m)) now))
              (Some msg1)].
    split_and!; [reflexivity|reflexivity|by eapply started_write_failed
                |events_tac|events_tac]. }
  match goal with |- context [for_fold ?l ?acc ?body ?s] =>
    destruct (sync_loop request l acc s) as (r & Hloop & Hr)
  end.
  rewrite Hloop. cbn [clock fst snd app] in Hr.
  destruct r as [logs|e].
  2:{ destruct Hr as (i & Hi & Hraise). apply elem_of_py_range in Hi.
      rewrite (powers_fit_raise request i e) by (done || lia).
      rewrite (math_pow_overflow _ i e Hb) in * by (done || lia).
      rewrite sync_except_run. cbv zeta. run_cbn. rewrite fault_at_tail2.
      eexists _, _. split; [reflexivity|].
      exists [StoreCall (EventInsertOne
                           (started_doc request (str_oid (next_oid m)) now))
                None].
      split_and!; [reflexivity|reflexivity
                  |eapply (power_raised _ _ _ _ _ _ i); first [done|lia]
                  |events_tac|events_tac]. }
  destruct Hr as [-> Hpow].
  assert (Hfit : powers_fit request = true).
  { apply powers_fit_spec. intros i Hi. apply Hpow, elem_of_py_range. lia. }
  rewrite Hfit.
  assert (HE : math_pow (base request) (exponent request)
               = Ret (pow_value (base request) (exponent request))).
  { apply Hpow, elem_of_py_range. lia. }
  rewrite HE. unfold calculations_update_one. run_cbn.
  cbn [ObjectId_of_str str_oid]. run_cbn. rewrite store_run. run_cbn.
  rewrite fault_at_tail2.
  fold (update_op request (next_oid m) now).
  destruct (fault_at m 2) as [msg2|] eqn:F2.
  { rewrite sync_except_run. cbv zeta. run_cbn. rewrite fault_at_tail3.
    eexists _, _. split; [reflexivity|].
    exists [StoreCall (EventInsertOne
                         (started_doc request (str_oid (next_oid m)) now))
              None;
            StoreCall (update_op request (next_oid m) now) (Some msg2)].
    split_and!; [reflexivity|reflexivity|by eapply update_raised
                |events_tac|events_tac]. }
  rewrite log_event_run. cbv zeta. run_cbn. rewrite fault_at_tail3.
  change (py_or JNone (JObj [])) with (JObj []).
  fold (completed_doc (str_oid (next_oid m)) now).
  destruct (fault_at m 3) as [msg3|] eqn:F3.
  { rewrite sync_except_run. cbv zeta. run_cbn. rewrite fault_at_tail4.
    eexists _, _. split; [reflexivity|].
    exists [StoreCall (EventInsertOne
                         (started_doc request (str_oid (next_oid m)) now))
              None;
            StoreCall (update_op request (next_oid m) now) None;
            StoreCall (EventInsertOne (completed_doc (str_oid (next_oid m)) now))
              (Some msg3)].
    split_and!; [reflexivity|reflexivity|by eapply completed_write_failed
                |events_tac|events_tac]. }
  eexists _, _. split; [reflexivity|]. split; reflexivity.
Qed.

(** A streamed run whose record was created ends as [stream_fault] says:
    with the [error] chunk of its failure after the steps sent so far, or
    with the [complete] chunk after all steps. *)
Lemma stream_fault_run (request : CalculationRequest) (m : mongo) (now : time) :
  valid request →
  fault_at m 0 = None →
  match stream_fault request m with
  | Some e =>
      ∃ (l1 : list Z) (ts : list time),
        yielded (stream_end request m now)
        = start_chunk (str_oid (next_oid m)) request
          :: zip_with (step_chunk_of request) l1 ts ++ [failure_chunk e]
        ∧ length ts = length l1
        ∧ (∀ i, i ∈ l1 → math_pow (base request) i = Ret (pow_value (base request) i))
        ∧ ((fault_at m 1 ≠ None ∧ l1 = [])
           ∨ (fault_at m 1 = None
              ∧ ∃ i l2, py_range 1 (exponent request + 1) = l1 ++ i :: l2
                        ∧ math_pow (base request) i = Raise e))
        ∧ error_journaled m (stream_end request m now) e
        ∧ calculations_collection (db (stream_end request m now))
          = <[next_oid m := new_calculation request now]> (calculations_collection m)
  | None =>
      ∃ (ts : list time) (tc : time),
        yielded (stream_end request m now)
        = start_chunk (str_oid (next_oid m)) request
          :: zip_with (step_chunk_of request) (py_range 1 (exponent request + 1)) ts
          ++ [complete_chunk (str_oid (next_oid m))
                (float_mul_int (base request) (exponent request))
                (pow_value (base request) (exponent request))
                (exponent request) now tc]
        ∧ length ts = length (py_range 1 (exponent request + 1))
  end.
Proof.
  intros Hvalid F0. pose proof Hvalid as [Hb He].
  unfold stream_end, stream_fault. rewrite serve_stream_run. cbn [snd].
  destruct (stream_run request m now Hvalid) as (s' & Hrun & Hout).
  rewrite Hrun. cbn [snd].
  destruct Hout as [msg F0' _ _ _ _
                   |e l1 ts cs t f1 f _ F1 Hy Hlen Hl1 Hcause _ _ _ Hrec Hcalls Hev
                   |ts cs fin tc out _ F1 Hpow Hy Hlen _ _ _ _ _ _].
  - congruence.
  - assert (Hj : error_journaled m s' e).
    { eapply (error_journaled_intro m s' e t f (_ :: _ :: cs)).
      - rewrite Hcalls. reflexivity.
      - rewrite Hev. cbn [app]. by rewrite journal_writes_insert. }
    destruct Hcause as [(msg & -> & -> & -> & _)|(-> & i & l2 & Hl & Hraise)].
    + rewrite F1. exists [], ts. split_and!; try done. by left.
    + rewrite F1.
      assert (Hi : i ∈ py_range 1 (exponent request + 1)).
      { rewrite Hl. apply elem_of_app. right. by left. }
      apply elem_of_py_range in Hi.
      rewrite (powers_fit_raise request i e) by (done || lia).
      pose proof (math_pow_overflow _ i e Hb ltac:(lia) Hraise) as ->.
      exists l1, ts. split_and!; try done. right. split; [done|]. by exists i, l2.
  - rewrite F1. apply powers_fit_spec in Hpow. rewrite Hpow. by exists ts, tc.
Qed.

(** ** Ranges *)

Lemma py_range_cons (a b : Z) : a < b → py_range a b = a :: py_range (a + 1) b.
Proof.
  intros Hab. unfold py_range.
  replace (Z.to_nat (b - a)) with (S (Z.to_nat (b - (a + 1)))) by lia.
  cbn [seq map]. f_equal; [lia|].
  rewrite <- seq_shift, map_map. apply map_ext. intros k. lia.
Qed.

Lemma py_range_prefix (b i : Z) (l1 l2 : list Z) :
  ∀ a, py_range a b = l1 ++ i :: l2 → l1 = py_range a i.
Proof.
  induction l1 as [|x l1 IH]; intros a Hl.
  - assert (Hab : a < b).
    { destruct (Z.lt_ge_cases a b) as [?|Hge]; [done|].
      unfold py_range in Hl. by replace (Z.to_nat (b - a)) with 0%nat in Hl by lia. }
    rewrite (py_range_cons a b Hab) in Hl. injection Hl as <- _.
    unfold py_range. by rewrite Z.sub_diag.
  - assert (Hab : a < b).
    { destruct (Z.lt_ge_cases a b) as [?|Hge]; [done|].
      unfold py_range in Hl. by replace (Z.to_nat (b - a)) with 0%nat in Hl by lia. }
    rewrite (py_range_cons a b Hab) in Hl. injection Hl as <- Hl.
    assert (Hi : i ∈ py_range (a + 1) b).
    { rewrite Hl. apply elem_of_app. right. by left. }
    apply elem_of_py_range in Hi.
    rewrite (py_range_cons a i) by lia. f_equal. by apply IH.
Qed.

(** ** The record of a run and the records of the others *)

Lemma stream_record_kept (request : CalculationRequest) (m : mongo) (now : time) :
  valid request →
  fault_at m 0 = None →
  (record_status (stream_end request m now) (next_oid m) = Some "in_progress"
   ∨ record_status (stream_end request m now) (next_oid m) = Some "completed")
  ∧ others_untouched m (stream_end request m now)
  ∧ (last_kind (stream_end request m now) = Some "error" →
     record_status (stream_end request m now) (next_oid m) = Some "in_progress"
     ∧ ∃ e, last (yielded (stream_end request m now)) = Some (failure_chunk e)
            ∧ error_journaled m (stream_end request m now) e).
Proof.
  intros Hvalid F0.
  unfold stream_end. rewrite serve_stream_run. cbn [snd].
  destruct (stream_run request m now Hvalid) as (s' & Hrun & Hout).
  rewrite Hrun. cbn [snd].
  destruct Hout as [msg F0' _ _ _ _
                   |e l1 ts cs t f1 f _ _ Hy _ _ _ _ _ _ Hrec Hcalls Hev
                   |ts cs fin tc out _ _ _ Hy _ _ _ _ Hfin _ _].
  - congruence.
  - assert (Hdoc : calculations_collection (db s') !! next_oid m
                   = Some (new_calculation request now))
      by (rewrite Hrec; apply lookup_insert_eq).
    split_and!.
    + left. by eapply record_status_created.
    + intros o Ho. rewrite Hrec. by apply lookup_insert_ne.
    + intros _. split; [by eapply record_status_created|].
      exists e. split.
      * rewrite Hy. change (?x :: ?l ++ ?y) with ((x :: l) ++ y). apply last_snoc.
      * eapply (error_journaled_intro m s' e t f (_ :: _ :: cs)).
        -- rewrite Hcalls. reflexivity.
        -- rewrite Hev. cbn [app]. by rewrite journal_writes_insert.
  - destruct (finish_calls_record _ _ _ _ _ _ _ _ _ Hfin) as [Hdoc Hothers].
    split_and!.
    + destruct Hdoc as [Hdoc|Hdoc];
        [left; by eapply record_status_created
        |right; by eapply record_status_completed].
    + exact Hothers.
    + unfold last_kind. rewrite Hy. change (?x :: ?l ++ ?y) with ((x :: l) ++ y).
      rewrite chunk_kind_last_complete. discriminate.
Qed.

Lemma sync_record_kept (request : CalculationRequest) (m : mongo) (now : time) :
  valid request →
  fault_at m 0 = None →
  (record_status (sync_end request m now) (next_oid m) = Some "in_progress"
   ∨ record_status (sync_end request m now) (next_oid m) = Some "completed")
  ∧ others_untouched m (sync_end request m now)
  ∧ (∀ e', fst (serve_calculate request m now) = Raise e' →
           http_status (fst (serve_calculate request m now)) = 500
           ∧ ∃ e, error_journaled m (sync_end request m now) e).
Proof.
  intros Hvalid F0.
  unfold sync_end, serve_calculate.
  destruct (sync_run request m now Hvalid) as (r & s' & Hrun & Hout).
  rewrite Hrun. cbn [fst snd].
  destruct Hout as [msg f F0' _ _ _ _
                   |e pre f _ Hfail -> Hcalls Hev
                   |_ _ _ _ _ -> Hrec _ _].
  - congruence.
  - destruct (sync_failure_record _ _ _ _ _ _ Hfail) as [Hdoc Hothers].
    split_and!.
    + destruct Hdoc as [Hdoc|Hdoc];
        [left; by eapply record_status_created
        |right; by eapply record_status_completed].
    + exact Hothers.
    + intros e' _. split; [apply http_status_sync_raised|].
      exists e. eapply (error_journaled_intro m s' e now f (_ :: pre)).
      * rewrite Hcalls. reflexivity.
      * rewrite Hev. cbn [app]. by rewrite journal_writes_insert.
  - split_and!.
    + right. eapply record_status_completed.
      by rewrite Hrec, lookup_alter_eq, lookup_insert_eq.
    + intros o Ho. rewrite Hrec, lookup_alter_ne by done.
      by apply lookup_insert_ne.
    + intros e' [=].
Qed.

(** What a synchronous call that failed after the record was created leaves
    in the store and raises. *)
Lemma sync_failed_run (request : CalculationRequest) (m : mongo) (now : time)
    (e : exn) (k : nat) :
  valid request →
  fault_at m 0 = None →
  sync_fault request m = Some (e, k) →
  fst (serve_calculate request m now) = Raise (sync_raised e (fault_at m k))
  ∧ (∃ pre,
       sync_failure request m now e pre
         (calculations_collection (db (sync_end request m now)))
       ∧ k = S (length pre)
       ∧ calls_since m (sync_end request m now)
         = StoreCall (CalcInsertOne (new_calculation request now)) None
           :: pre ++ [StoreCall (EventInsertOne
                                   (error_doc (str_oid (next_oid m)) e now))
                        (fault_at m k)]
       ∧ events_collection (db (sync_end request m now))
         = events_collection m ++
             journal_writes
               (pre ++ [StoreCall (EventInsertOne
                                     (error_doc (str_oid (next_oid m)) e now))
                          (fault_at m k)]))
  ∧ error_journaled m (sync_end request m now) e.
Proof.
  intros Hvalid F0 Hfault. unfold sync_end, serve_calculate.
  destruct (sync_fault_run request m now Hvalid F0) as (r & s' & Hrun & H).
  rewrite Hrun, Hfault in *. cbn [fst snd].
  destruct H as (pre & -> & Hk & Hfail & Hcalls & Hev).
  split_and!.
  - reflexivity.
  - exists pre. split_and!; [exact Hfail|exact Hk| |].
    + by rewrite (calls_since_app _ _ _ Hcalls).
    + exact Hev.
  - eapply (error_journaled_intro m s' e now (fault_at m k) (_ :: pre)).
    + rewrite Hcalls. reflexivity.
    + rewrite Hev. cbn [app]. by rewrite journal_writes_insert.
Qed.

Lemma sync_returned_run (request : CalculationRequest) (m : mongo) (now : time) :
  valid request →
  fault_at m 0 = None →
  sync_fault request m = None →
  fst (serve_calculate request m now) = Ret (response_of request (next_oid m) now)
  ∧ record_status (sync_end request m now) (next_oid m) = Some "completed".
Proof.
  intros Hvalid F0 Hfault. unfold sync_end, serve_calculate.
  destruct (sync_fault_run request m now Hvalid F0) as (r & s' & Hrun & H).
  rewrite Hrun, Hfault in *. cbn [fst snd]. destruct H as [-> Hrec].
  split; [reflexivity|].
  eapply record_status_completed.
  by rewrite Hrec, lookup_alter_eq, lookup_insert_eq.
Qed.

(** The journal writes of a synchronous call before its [except] clause are
    of type [calculation_started] or [calculation_completed]. *)
Lemma sync_failure_event_types (request : CalculationRequest) (m : mongo)
    (now : time) (e : exn) (pre : list store_call)
    (records' : gmap ObjectId calc_document) :
  sync_failure request m now e pre records' →
  "calculation_error" ∉ ev_event_type <$> journal_writes pre.
Proof.
  intros [msg _ _ -> _|i _ _ _ -> _|msg _ _ _ -> _|msg _ _ _ _ -> _];
    cbn; intros Hin; repeat (apply elem_of_cons in Hin as [Hin|Hin]; [done|]);
    by apply elem_of_nil in Hin.
Qed.

(** C3, as amended: once the record of a run exists, a failure before
    normal completion is signalled to the consumer (the last chunk of the
    stream is [error], the synchronous endpoint answers 500) and a
    [calculation_error] journal write for the record is the last call to the
    store, kept by the journal if the store accepts it; but the status of the
    record is not changed by the failure: the streamed run leaves it
    [in_progress]. The failures are those of [stream_fault] and
    [sync_fault]: each of them ends the run in this way, with its own
    exception, and without one of them the run completes. No run writes any
    status other than [in_progress] at creation and [completed] by the final
    update, and no run touches the record of another. *)
Theorem failed_run_leaves_record_in_progress :
  ∀ (request : CalculationRequest) (m : mongo) (now : time),
    valid request →
    fault_at m 0 = None →
    ((record_status (stream_end request m now) (next_oid m) = Some "in_progress"
      ∨ record_status (stream_end request m now) (next_oid m) = Some "completed")
     ∧ others_untouched m (stream_end request m now)
     ∧ (last_kind (stream_end request m now) = Some "error" →
        record_status (stream_end request m now) (next_oid m) = Some "in_progress"
        ∧ ∃ e, last (yielded (stream_end request m now)) = Some (failure_chunk e)
               ∧ error_journaled m (stream_end request m now) e)
     ∧ (∀ e, stream_fault request m = Some e →
             last (yielded (stream_end request m now)) = Some (failure_chunk e)
             ∧ error_journaled m (stream_end request m now) e
             ∧ record_status (stream_end request m now) (next_oid m)
               = Some "in_progress")
     ∧ (stream_fault request m = None →
        last_kind (stream_end request m now) = Some "complete"))
    ∧ ((record_status (sync_end request m now) (next_oid m) = Some "in_progress"
        ∨ record_status (sync_end request m now) (next_oid m) = Some "completed")
       ∧ others_untouched m (sync_end request m now)
       ∧ (∀ e', fst (serve_calculate request m now) = Raise e' →
                http_status (fst (serve_calculate request m now)) = 500
                ∧ ∃ e, error_journaled m (sync_end request m now) e)
       ∧ (∀ e k, sync_fault request m = Some (e, k) →
                 http_status (fst (serve_calculate request m now)) = 500
                 ∧ fst (serve_calculate request m now)
                   = Raise (sync_raised e (fault_at m k))
                 ∧ error_journaled m (sync_end request m now) e)
       ∧ (sync_fault request m = None →
          http_status (fst (serve_calculate request m now)) = 200
          ∧ record_status (sync_end request m now) (next_oid m)
            = Some "completed")).
Proof.
  intros request m now Hvalid F0. split.
  - destruct (stream_record_kept request m now Hvalid F0) as (HA & HB & HC).
    pose proof (stream_fault_run request m now Hvalid F0) as Hrun.
    split_and!; [exact HA|exact HB|exact HC|..].
    + intros e He. rewrite He in Hrun.
      destruct Hrun as (l1 & ts & Hy & _ & _ & _ & Hj & Hrec).
      split_and!; [|exact Hj|].
      * rewrite Hy. change (?x :: ?l ++ ?y) with ((x :: l) ++ y). apply last_snoc.
      * eapply record_status_created. rewrite Hrec. apply lookup_insert_eq.
    + intros Hnone. rewrite Hnone in Hrun. destruct Hrun as (ts & tc & Hy & _).
      unfold last_kind. rewrite Hy. change (?x :: ?l ++ ?y) with ((x :: l) ++ y).
      apply chunk_kind_last_complete.
  - destruct (sync_record_kept request m now Hvalid F0) as (HA & HB & HC).
    split_and!; [exact HA|exact HB|exact HC|..].
    + intros e k He.
      destruct (sync_failed_run request m now e k Hvalid F0 He) as (Hr & _ & Hj).
      split_and!; [|exact Hr|exact Hj].
      rewrite Hr. apply http_status_sync_raised.
    + intros Hnone.
      destruct (sync_returned_run request m now Hvalid F0 Hnone) as [Hr Hrec].
      split; [by rewrite Hr|exact Hrec].
Qed.

(** A run whose first journal write fails, after the record was created. *)
Lemma failed_run_leaves_record_in_progress_witness :
  last (yielded (stream_end small_request journal_down_at_start 0%nat))
  = Some (failure_chunk (PyMongoError "journal unavailable"))
  ∧ record_status (stream_end small_request journal_down_at_start 0%nat) 0%nat
    = Some "in_progress"
  ∧ http_status (fst (serve_calculate small_request journal_down_at_start 0%nat)) = 500.
Proof.
  destruct (failed_run_leaves_record_in_progress small_request
              journal_down_at_start 0%nat)
    as [(_ & _ & _ & Hs & _) (_ & _ & _ & Hy & _)].
  - split; [reflexivity|]. cbn. lia.
  - reflexivity.
  - destruct (Hs (PyMongoError "journal unavailable")) as (Hlast & _ & Hrec);
      [vm_compute; reflexivity|].
    destruct (Hy (PyMongoError "journal unavailable") 2%nat) as (Hst & _);
      [vm_compute; reflexivity|].
    split_and!; [exact Hlast|exact Hrec|exact Hst].
Defined.

(** C3, as stated, fails: with base 2 and exponent 3, the record is created,
    the journal write of [calculation_started] raises, the generator sends
    its [error] chunk and journals [calculation_error], and the record is
    left with status [in_progress], not [error]. *)
Lemma failed_stream_record_not_marked_error :
  fault_at journal_down_at_start 0 = None
  ∧ last_kind (stream_end small_request journal_down_at_start 0%nat)
    = Some "error"
  ∧ (ev_event_type <$> last (events_collection
                               (db (stream_end small_request journal_down_at_start 0%nat))))
    = Some "calculation_error"
  ∧ record_status (stream_end small_request journal_down_at_start 0%nat) 0%nat
    = Some "in_progress"
  ∧ record_status (stream_end small_request journal_down_at_start 0%nat) 0%nat
    ≠ Some "error".
Proof.
  split_and!; try (vm_compute; reflexivity).
  vm_compute. discriminate.
Qed.

(** ** The final update *)

Lemma update_errors_app (cs1 cs2 : list store_call) :
  update_errors (cs1 ++ cs2) = update_errors cs1 ++ update_errors cs2.
Proof. apply omap_app. Qed.

Lemma event_types_app (cs1 cs2 : list store_call) :
  event_types (cs1 ++ cs2) = event_types cs1 ++ event_types cs2.
Proof. apply omap_app. Qed.

Lemma step_calls_no_update (cs : list store_call) :
  Forall step_call cs → update_errors cs = [].
Proof.
  induction 1 as [|[op f] cs Hc _ IH]; [done|].
  unfold update_errors. cbn [omap list_omap]. fold (update_errors cs). rewrite IH.
  destruct Hc as [Hc|Hc]; unfold call_event_type in Hc; cbn in Hc;
    by destruct op.
Qed.

Lemma step_calls_event_types (cs : list store_call) (ty : string) :
  Forall step_call cs → ty ∈ event_types cs →
  ty = "linear_step" ∨ ty = "exponential_step".
Proof.
  induction 1 as [|c cs Hc _ IH]; intros Hty.
  - by apply elem_of_nil in Hty.
  - unfold event_types in Hty. cbn [omap list_omap] in Hty.
    fold (event_types cs) in Hty.
    destruct Hc as [Hc|Hc]; rewrite Hc in Hty;
      apply elem_of_cons in Hty as [->|Hty]; auto.
Qed.

(** C4, as amended: in the generator a failure of the final update is not
    fatal. The exception is caught where it is raised and a warning is
    printed; the journal write of [calculation_completed] is skipped; no
    [calculation_error] is journaled; the [complete] chunk is still the last
    chunk and the generator returns; the record keeps the status
    [in_progress]. In the synchronous endpoint the same failure is fatal to
    the call: [calculation_error] is journaled and the answer is 500; the
    record keeps the status [in_progress] there too. *)
Theorem failed_update_is_swallowed_by_stream :
  ∀ (request : CalculationRequest) (m : mongo) (now : time) (msg : string),
    valid request →
    (update_errors (calls_since m (stream_end request m now)) = [msg] →
     fst (snd (serve_stream request m now)) = Ret tt
     ∧ last_kind (stream_end request m now) = Some "complete"
     ∧ record_status (stream_end request m now) (next_oid m) = Some "in_progress"
     ∧ last (stdout (stream_end request m now)) = Some (update_warning msg)
     ∧ ("calculation_error" ∉ event_types (calls_since m (stream_end request m now)))
     ∧ ("calculation_completed" ∉ event_types (calls_since m (stream_end request m now))))
    ∧ (update_errors (calls_since m (sync_end request m now)) = [msg] →
       http_status (fst (serve_calculate request m now)) = 500
       ∧ error_journaled m (sync_end request m now) (PyMongoError msg)
       ∧ record_status (sync_end request m now) (next_oid m) = Some "in_progress").
Proof.
  intros request m now msg Hvalid. split.
  - unfold stream_end. rewrite serve_stream_run. cbn [snd].
    destruct (stream_run request m now Hvalid) as (s' & Hrun & Hout).
    rewrite Hrun. cbn [fst snd].
    destruct Hout as [msg0 _ _ _ Hcalls _
                     |e l1 ts cs t f1 f _ _ _ _ _ _ Hsc _ _ _ Hcalls _
                     |ts cs fin tc out _ _ _ Hy _ Hsc _ _ Hfin Hcalls _];
      rewrite (calls_since_app _ _ _ Hcalls).
    + intros [=].
    + change (?a :: ?b :: ?l ++ ?y) with ([a; b] ++ l ++ y).
      rewrite !update_errors_app, (step_calls_no_update cs Hsc). intros [=].
    + change (?a :: ?b :: ?l ++ ?y) with ([a; b] ++ l ++ y).
      rewrite !update_errors_app, !event_types_app, (step_calls_no_update cs Hsc).
      destruct Hfin as [msg' -> Hrec Hout|msg' -> _ _| -> _ _]; [|intros [=]..].
      intros [= ->]. split_and!.
      * reflexivity.
      * unfold last_kind. rewrite Hy. change (?x :: ?l ++ ?y) with ((x :: l) ++ y).
        apply chunk_kind_last_complete.
      * eapply record_status_created. rewrite Hrec. apply lookup_insert_eq.
      * rewrite Hout. apply last_snoc.
      * intros Hin. apply elem_of_app in Hin as [Hin|Hin];
          [|apply elem_of_app in Hin as [Hin|Hin]].
        -- apply list_elem_of_singleton in Hin. discriminate Hin.
        -- by destruct (step_calls_event_types cs _ Hsc Hin).
        -- by apply elem_of_nil in Hin.
      * intros Hin. apply elem_of_app in Hin as [Hin|Hin];
          [|apply elem_of_app in Hin as [Hin|Hin]].
        -- apply list_elem_of_singleton in Hin. discriminate Hin.
        -- by destruct (step_calls_event_types cs _ Hsc Hin).
        -- by apply elem_of_nil in Hin.
  - unfold sync_end, serve_calculate.
    destruct (sync_run request m now Hvalid) as (r & s' & Hrun & Hout).
    rewrite Hrun. cbn [fst snd].
    destruct Hout as [msg0 f _ _ _ Hcalls _
                     |e pre f _ Hfail -> Hcalls Hev
                     |_ _ _ _ _ _ _ Hcalls _];
      rewrite (calls_since_app _ _ _ Hcalls); [intros [=]| |intros [=]].
    pose proof Hfail as Hfail'.
    destruct Hfail as [msg' _ _ -> _|i _ _ _ -> _|msg' _ _ -> -> Hrec
                      |msg' _ _ _ _ -> _]; [intros [=]..|intros [= ->]|intros [=]].
    split_and!.
    + apply http_status_sync_raised.
    + eapply (error_journaled_intro m s' _ now f (_ :: _)).
      * rewrite Hcalls. reflexivity.
      * rewrite Hev. cbn [app]. by rewrite journal_writes_insert.
    + eapply record_status_created. rewrite Hrec. apply lookup_insert_eq.
Qed.

(** A streamed run and a synchronous call whose final update raises. *)
Lemma failed_update_is_swallowed_by_stream_witness :
  last_kind (stream_end small_request update_down_stream 0%nat)
  = Some "complete"
  ∧ http_status (fst (serve_calculate small_request update_down_sync 0%nat)) = 500.
Proof.
  assert (Hvalid : valid small_request) by (split; [reflexivity|cbn; lia]).
  split.
  - destruct (failed_update_is_swallowed_by_stream small_request update_down_stream
                0%nat "record store unavailable" Hvalid) as [Hs _].
    apply Hs. vm_compute. reflexivity.
  - destruct (failed_update_is_swallowed_by_stream small_request update_down_sync
                0%nat "record store unavailable" Hvalid) as [_ Hy].
    apply Hy. vm_compute. reflexivity.
Defined.

(** C4, as stated, fails in the generator: with base 2, exponent 3 and a
    store whose [update_one] raises, the generator returns, its last chunk
    is [complete], the journal holds the start and the six step events and
    no [calculation_error], and the record is left [in_progress], not
    [error]. *)
Lemma stream_completes_when_update_fails :
  update_errors (calls_since update_down_stream
                   (stream_end small_request update_down_stream 0%nat))
  = ["record store unavailable"]
  ∧ fst (snd (serve_stream small_request update_down_stream 0%nat)) = Ret tt
  ∧ last_kind (stream_end small_request update_down_stream 0%nat)
    = Some "complete"
  ∧ (ev_event_type <$> events_collection
                         (db (stream_end small_request update_down_stream 0%nat)))
    = ["calculation_started"; "linear_step"; "exponential_step"; "linear_step";
       "exponential_step"; "linear_step"; "exponential_step"]
  ∧ record_status (stream_end small_request update_down_stream 0%nat) 0%nat
    = Some "in_progress"
  ∧ record_status (stream_end small_request update_down_stream 0%nat) 0%nat
    ≠ Some "error".
Proof.
  split_and!; try (vm_compute; reflexivity).
  vm_compute. discriminate.
Qed.

(** ** Failures of journal writes *)

(** C5: the claim holds for the writes of the steps and of
    [calculation_completed] and fails for the write of
    [calculation_started], which the generator makes outside the inner
    [try]. With base 2 and exponent 3: where the journal refuses every write
    after the first, the three [step] chunks and the [complete] chunk are
    sent as with a healthy journal; where it refuses the first write, the
    generator sends [start], then an [error] chunk, and no [step] chunk. *)
Theorem started_write_failure_aborts_stream :
  valid small_request
  ∧ step_indices (yielded (stream_end small_request journal_down_after_start 0%nat))
    = [1; 2; 3]
  ∧ last_kind (stream_end small_request journal_down_after_start 0%nat)
    = Some "complete"
  ∧ yielded (stream_end small_request journal_down_after_start 0%nat)
    = yielded (stream_end small_request empty_store 0%nat)
  ∧ fault_at journal_down_at_start 0 = None
  ∧ fault_at journal_down_at_start 1 = Some "journal unavailable"
  ∧ yielded (stream_end small_request journal_down_at_start 0%nat)
    = [start_chunk (str_oid 0%nat) small_request;
       failure_chunk (PyMongoError "journal unavailable")]
  ∧ step_indices (yielded (stream_end small_request journal_down_at_start 0%nat)) = []
  ∧ last_kind (stream_end small_request journal_down_at_start 0%nat) = Some "error".
Proof.
  split_and!; try (vm_compute; reflexivity).
  split; [reflexivity|]. cbn. lia.
Qed.

(** ** The journal of the steps *)

Lemma valid_dec (request : CalculationRequest) :
  valid request
  ∨ (base request <=? 0)%float = true
  ∨ ((base request <=? 0)%float = false ∧ ¬ 1 ≤ exponent request ≤ 100).
Proof.
  unfold valid. destruct (base request <=? 0)%float; [by right; left|].
  destruct (decide (1 ≤ exponent request ≤ 100)); [by left|right; right; done].
Qed.

(** A request that fails a check leaves the state of the call as it was. *)
Lemma sync_invalid_run (request : CalculationRequest) (s : state) :
  (base request <=? 0)%float = true
  ∨ ((base request <=? 0)%float = false ∧ ¬ 1 ≤ exponent request ≤ 100) →
  ∃ detail, calculate_growth request s = (Raise (HTTPException 400 detail), s).
Proof.
  intros H. rewrite calculate_growth_blocks. unfold try_except.
  destruct H as [Hb|[Hb He]]; rewrite Hb.
  - by eexists.
  - rewrite (invalid_exponent_test request He). by eexists.
Qed.








(** ** How errors reach the caller *)

Lemma stream_invalid_run (request : CalculationRequest) (s : state) :
  (base request <=? 0)%float = true
  ∨ ((base request <=? 0)%float = false ∧ ¬ 1 ≤ exponent request ≤ 100) →
  ∃ text,
    generate_calculation_events request s
    = (Ret tt, State (db s) (clock s) (stdout s) (yielded s ++ [error_chunk text])
                 (local_calculation_id s)).
Proof.
  intros H. rewrite generate_calculation_events_blocks. unfold try_except.
  destruct H as [Hb|[Hb He]]; rewrite Hb.
  - by eexists.
  - rewrite (invalid_exponent_test request He). by eexists.
Qed.

Lemma step_chunks_kind (request : CalculationRequest) (l : list Z) :
  ∀ ts : list time,
    Forall (λ c, chunk_kind c = "step") (zip_with (step_chunk_of request) l ts).
Proof.
  induction l as [|i l IH]; intros [|t ts]; cbn [zip_with]; try constructor;
    [reflexivity|apply IH].
Qed.

(** The two ways in which the body of the stream ends for a request that
    passed both checks: with a [complete] chunk, after the record was
    created, the first journal write returned and [math.pow] returned at
    every step; or with an [error] chunk, and then without any [complete]
    chunk. *)
Lemma stream_last_kind (request : CalculationRequest) (m : mongo) (now : time) :
  valid request →
  fst (snd (serve_stream request m now)) = Ret tt
  ∧ ((last_kind (stream_end request m now) = Some "complete"
      ∧ fault_at m 0 = None ∧ fault_at m 1 = None ∧ powers_fit request = true)
     ∨ (last_kind (stream_end request m now) = Some "error"
        ∧ ("complete" ∉ chunk_kind <$> yielded (stream_end request m now))
        ∧ (fault_at m 0 ≠ None ∨ fault_at m 1 ≠ None ∨ powers_fit request = false))).
Proof.
  intros Hvalid. unfold stream_end, last_kind. rewrite serve_stream_run. cbn [snd].
  destruct (stream_run request m now Hvalid) as (s' & Hrun & Hout).
  rewrite Hrun. cbn [fst snd]. split; [reflexivity|].
  destruct Hout as [msg F0 Hy _ _ _
                   |e l1 ts cs t f1 f F0 F1 Hy _ _ Hcause _ _ _ _ _ _
                   |ts cs fin tc out F0 F1 Hpow Hy _ _ _ _ _ _ _].
  - right. rewrite Hy. split_and!; [reflexivity| |left; congruence].
    intros Hin. apply list_elem_of_singleton in Hin. discriminate Hin.
  - right. rewrite Hy. change (?x :: ?l ++ ?y) with ((x :: l) ++ y).
    rewrite chunk_kind_last_failure. split_and!; [reflexivity| |].
    + rewrite fmap_app, fmap_cons. intros Hin.
      apply elem_of_app in Hin as [Hin|Hin].
      * apply elem_of_cons in Hin as [Hin|Hin]; [discriminate Hin|].
        apply list_elem_of_fmap in Hin as (c & Hc & Hin).
        pose proof (step_chunks_kind request l1 ts) as Hall.
        rewrite Forall_forall in Hall. apply Hall in Hin. congruence.
      * apply list_elem_of_singleton in Hin. discriminate Hin.
    + destruct Hcause as [(msg & -> & _)|(_ & i & l2 & Hl & Hraise)].
      * right. left. congruence.
      * right. right. destruct (powers_fit request) eqn:Hfit; [|done].
        rewrite powers_fit_spec in Hfit.
        assert (Hi : i ∈ py_range 1 (exponent request + 1)).
        { rewrite Hl. apply elem_of_app. right. by left. }
        apply elem_of_py_range in Hi. rewrite Hfit in Hraise; [done|lia].
  - left. rewrite Hy. change (?x :: ?l ++ ?y) with ((x :: l) ++ y).
    rewrite chunk_kind_last_complete. split_and!; try done.
    by apply powers_fit_spec.
Qed.

(** C7, as amended: a request that fails a check is answered with status
    400, before any call to the store; a request that passes both checks is
    answered with 200 or 500, never 400. Once the record exists, the call
    fails exactly where [sync_fault] says: the exception is caught, the
    journal write of [calculation_error] for the record is the next and
    last call to the store, and the answer is 500. Where the store accepts
    that write, the journal keeps the entry and the endpoint raises the
    [HTTPException] with status 500 and the message of the failure; where
    the store refuses it, no [calculation_error] entry is journaled and the
    exception of the store leaves the endpoint in place of the
    [HTTPException]. Without a failure the call returns its response. *)
Theorem sync_errors_distinguished :
  ∀ (request : CalculationRequest) (m : mongo) (now : time),
    ((base request <=? 0)%float = true
     ∨ ((base request <=? 0)%float = false ∧ ¬ 1 ≤ exponent request ≤ 100) →
     http_status (fst (serve_calculate request m now)) = 400
     ∧ db (sync_end request m now) = m)
    ∧ (valid request →
       (http_status (fst (serve_calculate request m now)) = 200
        ∨ http_status (fst (serve_calculate request m now)) = 500)
       ∧ (fault_at m 0 = None →
          (∀ e', fst (serve_calculate request m now) = Raise e' →
             http_status (fst (serve_calculate request m now)) = 500
             ∧ ∃ (e : exn) (f : option string),
                 last (calls_since m (sync_end request m now))
                 = Some (StoreCall
                           (EventInsertOne (error_doc (str_oid (next_oid m)) e now)) f)
                 ∧ e' = sync_raised e f
                 ∧ (f = None →
                    e' = HTTPException 500 (str_exn e)
                    ∧ last (events_collection (db (sync_end request m now)))
                      = Some (error_doc (str_oid (next_oid m)) e now)))
          ∧ (∀ (e : exn) (k : nat), sync_fault request m = Some (e, k) →
               http_status (fst (serve_calculate request m now)) = 500
               ∧ fst (serve_calculate request m now)
                 = Raise (sync_raised e (fault_at m k))
               ∧ length (calls_since m (sync_end request m now)) = S k
               ∧ last (calls_since m (sync_end request m now))
                 = Some (StoreCall
                           (EventInsertOne (error_doc (str_oid (next_oid m)) e now))
                           (fault_at m k))
               ∧ (fault_at m k = None →
                  fst (serve_calculate request m now)
                  = Raise (HTTPException 500 (str_exn e))
                  ∧ last (events_collection (db (sync_end request m now)))
                    = Some (error_doc (str_oid (next_oid m)) e now))
               ∧ (∀ msg, fault_at m k = Some msg →
                  fst (serve_calculate request m now) = Raise (PyMongoError msg)
                  ∧ "calculation_error"
                    ∉ ev_event_type <$> events_since m (sync_end request m now)))
          ∧ (sync_fault request m = None →
             fst (serve_calculate request m now)
             = Ret (response_of request (next_oid m) now)))).
Proof.
  intros request m now. split.
  - intros Hinvalid. unfold sync_end, serve_calculate.
    destruct (sync_invalid_run request (fresh m now) Hinvalid) as (detail & ->).
    by split.
  - intros Hvalid. split.
    { unfold serve_calculate.
      destruct (sync_run request m now Hvalid) as (r & s' & Hrun & Hout).
      rewrite Hrun. cbn [fst].
      destruct Hout as [msg f F0 -> _ _ _|e pre f _ _ -> _ _|_ _ _ _ _ -> _ _ _];
        [right; apply http_status_sync_raised
        |right; apply http_status_sync_raised
        |by left]. }
    intros F0. split_and!.
    + unfold sync_end, serve_calculate.
      destruct (sync_run request m now Hvalid) as (r & s' & Hrun & Hout).
      rewrite Hrun. cbn [fst snd].
      destruct Hout as [msg f F0' -> _ _ _
                       |e pre f _ Hfail -> Hcalls Hev
                       |_ _ _ _ _ -> _ _ _].
      * congruence.
      * intros e' [= <-]. split; [apply http_status_sync_raised|].
        exists e, f. split_and!.
        -- rewrite (calls_since_app _ _ _ Hcalls).
           change (?x :: ?l ++ ?y) with ((x :: l) ++ y). apply last_snoc.
        -- reflexivity.
        -- intros ->. split; [reflexivity|].
           rewrite Hev, journal_writes_snoc_ok, app_assoc. apply last_snoc.
      * intros e' [=].
    + intros e k He.
      destruct (sync_failed_run request m now e k Hvalid F0 He)
        as (Hr & (pre & Hfail & Hk & Hcalls & Hev) & Hj).
      assert (Hlast : last (calls_since m (sync_end request m now))
                      = Some (StoreCall
                                (EventInsertOne (error_doc (str_oid (next_oid m)) e now))
                                (fault_at m k))).
      { rewrite Hcalls. change (?x :: ?l ++ ?y) with ((x :: l) ++ y).
        apply last_snoc. }
      split_and!.
      * rewrite Hr. apply http_status_sync_raised.
      * exact Hr.
      * rewrite Hcalls. cbn [length]. rewrite length_app, Hk. cbn [length]. lia.
      * exact Hlast.
      * intros Hf. rewrite Hr, Hf. split; [reflexivity|].
        rewrite Hev, Hf, journal_writes_snoc_ok, app_assoc. apply last_snoc.
      * intros msg Hf. rewrite Hr, Hf. split; [reflexivity|].
        rewrite (events_since_app _ _ _ Hev), Hf, journal_writes_app,
          journal_writes_fail, journal_writes_nil, app_nil_r.
        by eapply sync_failure_event_types.
    + intros Hnone.
      by destruct (sync_returned_run request m now Hvalid F0 Hnone).
Qed.

(** A call whose update of the record fails, the journal being in order. *)
Lemma sync_errors_distinguished_witness :
  http_status (fst (serve_calculate small_request update_down_sync 0%nat)) = 500
  ∧ fst (serve_calculate small_request update_down_sync 0%nat)
    = Raise (HTTPException 500 (lit "record store unavailable")).
Proof.
  destruct (sync_errors_distinguished small_request update_down_sync 0%nat)
    as (_ & H).
  destruct H as (_ & H); [split; [reflexivity|cbn; lia]|].
  destruct H as (_ & H & _); [reflexivity|].
  destruct (H (PyMongoError "record store unavailable") 3%nat)
    as (Hst & _ & _ & _ & Hok & _); [vm_compute; reflexivity|].
  split; [exact Hst|]. apply Hok. reflexivity.
Defined.

(** C7, as stated, fails: with base 2 and exponent 3 the record is created
    and the journal refuses the write of [calculation_started]; the
    [except] clause catches the failure, but the journal refuses its write
    of [calculation_error] too: no event is journaled, and the exception
    that leaves the endpoint is the one of the store, not an
    [HTTPException]. *)
Lemma error_write_failure_not_journaled :
  valid small_request
  ∧ fault_at journal_down 0 = None
  ∧ record_status (sync_end small_request journal_down 0%nat) 0%nat
    = Some "in_progress"
  ∧ event_types (calls_since journal_down (sync_end small_request journal_down 0%nat))
    = ["calculation_started"; "calculation_error"]
  ∧ events_collection (db (sync_end small_request journal_down 0%nat)) = []
  ∧ fst (serve_calculate small_request journal_down 0%nat)
    = Raise (PyMongoError "journal unavailable").
Proof.
  split_and!; try (vm_compute; reflexivity).
  split; [vm_compute; reflexivity|cbn; lia].
Qed.


(** ** Powers that exceed the range of a double *)

(** [math.pow] returns an infinite value only for an infinite base. *)
Lemma math_pow_infinite (x : float) (y : Z) (v : float) :
  math_pow x y = Ret v → is_infinity v = true → is_infinity x = true.
Proof.
  unfold math_pow.
  destruct (is_nan x) eqn:Hnan.
  { destruct (y =? 0); intros [= <-]; [vm_compute; discriminate|].
    intros Hinf. exact Hinf. }
  destruct (is_infinity x) eqn:Hinf; [done|].
  destruct (is_nan (c_pow x y)); [discriminate|].
  destruct (is_infinity (c_pow x y)) eqn:Hr.
  - destruct (is_zero x); discriminate.
  - intros [= <-]. congruence.
Qed.

Lemma round_trips_b_spec (x : float) : round_trips_b x = true → round_trips x.
Proof.
  unfold round_trips_b, round_trips. intros [Hfin Hback]%andb_prop.
  split; [exact Hfin|].
  destruct (loads_number (dumps_float x)) as [[| | |y| |]|]; try discriminate.
  by apply FloatAxioms.Leibniz.eqb_spec in Hback as <-.
Qed.

(** Every [float] that a run with base 10 and exponent 100 sends. *)
Lemma ten_to_hundred_round_trips (i : Z) :
  1 ≤ i ≤ 100 →
  round_trips (float_mul_int 10 i) ∧ round_trips (pow_value 10 i).
Proof.
  intros Hi.
  assert (Hall : forallb (λ i, round_trips_b (float_mul_int 10 i)
                               && round_trips_b (pow_value 10 i))
                   (py_range 1 101) = true)
    by (vm_compute; reflexivity).
  rewrite forallb_forall in Hall. specialize (Hall i).
  destruct (andb_prop _ _ (Hall ltac:(apply list_elem_of_In, elem_of_py_range; lia)))
    as [H1 H2].
  split; by apply round_trips_b_spec.
Qed.

(** The doubles next to a power of 10, which is as far from it as the [pow]
    of a platform may be. *)
Lemma ten_to_hundred_neighbours_round_trip (i : Z) :
  1 ≤ i ≤ 100 →
  round_trips (next_down (pow_value 10 i)) ∧ round_trips (next_up (pow_value 10 i)).
Proof.
  intros Hi.
  assert (Hall : forallb (λ i, round_trips_b (next_down (pow_value 10 i))
                               && round_trips_b (next_up (pow_value 10 i)))
                   (py_range 1 101) = true)
    by (vm_compute; reflexivity).
  rewrite forallb_forall in Hall. specialize (Hall i).
  destruct (andb_prop _ _ (Hall ltac:(apply list_elem_of_In, elem_of_py_range; lia)))
    as [H1 H2].
  split; by apply round_trips_b_spec.
Qed.

(** C8, as amended: [math.pow] never returns an infinite value for a finite
    base; [json.dumps] writes an infinite value as [Infinity], which
    [json.loads] reads back. For a request that passed both checks and has
    a step at which the power exceeds the range of a double, [math.pow]
    raises [OverflowError] at the first such step: the body of the stream
    has the steps before it and ends with the [error] chunk of
    ["math range error"], without a [complete] chunk, and the synchronous
    endpoint answers 500, with that message as detail where the journal
    accepts the write of [calculation_error]. With base 10 and exponent 100
    no power exceeds the range: the exponential total is the double nearest
    to 1e100, which is finite; [json.dumps] writes it as [1e+100], which
    [json.loads] reads back as the same double, and so it is for every
    [float] of every chunk of the run, and for the doubles next to its
    powers; the stream ends with [complete] and the synchronous endpoint
    returns that total. *)
Theorem overflow_ends_run_with_error :
  (∀ (x : float) (y : Z) (v : float),
     math_pow x y = Ret v → is_infinity v = true → is_infinity x = true)
  ∧ dumps_float infinity = "Infinity"
  ∧ loads_number "Infinity" = Some (JFloat infinity)
  ∧ (valid ten_to_hundred_request
     ∧ powers_fit ten_to_hundred_request = true
     ∧ math_pow 10 100 = Ret googol
     ∧ is_finite googol = true
     ∧ dumps_float googol = "1e+100"
     ∧ loads_number "1e+100" = Some (JFloat googol)
     ∧ (∀ i, 1 ≤ i ≤ 100 →
             round_trips (next_down (pow_value 10 i))
             ∧ round_trips (next_up (pow_value 10 i)))
     ∧ ∀ (m : mongo) (now : time),
         fault_at m 0 = None → fault_at m 1 = None →
         last_kind (stream_end ten_to_hundred_request m now) = Some "complete"
         ∧ (∃ tc, last (yielded (stream_end ten_to_hundred_request m now))
                  = Some (complete_chunk (str_oid (next_oid m))
                            (float_mul_int 10 100) googol 100 now tc))
         ∧ (∀ (c : json) (x : float),
              c ∈ yielded (stream_end ten_to_hundred_request m now) →
              x ∈ json_floats c → round_trips x)
         ∧ (fault_at m 2 = None → fault_at m 3 = None →
            exponential_result <$> (match fst (serve_calculate ten_to_hundred_request m now) with
                                    | Ret response => Some response
                                    | Raise _ => None
                                    end)
            = Some googol))
  ∧ ∀ (request : CalculationRequest) (m : mongo) (now : time),
      valid request → powers_fit request = false →
      (fst (snd (serve_stream request m now)) = Ret tt
       ∧ last_kind (stream_end request m now) = Some "error"
       ∧ ("complete" ∉ chunk_kind <$> yielded (stream_end request m now))
       ∧ http_status (fst (serve_calculate request m now)) = 500)
      ∧ (fault_at m 0 = None → fault_at m 1 = None →
         ∃ i : Z,
           1 ≤ i ≤ exponent request
           ∧ math_pow (base request) i = Raise (OverflowError "math range error")
           ∧ (∀ j, 1 ≤ j < i →
                   math_pow (base request) j = Ret (pow_value (base request) j))
           ∧ step_indices (yielded (stream_end request m now)) = py_range 1 i
           ∧ last (yielded (stream_end request m now))
             = Some (failure_chunk (OverflowError "math range error"))
           ∧ fst (serve_calculate request m now)
             = Raise (sync_raised (OverflowError "math range error") (fault_at m 2))
           ∧ (fault_at m 2 = None →
              fst (serve_calculate request m now)
              = Raise (HTTPException 500 (lit "math range error")))).
Proof.
  assert (Hvalid10 : valid ten_to_hundred_request)
    by (split; [reflexivity|cbn; lia]).
  assert (Hfit10 : powers_fit ten_to_hundred_request = true)
    by (vm_compute; reflexivity).
  split; [exact math_pow_infinite|].
  split; [vm_compute; reflexivity|]. split; [vm_compute; reflexivity|]. split.
  - split_and!; [exact Hvalid10|exact Hfit10|vm_compute; reflexivity
                |vm_compute; reflexivity|vm_compute; reflexivity
                |vm_compute; reflexivity
                |exact ten_to_hundred_neighbours_round_trip|].
    intros m now F0 F1.
    pose proof (stream_fault_run ten_to_hundred_request m now Hvalid10 F0) as Hrun.
    unfold stream_fault in Hrun. rewrite F1, Hfit10 in Hrun.
    destruct Hrun as (ts & tc & Hy & Hlen).
    split_and!.
    + unfold last_kind. rewrite Hy. change (?x :: ?l ++ ?y) with ((x :: l) ++ y).
      apply chunk_kind_last_complete.
    + exists tc. rewrite Hy. change (?x :: ?l ++ ?y) with ((x :: l) ++ y).
      rewrite last_snoc. reflexivity.
    + intros c x Hc Hx. rewrite Hy in Hc.
      apply elem_of_cons in Hc as [->|Hc].
      { cbn in Hx. apply list_elem_of_singleton in Hx as ->.
        apply round_trips_b_spec. vm_compute. reflexivity. }
      apply elem_of_app in Hc as [Hc|Hc].
      * apply elem_of_zip_with in Hc as (i & t & -> & Hi & _).
        apply elem_of_py_range in Hi.
        destruct (ten_to_hundred_round_trips i) as [H1 H2]; [cbn in Hi; lia|].
        cbn in Hx.
        apply elem_of_cons in Hx as [->|Hx]; [exact H1|].
        apply list_elem_of_singleton in Hx as ->. exact H2.
      * apply list_elem_of_singleton in Hc as ->.
        destruct (ten_to_hundred_round_trips 100) as [H1 H2]; [lia|].
        cbn in Hx.
        apply elem_of_cons in Hx as [->|Hx]; [exact H1|].
        apply list_elem_of_singleton in Hx as ->. exact H2.
    + intros F2 F3.
      destruct (sync_returned_run ten_to_hundred_request m now Hvalid10 F0) as [Hr _].
      { unfold sync_fault. by rewrite F1, Hfit10, F2, F3. }
      rewrite Hr. reflexivity.
  - intros request m now Hvalid Hfit. split.
    + destruct (stream_last_kind request m now Hvalid)
        as [Hret [(_ & _ & _ & Hfit')|(Hk & Hnone & _)]]; [congruence|].
      split_and!; [exact Hret|exact Hk|exact Hnone|].
      unfold serve_calculate.
      destruct (sync_run request m now Hvalid) as (r & s' & Hrun & Hout).
      rewrite Hrun. cbn [fst].
      destruct Hout as [msg f _ -> _ _ _
                       |e pre f _ _ -> _ _
                       |_ _ _ _ Hpow _ _ _ _].
      * apply http_status_sync_raised.
      * apply http_status_sync_raised.
      * apply powers_fit_spec in Hpow. congruence.
    + intros F0 F1.
      pose proof (stream_fault_run request m now Hvalid F0) as Hrun.
      unfold stream_fault in Hrun. rewrite F1, Hfit in Hrun.
      destruct Hrun as (l1 & ts & Hy & Hlen & Hl1 & Hcause & _).
      destruct Hcause as [[HF _]|(_ & i & l2 & Hl & Hraise)]; [congruence|].
      pose proof (py_range_prefix _ _ _ _ _ Hl) as Hprefix.
      assert (Hi : i ∈ py_range 1 (exponent request + 1)).
      { rewrite Hl. apply elem_of_app. right. by left. }
      apply elem_of_py_range in Hi.
      destruct (sync_failed_run request m now (OverflowError "math range error") 2
                  Hvalid F0) as (Hr & _).
      { unfold sync_fault. by rewrite F1, Hfit. }
      exists i. split_and!.
      * lia.
      * lia.
      * exact Hraise.
      * intros j Hj. apply Hl1. rewrite Hprefix. apply elem_of_py_range. lia.
      * rewrite Hy. change (?x :: ?l ++ ?y) with ([x] ++ l ++ y).
        rewrite !step_indices_app, step_indices_steps by done.
        rewrite <- Hprefix. cbn. by rewrite app_nil_r.
      * rewrite Hy. change (?x :: ?l ++ ?y) with ((x :: l) ++ y). apply last_snoc.
      * exact Hr.
      * intros F2. by rewrite Hr, F2.
Qed.

(** A request whose second power exceeds the range, on a healthy store. *)
Lemma overflow_ends_run_with_error_witness :
  last (yielded (stream_end overflowing_request empty_store 0%nat))
  = Some (failure_chunk (OverflowError "math range error"))
  ∧ http_status (fst (serve_calculate overflowing_request empty_store 0%nat)) = 500
  ∧ is_infinity infinity = true.
Proof.
  destruct overflow_ends_run_with_error as (Hinf & _ & _ & _ & Hover).
  destruct (Hover overflowing_request empty_store 0%nat) as ((_ & _ & _ & Hs) & Hrun).
  - split; [vm_compute; reflexivity|cbn; lia].
  - vm_compute. reflexivity.
  - destruct Hrun as (i & _ & _ & _ & _ & Hlast & _); [reflexivity..|].
    split_and!; [exact Hlast|exact Hs|].
    apply (Hinf infinity 1 infinity); vm_compute; reflexivity.
Defined.

(** C8, as stated, fails: with base 1e200 and exponent 2 the request passes
    both checks and the power of step 2 exceeds the range of a double (its
    rounding is infinite); [math.pow] raises [OverflowError] there, so that
    the stream ends with an [error] chunk after step 1 and the synchronous
    endpoint answers 500: the run faults, and no message carries the
    infinite value. *)
Lemma overflow_faults_both_endpoints :
  valid overflowing_request
  ∧ is_finite (base overflowing_request) = true
  ∧ c_pow (base overflowing_request) 2 = infinity
  ∧ math_pow (base overflowing_request) 2 = Raise (OverflowError "math range error")
  ∧ step_indices (yielded (stream_end overflowing_request empty_store 0%nat)) = [1]
  ∧ last (yielded (stream_end overflowing_request empty_store 0%nat))
    = Some (failure_chunk (OverflowError "math range error"))
  ∧ fst (serve_calculate overflowing_request empty_store 0%nat)
    = Raise (HTTPException 500 (lit "math range error"))
  ∧ http_status (fst (serve_calculate overflowing_request empty_store 0%nat)) = 500.
Proof.
  split_and!; try (vm_compute; reflexivity).
  split; [vm_compute; reflexivity|cbn; lia].
Qed.

(** * The retrieval endpoints *)

#[local] Instance not_after_total : Total not_after.
Proof. intros a b. unfold not_after. lia. Qed.

#[local] Instance not_after_trans : Transitive not_after.
Proof. intros a b c. unfold not_after. lia. Qed.

#[local] Instance not_before_total : Total not_before.
Proof. intros a b. unfold not_before. lia. Qed.

#[local] Instance not_before_trans : Transitive not_before.
Proof. intros a b c. unfold not_before. lia. Qed.

#[local] Instance started_not_before_total : Total started_not_before.
Proof. intros a b. unfold started_not_before. lia. Qed.

#[local] Instance started_not_before_trans : Transitive started_not_before.
Proof. intros a b c. unfold started_not_before. lia. Qed.

(** A read, by the head of the fault plan. *)
Lemma store_read_run {A} (view : mongo → A) (s : state) :
  store_read view s =
  (match fault_at (db s) 0 with
   | Some msg => Raise (PyMongoError msg)
   | None => Ret (view (db s))
   end,
   set_db s (Mongo (calculations_collection (db s)) (events_collection (db s))
               (next_oid (db s)) (store_calls (db s)) (tail (faults (db s))))).
Proof.
  unfold store_read, fault_at.
  destruct (faults (db s)) as [|[msg|] fs]; reflexivity.
Qed.

Lemma get_calculation_events_run (cid : pystr) (s : state) :
  fst (get_calculation_events cid s) =
  match fault_at (db s) 0 with
  | Some msg => Raise (PyMongoError msg)
  | None => Ret (events_result (find_calculation_events cid (db s)))
  end.
Proof.
  unfold get_calculation_events, bind. rewrite store_read_run.
  by destruct (fault_at (db s) 0).
Qed.

Lemma get_all_events_run (limit : Z) (s : state) :
  fst (get_all_events limit s) =
  match fault_at (db s) 0 with
  | Some msg => Raise (PyMongoError msg)
  | None => Ret (events_result (find_all_events limit (db s)))
  end.
Proof.
  unfold get_all_events, bind. rewrite store_read_run.
  by destruct (fault_at (db s) 0).
Qed.

Lemma find_calculation_events_perm (cid : pystr) (m : mongo) :
  find_calculation_events cid m ≡ₚ entries_of cid m.
Proof. apply merge_sort_Permutation. Qed.

Lemma elem_of_journal_entries (m : mongo) (e : ObjectId * event_document) :
  e ∈ journal_entries m ↔ events_collection m !! e.1 = Some e.2.
Proof.
  unfold journal_entries. rewrite elem_of_lookup_imap. split.
  - intros (k & d & -> & H). exact H.
  - intros H. exists e.1, e.2. split; [by destruct e|done].
Qed.

Lemma elem_of_find_calculation_events (cid : pystr) (m : mongo)
    (e : ObjectId * event_document) :
  e ∈ find_calculation_events cid m ↔
  events_collection m !! e.1 = Some e.2 ∧ ev_calculation_id e.2 = cid.
Proof.
  rewrite find_calculation_events_perm. unfold entries_of.
  rewrite list_elem_of_filter, elem_of_journal_entries. tauto.
Qed.

(** X1: [get_calculation_events] answers with exactly the journal entries
    of the requested calculation: each entry of the journal with that
    [calculation_id] once, with its own [_id], and no other entry, ordered
    by timestamp, oldest first; [count] is their number. A read that raises
    is answered 500, and the read changes neither collection. *)
Theorem calculation_events_exact :
  ∀ (calculation_id : pystr) (s : state),
    fst (get_calculation_events calculation_id s)
    = match fault_at (db s) 0 with
      | Some msg => Raise (PyMongoError msg)
      | None => Ret (events_result (find_calculation_events calculation_id (db s)))
      end
    ∧ find_calculation_events calculation_id (db s) ≡ₚ entries_of calculation_id (db s)
    ∧ StronglySorted not_after (find_calculation_events calculation_id (db s))
    ∧ (∀ e, e ∈ find_calculation_events calculation_id (db s) ↔
            events_collection (db s) !! e.1 = Some e.2
            ∧ ev_calculation_id e.2 = calculation_id)
    ∧ count (events_result (find_calculation_events calculation_id (db s)))
      = Z.of_nat (length (entries_of calculation_id (db s)))
    ∧ (∀ j, j ∈ events (events_result (find_calculation_events calculation_id (db s))) →
            dict_get "calculation_id" j = Some (JStr calculation_id))
    ∧ (∀ msg, fault_at (db s) 0 = Some msg →
              http_status (fst (get_calculation_events calculation_id s)) = 500)
    ∧ calculations_collection (db (snd (get_calculation_events calculation_id s)))
      = calculations_collection (db s)
    ∧ events_collection (db (snd (get_calculation_events calculation_id s)))
      = events_collection (db s).
Proof.
  intros cid s.
  pose proof (find_calculation_events_perm cid (db s)) as Hperm.
  pose proof (elem_of_find_calculation_events cid (db s)) as Hin.
  split_and!.
  - apply get_calculation_events_run.
  - exact Hperm.
  - apply StronglySorted_merge_sort; apply _.
  - exact Hin.
  - cbn [events_result count]. by rewrite length_fmap, Hperm.
  - intros j Hj. cbn [events_result events] in Hj.
    apply list_elem_of_fmap in Hj as (e & -> & He).
    apply Hin in He as [_ <-]. reflexivity.
  - intros msg F. rewrite get_calculation_events_run, F. reflexivity.
  - unfold get_calculation_events, bind. rewrite store_read_run.
    by destruct (fault_at (db s) 0).
  - unfold get_calculation_events, bind. rewrite store_read_run.
    by destruct (fault_at (db s) 0).
Qed.

(** X2: for a [calculation_id] that no journal entry carries, in particular
    for any identifier on an empty journal, the answer of
    [get_calculation_events] is the empty list with [count] 0, not an
    error. *)
Theorem calculation_events_of_unknown_id :
  ∀ (calculation_id : pystr) (s : state),
    fault_at (db s) 0 = None →
    (∀ d, d ∈ events_collection (db s) → ev_calculation_id d ≠ calculation_id) →
    fst (get_calculation_events calculation_id s) = Ret (MkEventsResult [] 0).
Proof.
  intros cid s F Hnone. rewrite get_calculation_events_run, F. f_equal.
  destruct (find_calculation_events cid (db s)) as [|e found] eqn:Hfound; [done|].
  assert (He : e ∈ find_calculation_events cid (db s)) by (rewrite Hfound; by left).
  apply elem_of_find_calculation_events in He as [He Hcid].
  destruct (Hnone e.2); [|done]. by eapply list_elem_of_lookup_2.
Qed.

(** An identifier that was never handed out, on an empty journal. *)
Lemma calculation_events_of_unknown_id_witness :
  fst (get_calculation_events (str_oid 7%nat) (fresh empty_store 0%nat))
  = Ret (MkEventsResult [] 0).
Proof.
  apply calculation_events_of_unknown_id.
  - reflexivity.
  - intros d Hd. by apply elem_of_nil in Hd.
Defined.

Lemma entries_of_snoc (cid : pystr) (m m1 : mongo) (d : event_document) :
  events_collection m1 = events_collection m ++ [d] →
  entries_of cid m1
  = entries_of cid m
    ++ (if decide (ev_calculation_id d = cid)
        then [(length (events_collection m), d)] else []).
Proof.
  intros E. unfold entries_of, journal_entries. rewrite E, imap_app, filter_app.
  cbn [imap]. rewrite Nat.add_0_r.
  f_equal; rewrite ?filter_cons, ?filter_nil; cbn [snd]; by destruct (decide _).
Qed.

Lemma entries_of_same_events (cid : pystr) (m m' : mongo) :
  events_collection m = events_collection m' → entries_of cid m = entries_of cid m'.
Proof. unfold entries_of, journal_entries. by intros ->. Qed.

(** X3: an event that [log_event] wrote is found again. After a call of
    [log_event] that the store accepted, [get_calculation_events] for the
    same identifier answers with the entries it had before and the new
    one, whose [_id] is fresh, whose timestamp is the time of the call and
    whose [data] is the payload or the empty dict; [count] is one more;
    the answer for any other identifier is what it was. *)
Theorem logged_event_is_retrieved :
  ∀ (calculation_id : pystr) (event_type : string) (message : pystr)
    (data : json) (s : state),
    fault_at (db s) 0 = None →
    fault_at (db s) 1 = None →
    let s1 := snd (log_event calculation_id event_type message data s) in
    let entry := (length (events_collection (db s)),
                  EventDoc calculation_id event_type message (clock s)
                    (py_or data (JObj []))) in
    ∃ before after : EventsResult,
      fst (get_calculation_events calculation_id s) = Ret before
      ∧ fst (get_calculation_events calculation_id s1) = Ret after
      ∧ count after = count before + 1
      ∧ event_json entry ∈ events after
      ∧ events after ≡ₚ event_json entry :: events before
      ∧ ∀ other, other ≠ calculation_id →
          fst (get_calculation_events other s1)
          = fst (get_calculation_events other s).
Proof.
  intros cid ty msg data s F0 F1. cbv zeta.
  rewrite log_event_run. cbv zeta. rewrite F0. cbn [snd].
  destruct s as [[calcs evs o calls fs] t out ys loc].
  cbn [db clock calculations_collection events_collection next_oid store_calls
       faults] in *.
  set (d := EventDoc cid ty msg t (py_or data (JObj []))).
  set (m := Mongo calcs evs o calls fs) in *.
  set (m1 := Mongo calcs (evs ++ [d]) o (calls ++ [StoreCall (EventInsertOne d) None])
               (tail fs)).
  assert (F1' : fault_at m1 0 = None).
  { rewrite <- F1. exact (fault_at_tail m calcs (evs ++ [d]) o _ 0%nat). }
  assert (Hsnoc : ∀ other,
            entries_of other m1
            = entries_of other m
              ++ (if decide (ev_calculation_id d = other)
                  then [(length evs, d)] else [])).
  { intros other. by apply (entries_of_snoc other m m1 d). }
  assert (Hperm : find_calculation_events cid m1
                  ≡ₚ (length evs, d) :: find_calculation_events cid m).
  { etrans; [apply find_calculation_events_perm|].
    rewrite (Hsnoc cid), decide_True by done.
    etrans; [symmetry; apply Permutation_cons_append|].
    apply Permutation_cons; [done|].
    symmetry. apply find_calculation_events_perm. }
  eexists _, _. rewrite !get_calculation_events_run. cbn [db].
  fold m m1. rewrite F0, F1'.
  split; [reflexivity|]. split; [reflexivity|].
  split_and!.
  - cbn [events_result count]. rewrite !length_fmap, Hperm. cbn [length]. lia.
  - cbn [events_result events]. apply list_elem_of_fmap.
    eexists. split; [reflexivity|]. rewrite Hperm. by left.
  - cbn [events_result events]. rewrite Hperm. reflexivity.
  - intros other Hother. rewrite !get_calculation_events_run. cbn [db].
    fold m m1. rewrite F0, F1'. do 2 f_equal.
    unfold find_calculation_events. f_equal.
    change (filter _ (journal_entries ?x)) with (entries_of other x).
    rewrite (Hsnoc other), decide_False by (cbn; congruence). apply app_nil_r.
Qed.

(** A first event, written to an empty journal. *)
Lemma logged_event_is_retrieved_witness :
  ∃ before after : EventsResult,
    fst (get_calculation_events (str_oid 0%nat) (fresh empty_store 5%nat)) = Ret before
    ∧ fst (get_calculation_events (str_oid 0%nat)
             (snd (log_event (str_oid 0%nat) "calculation_started" (lit "started")
                     JNone (fresh empty_store 5%nat)))) = Ret after
    ∧ count after = count before + 1.
Proof.
  destruct (logged_event_is_retrieved (str_oid 0%nat) "calculation_started"
              (lit "started") JNone (fresh empty_store 5%nat))
    as (before & after & Hb & Ha & Hc & _); [reflexivity|reflexivity|].
  by exists before, after.
Defined.

Lemma length_cursor_limit {A} (n : Z) (l : list A) :
  length (cursor_limit n l) = limited_size n (length l).
Proof.
  unfold cursor_limit, limited_size. destruct (n =? 0); [done|].
  apply length_take.
Qed.

Lemma cursor_limit_split {A} (n : Z) (l : list A) :
  ∃ rest, cursor_limit n l ++ rest = l.
Proof.
  unfold cursor_limit. destruct (n =? 0).
  - exists []. apply app_nil_r.
  - eexists. apply take_drop.
Qed.

(** X4: for a [limit] that is not negative and fits 32 bits,
    [get_all_events] answers with the most recent entries of the journal,
    most recent first: as many as the journal has when [limit] is 0, else
    as many as [limit] allows; they are entries of the journal, each at
    most once, and none of the entries left out is more recent than one of
    those returned. *)
Theorem recent_events_are_most_recent :
  ∀ (limit : Z) (s : state),
    limit_ok limit →
    fst (get_all_events limit s)
    = match fault_at (db s) 0 with
      | Some msg => Raise (PyMongoError msg)
      | None => Ret (events_result (find_all_events limit (db s)))
      end
    ∧ count (events_result (find_all_events limit (db s)))
      = Z.of_nat (limited_size limit (length (events_collection (db s))))
    ∧ StronglySorted not_before (find_all_events limit (db s))
    ∧ ∃ rest,
        find_all_events limit (db s) ++ rest ≡ₚ journal_entries (db s)
        ∧ ∀ a b, a ∈ find_all_events limit (db s) → b ∈ rest →
                 (ev_timestamp b.2 ≤ ev_timestamp a.2)%nat.
Proof.
  intros limit s _. split; [apply get_all_events_run|].
  pose proof (StronglySorted_merge_sort not_before (journal_entries (db s)))
    as Hsorted.
  destruct (cursor_limit_split limit (merge_sort not_before (journal_entries (db s))))
    as (rest & Hsplit).
  fold (find_all_events limit (db s)) in Hsplit.
  rewrite <- Hsplit in Hsorted.
  split_and!.
  - cbn [events_result count]. rewrite length_fmap. unfold find_all_events.
    rewrite length_cursor_limit. f_equal. f_equal.
    rewrite merge_sort_Permutation. unfold journal_entries. apply length_imap.
  - by eapply StronglySorted_app_1_l.
  - exists rest. split.
    + rewrite Hsplit. apply merge_sort_Permutation.
    + intros a b Ha Hb.
      apply (StronglySorted_app_1_elem_of not_before _ _ a b Hsorted Ha Hb).
Qed.

(** The journal of a streamed run of three steps, read with a limit of 3. *)
Lemma recent_events_are_most_recent_witness :
  limit_ok 3
  ∧ count (events_result
             (find_all_events 3 (db (stream_end small_request empty_store 0%nat))))
    = 3.
Proof.
  assert (H : limit_ok 3) by (unfold limit_ok; lia).
  split; [exact H|].
  destruct (recent_events_are_most_recent 3
              (stream_end small_request empty_store 0%nat) H) as (_ & Hc & _).
  rewrite Hc. reflexivity.
Defined.

(** ** [get_calculations] *)

Lemma get_calculations_run (limit : Z) (s : state) :
  fst (get_calculations limit s) =
  match fault_at (db s) 0 with
  | Some msg => FetchRaised (StoreRaised (PyMongoError msg))
  | None =>
      match mapM calc_json (find_calculations limit (db s)) with
      | Some dicts => Fetched dicts
      | None => FetchRaised (AttributeError "isoformat")
      end
  end.
Proof.
  unfold get_calculations. rewrite store_read_run.
  by destruct (fault_at (db s) 0).
Qed.

Lemma elem_of_find_calculations (limit : Z) (m : mongo)
    (c : ObjectId * calc_document) :
  c ∈ find_calculations limit m → calculations_collection m !! c.1 = Some c.2.
Proof.
  unfold find_calculations. intros Hc.
  destruct (cursor_limit_split limit
              (merge_sort started_not_before (map_to_list (calculations_collection m))))
    as (rest & Hsplit).
  assert (Hin : c ∈ merge_sort started_not_before
                      (map_to_list (calculations_collection m))).
  { rewrite <- Hsplit. apply elem_of_app. by left. }
  rewrite merge_sort_Permutation in Hin. destruct c as [oid d].
  by apply elem_of_map_to_list in Hin.
Qed.

Lemma calc_json_renders (m : mongo) (c : ObjectId * calc_document) :
  calculations_collection m !! c.1 = Some c.2 →
  completed_at_ok c.2 →
  ∃ j, calc_json c = Some j ∧ renders m c j.
Proof.
  intros Hc Hok. unfold calc_json, renders, rendered_completed_at.
  destruct Hok as [Hnone|[t Ht]]; [rewrite Hnone|rewrite Ht];
    cbn; eexists; (split; [reflexivity|]); by split_and!.
Qed.

Lemma mapM_renders (m : mongo) (found : list (ObjectId * calc_document)) :
  (∀ c, c ∈ found → calculations_collection m !! c.1 = Some c.2) →
  records_ok m →
  ∃ dicts, mapM calc_json found = Some dicts ∧ Forall2 (renders m) found dicts.
Proof.
  intros Hin Hok. induction found as [|c found IH].
  - exists []. split; [reflexivity|constructor].
  - destruct (calc_json_renders m c) as (j & Hj & Hr).
    { apply Hin. by left. }
    { eapply Hok. apply Hin. by left. }
    destruct IH as (dicts & Hd & Hall).
    { intros c' Hc'. apply Hin. by right. }
    exists (j :: dicts). split; [|by constructor].
    cbn. rewrite Hj. cbn. rewrite Hd. reflexivity.
Qed.

(** X5: on a store whose records have [completed_at] unset or a datetime,
    as the two calculation endpoints write it, and for a [limit] that is
    not negative and fits 32 bits, [get_calculations] answers without
    error when the read does not raise: each dict renders one record of the
    collection, with its [_id] as a [str], its status, [started_at] as ISO
    text, and [completed_at] as ISO text or still [None] for a record that
    was never completed. *)
Theorem calculations_are_rendered :
  ∀ (limit : Z) (s : state),
    limit_ok limit →
    fault_at (db s) 0 = None →
    records_ok (db s) →
    ∃ dicts,
      fst (get_calculations limit s) = Fetched dicts
      ∧ Forall2 (renders (db s)) (find_calculations limit (db s)) dicts
      ∧ (∀ c j, renders (db s) c j → doc_completed_at c.2 = JNone →
                dict_get "completed_at" j = Some JNone).
Proof.
  intros limit s _ F Hok.
  destruct (mapM_renders (db s) (find_calculations limit (db s)))
    as (dicts & Hd & Hall); [apply elem_of_find_calculations|done|].
  exists dicts. rewrite get_calculations_run, F, Hd. split_and!; try done.
  intros c j (_ & _ & _ & _ & _ & _ & Hc) Hnone.
  unfold rendered_completed_at in Hc. by rewrite Hnone in Hc.
Qed.

(** A store with one record that was never completed. *)
Lemma calculations_are_rendered_witness :
  ∃ dicts, fst (get_calculations 10 (fresh one_record_store 9%nat)) = Fetched dicts.
Proof.
  destruct (calculations_are_rendered 10 (fresh one_record_store 9%nat))
    as (dicts & Hd & _).
  - unfold limit_ok. lia.
  - reflexivity.
  - intros oid d Hd. left. cbn in Hd.
    apply lookup_singleton_Some in Hd as [_ <-]. reflexivity.
  - by exists dicts.
Defined.

(** X6: for a [limit] that is not negative and fits 32 bits,
    [get_calculations] selects the records started last, the last started
    first: as many as the collection has when [limit] is 0, else as many as
    [limit] allows, each record at most once, and no record left out was
    started after one of those selected. *)
Theorem recent_calculations_are_most_recent :
  ∀ (limit : Z) (m : mongo),
    limit_ok limit →
    length (find_calculations limit m)
    = limited_size limit (size (calculations_collection m))
    ∧ StronglySorted started_not_before (find_calculations limit m)
    ∧ NoDup (find_calculations limit m).*1
    ∧ ∃ rest,
        find_calculations limit m ++ rest ≡ₚ map_to_list (calculations_collection m)
        ∧ ∀ a b, a ∈ find_calculations limit m → b ∈ rest →
                 (doc_started_at b.2 ≤ doc_started_at a.2)%nat.
Proof.
  intros limit m _.
  pose proof (StronglySorted_merge_sort started_not_before
                (map_to_list (calculations_collection m))) as Hsorted.
  destruct (cursor_limit_split limit
              (merge_sort started_not_before (map_to_list (calculations_collection m))))
    as (rest & Hsplit).
  fold (find_calculations limit m) in Hsplit.
  assert (Hperm : find_calculations limit m ++ rest
                  ≡ₚ map_to_list (calculations_collection m)).
  { rewrite Hsplit. apply merge_sort_Permutation. }
  rewrite <- Hsplit in Hsorted.
  split_and!.
  - unfold find_calculations. rewrite length_cursor_limit. f_equal.
    rewrite merge_sort_Permutation. apply length_map_to_list.
  - by eapply StronglySorted_app_1_l.
  - assert (Hnodup : NoDup (find_calculations limit m ++ rest).*1).
    { rewrite Hperm. apply NoDup_fst_map_to_list. }
    rewrite fmap_app in Hnodup. by apply NoDup_app in Hnodup as [? _].
  - exists rest. split; [exact Hperm|].
    intros a b Ha Hb.
    apply (StronglySorted_app_1_elem_of started_not_before _ _ a b Hsorted Ha Hb).
Qed.

(** A store with one record, read with the default limit. *)
Lemma recent_calculations_are_most_recent_witness :
  limit_ok 10 ∧ length (find_calculations 10 one_record_store) = 1%nat.
Proof.
  assert (H : limit_ok 10) by (unfold limit_ok; lia).
  split; [exact H|].
  destruct (recent_calculations_are_most_recent 10 one_record_store H)
    as (Hl & _).
  rewrite Hl. reflexivity.
Defined.

(** ** The records that the calculation endpoints write *)

Lemma completed_at_ok_new (request : CalculationRequest) (now : time) :
  completed_at_ok (new_calculation request now).
Proof. by left. Qed.

Lemma completed_at_ok_completed (request : CalculationRequest) (tc : time)
    (d : calc_document) :
  completed_at_ok (completed_fields request tc d).
Proof. right. by exists tc. Qed.

Lemma records_ok_insert (records : gmap ObjectId calc_document) (oid : ObjectId)
    (d0 : calc_document) :
  (∀ o d, records !! o = Some d → completed_at_ok d) →
  completed_at_ok d0 →
  ∀ o d, <[oid := d0]> records !! o = Some d → completed_at_ok d.
Proof.
  intros Hok H0 o d Hd. apply lookup_insert_Some in Hd as [[_ <-]|[_ Hd]]; eauto.
Qed.

Lemma records_ok_alter (request : CalculationRequest) (tc : time)
    (records : gmap ObjectId calc_document) (oid : ObjectId) :
  (∀ o d, records !! o = Some d → completed_at_ok d) →
  ∀ o d, alter (completed_fields request tc) oid records !! o = Some d →
         completed_at_ok d.
Proof.
  intros Hok o d Hd. apply lookup_alter_Some in Hd as [(_ & d' & _ & ->)|[_ Hd]].
  - apply completed_at_ok_completed.
  - eauto.
Qed.

(** X7: the two calculation endpoints keep [completed_at] unset or a
    datetime in every record: whatever the request and the failures of the
    store, a store on which [get_calculations] cannot raise
    [AttributeError] is still such a store after a streamed run and after a
    synchronous call. *)
Theorem calculation_endpoints_keep_records_ok :
  ∀ (request : CalculationRequest) (m : mongo) (now : time),
    records_ok m →
    records_ok (db (stream_end request m now))
    ∧ records_ok (db (sync_end request m now)).
Proof.
  intros request m now Hok. unfold records_ok in *. split.
  - unfold stream_end. rewrite serve_stream_run. cbn [snd].
    destruct (valid_dec request) as [Hvalid|Hinvalid].
    2:{ destruct (stream_invalid_run request (fresh m now) Hinvalid) as (text & ->).
        exact Hok. }
    destruct (stream_run request m now Hvalid) as (s' & Hrun & Hout).
    rewrite Hrun. cbn [snd].
    destruct Hout as [msg _ _ Hrec _ _
                     |e l1 ts cs t f1 f _ _ _ _ _ _ _ _ _ Hrec _ _
                     |ts cs fin tc out _ _ _ _ _ _ _ _ Hfin _ _].
    + by rewrite Hrec.
    + rewrite Hrec. apply records_ok_insert; [done|apply completed_at_ok_new].
    + destruct Hfin as [msg' _ -> _|msg' _ -> _|_ -> _].
      * apply records_ok_insert; [done|apply completed_at_ok_new].
      * apply records_ok_alter, records_ok_insert; [done|apply completed_at_ok_new].
      * apply records_ok_alter, records_ok_insert; [done|apply completed_at_ok_new].
  - unfold sync_end, serve_calculate.
    destruct (valid_dec request) as [Hvalid|Hinvalid].
    2:{ destruct (sync_invalid_run request (fresh m now) Hinvalid) as (detail & ->).
        exact Hok. }
    destruct (sync_run request m now Hvalid) as (r & s' & Hrun & Hout).
    rewrite Hrun. cbn [snd].
    destruct Hout as [msg f _ _ Hrec _ _
                     |e pre f _ Hfail _ _ _
                     |_ _ _ _ _ _ Hrec _ _].
    + by rewrite Hrec.
    + destruct Hfail as [msg' _ _ _ ->|i _ _ _ _ ->|msg' _ _ _ _ ->
                        |msg' _ _ _ _ _ ->].
      1-3: apply records_ok_insert; [done|apply completed_at_ok_new].
      apply records_ok_alter, records_ok_insert; [done|apply completed_at_ok_new].
    + rewrite Hrec.
      apply records_ok_alter, records_ok_insert; [done|apply completed_at_ok_new].
Qed.

(** The empty store. *)
Lemma calculation_endpoints_keep_records_ok_witness :
  records_ok (db (stream_end small_request empty_store 0%nat))
  ∧ records_ok (db (sync_end small_request empty_store 0%nat)).
Proof.
  apply calculation_endpoints_keep_records_ok.
  intros oid d Hd. cbn in Hd. by rewrite lookup_empty in Hd.
Defined.

(** ** The response of the synchronous endpoint *)

Lemma py_range_snoc (n : Z) : 1 ≤ n → py_range 1 (n + 1) = py_range 1 n ++ [n].
Proof.
  intros Hn. unfold py_range.
  replace (Z.to_nat (n + 1 - 1)) with (S (Z.to_nat (n - 1))) by lia.
  rewrite seq_S, map_app. cbn [map]. do 2 f_equal. lia.
Qed.

Lemma length_py_range (a b : Z) : length (py_range a b) = Z.to_nat (b - a).
Proof. unfold py_range. by rewrite length_map, length_seq. Qed.

Lemma sync_returns_only_valid (request : CalculationRequest) (m : mongo)
    (now : time) (response : CalculationResponse) :
  fst (serve_calculate request m now) = Ret response →
  valid request
  ∧ response = response_of request (next_oid m) now
  ∧ powers_fit request = true
  ∧ calculations_collection (db (sync_end request m now)) !! next_oid m
    = Some (completed_record request now now)
  ∧ events_collection (db (sync_end request m now))
    = events_collection m ++
        [started_doc request (str_oid (next_oid m)) now;
         completed_doc (str_oid (next_oid m)) now].
Proof.
  unfold sync_end, serve_calculate. intros Hret.
  destruct (valid_dec request) as [Hvalid|Hinvalid].
  2:{ destruct (sync_invalid_run request (fresh m now) Hinvalid) as (detail & Hrun).
      rewrite Hrun in Hret. discriminate Hret. }
  destruct (sync_run request m now Hvalid) as (r & s' & Hrun & Hout).
  rewrite Hrun in *. cbn [fst snd] in *. subst r.
  destruct Hout as [msg0 f _ [=] _ _ _|e pre f _ _ [=] _ _
                   |_ _ _ _ Hpow [= ->] Hrec _ Hev].
  split_and!; try done.
  - by apply powers_fit_spec.
  - rewrite Hrec, lookup_alter_eq, lookup_insert_eq. reflexivity.
Qed.

(** X8: a response of the synchronous endpoint is complete and consistent.
    If [calculate_growth] returns, then the request passed both checks; the
    two logs have one entry for each step 1 to E, in this order, with
    [base * i] and [math.pow(base, i)] as results; the two totals are the
    results of the last entries; [total_steps] is E; and the record of the
    call is stored as completed with the same totals, under the
    [calculation_id] of the response. *)
Theorem sync_response_is_consistent :
  ∀ (request : CalculationRequest) (m : mongo) (now : time)
    (response : CalculationResponse),
    fst (serve_calculate request m now) = Ret response →
    valid request
    ∧ calculation_id response = str_oid (next_oid m)
    ∧ step <$> linear_logs response = py_range 1 (exponent request + 1)
    ∧ step <$> exponential_logs response = py_range 1 (exponent request + 1)
    ∧ result <$> linear_logs response
      = float_mul_int (base request) <$> py_range 1 (exponent request + 1)
    ∧ Forall2 (λ i entry, math_pow (base request) i = Ret (result entry))
        (py_range 1 (exponent request + 1)) (exponential_logs response)
    ∧ (result <$> last (linear_logs response)) = Some (linear_result response)
    ∧ (result <$> last (exponential_logs response))
      = Some (exponential_result response)
    ∧ total_steps response = exponent request
    ∧ Z.of_nat (length (linear_logs response)) = exponent request
    ∧ calculations_collection (db (sync_end request m now)) !! next_oid m
      = Some (set_fields "completed" now (linear_result response)
                (exponential_result response) (total_steps response)
                (new_calculation request now)).
Proof.
  intros request m now response Hret.
  destruct (sync_returns_only_valid request m now response Hret)
    as (Hvalid & -> & Hfit & Hrec & _).
  pose proof Hvalid as [_ He]. rewrite powers_fit_spec in Hfit.
  unfold response_of.
  cbn [calculation_id linear_logs exponential_logs linear_result
       exponential_result total_steps].
  split_and!; try done.
  - rewrite <- list_fmap_compose. apply list_fmap_id.
  - rewrite <- list_fmap_compose. apply list_fmap_id.
  - by rewrite <- list_fmap_compose.
  - apply Forall2_fmap_r, Forall2_same_length_lookup. split; [done|].
    intros k i j Hi Hj. rewrite Hi in Hj. injection Hj as <-.
    cbn [exponential_log result]. apply Hfit.
    apply list_elem_of_lookup_2, elem_of_py_range in Hi. lia.
  - rewrite fmap_last, py_range_snoc, last_snoc by lia. reflexivity.
  - rewrite fmap_last, py_range_snoc, last_snoc by lia. reflexivity.
  - rewrite length_fmap, length_py_range. lia.
Qed.

(** The call with base 2 and exponent 3 on a healthy store. *)
Lemma sync_response_is_consistent_witness :
  ∃ response,
    fst (serve_calculate small_request empty_store 0%nat) = Ret response
    ∧ (result <$> last (exponential_logs response))
      = Some (exponential_result response).
Proof.
  eexists. split; [vm_compute; reflexivity|].
  eapply (sync_response_is_consistent small_request empty_store 0%nat).
  vm_compute. reflexivity.
Defined.

(** ** The two endpoints compared *)

Lemma step_values_steps (request : CalculationRequest) (l : list Z) :
  ∀ ts : list time,
    length ts = length l →
    omap step_values (zip_with (step_chunk_of request) l ts)
    = (λ i, (i, float_mul_int (base request) i, pow_value (base request) i)) <$> l.
Proof.
  induction l as [|i l IH]; intros [|t ts] Hlen; try done.
  cbn [zip_with omap list_omap fmap list_fmap].
  change (step_values (step_chunk_of request i t))
    with (Some (i, float_mul_int (base request) i, pow_value (base request) i)).
  cbn. f_equal. apply IH. by injection Hlen.
Qed.

Lemma zip_with_fmap_same {A B C D} (f : B → C → D) (g : A → B) (h : A → C)
    (l : list A) :
  zip_with f (g <$> l) (h <$> l) = (λ x, f (g x) (h x)) <$> l.
Proof. induction l as [|x l IH]; [done|]. cbn. by rewrite IH. Qed.

(** The body of a run that reached its end, from [stream_run]. *)
Lemma stream_completed_body (request : CalculationRequest) (m : mongo) (now : time) :
  valid request → fault_at m 0 = None → fault_at m 1 = None →
  powers_fit request = true →
  ∃ (ts : list time) (tc : time),
    length ts = length (py_range 1 (exponent request + 1))
    ∧ yielded (stream_end request m now)
      = start_chunk (str_oid (next_oid m)) request
        :: zip_with (step_chunk_of request) (py_range 1 (exponent request + 1)) ts
        ++ [complete_chunk (str_oid (next_oid m))
              (float_mul_int (base request) (exponent request))
              (pow_value (base request) (exponent request))
              (exponent request) now tc].
Proof.
  intros Hvalid F0 F1 Hfit. unfold stream_end. rewrite serve_stream_run. cbn [snd].
  destruct (stream_run request m now Hvalid) as (s' & Hrun & Hout).
  rewrite Hrun. cbn [snd]. rewrite powers_fit_spec in Hfit.
  destruct Hout as [msg F0' _ _ _ _
                   |e l1 ts cs t f1 f _ F1' _ _ _ Hcause _ _ _ _ _ _
                   |ts cs fin tc out _ _ _ Hy Hlen _ _ _ _ _ _].
  - congruence.
  - destruct Hcause as [(msg & -> & _)|(_ & i & l2 & Hl & Hraise)]; [congruence|].
    assert (Hi : i ∈ py_range 1 (exponent request + 1)).
    { rewrite Hl. apply elem_of_app. right. by left. }
    apply elem_of_py_range in Hi. rewrite Hfit in Hraise; [done|lia].
  - by exists ts, tc.
Qed.

(** X9: the two endpoints compute the same values. If the synchronous
    endpoint returns a response for a request, then a streamed run of the
    same request whose record is created and whose first journal write is
    accepted sends, step for step, the values of the two logs of the
    response, and its [complete] chunk carries the two totals and the step
    count of the response. *)
Theorem stream_and_sync_agree :
  ∀ (request : CalculationRequest) (m1 m2 : mongo) (now1 now2 : time)
    (response : CalculationResponse),
    fst (serve_calculate request m2 now2) = Ret response →
    fault_at m1 0 = None →
    fault_at m1 1 = None →
    omap step_values (yielded (stream_end request m1 now1))
    = zip_with log_values (linear_logs response) (exponential_logs response)
    ∧ ∃ tc, last (yielded (stream_end request m1 now1))
            = Some (complete_chunk (str_oid (next_oid m1))
                      (linear_result response) (exponential_result response)
                      (total_steps response) now1 tc).
Proof.
  intros request m1 m2 now1 now2 response Hret F0 F1.
  destruct (sync_returns_only_valid request m2 now2 response Hret)
    as (Hvalid & -> & Hfit & _).
  destruct (stream_completed_body request m1 now1 Hvalid F0 F1 Hfit)
    as (ts & tc & Hlen & Hy).
  rewrite Hy. split.
  - change (?x :: ?l ++ ?y) with ([x] ++ l ++ y).
    rewrite !omap_app, step_values_steps by done.
    unfold response_of. cbn [linear_logs exponential_logs].
    rewrite zip_with_fmap_same. cbn. by rewrite app_nil_r.
  - exists tc. change (?x :: ?l ++ ?y) with ((x :: l) ++ y).
    by rewrite last_snoc.
Qed.

(** The request with base 2 and exponent 3, on two healthy stores. *)
Lemma stream_and_sync_agree_witness :
  ∃ response,
    fst (serve_calculate small_request empty_store 7%nat) = Ret response
    ∧ omap step_values (yielded (stream_end small_request empty_store 0%nat))
      = zip_with log_values (linear_logs response) (exponential_logs response).
Proof.
  eexists. split; [vm_compute; reflexivity|].
  eapply (stream_and_sync_agree small_request empty_store empty_store 0%nat 7%nat).
  - vm_compute. reflexivity.
  - reflexivity.
  - reflexivity.
Defined.

(** ** The record and the journal of a run *)

Lemma journal_writes_types (cs : list store_call) (ty : string) :
  ty ∈ ev_event_type <$> journal_writes cs → ty ∈ event_types cs.
Proof.
  induction cs as [|[op f] cs IH]; [done|].
  unfold journal_writes, event_types. cbn [omap list_omap call_op call_error].
  fold (journal_writes cs). fold (event_types cs).
  destruct op as [c| |d]; cbn [call_event_type call_op]; try exact IH.
  destruct f as [msg|]; cbn.
  - intros H. right. by apply IH.
  - intros H. apply elem_of_cons in H as [->|H]; [by left|right; by apply IH].
Qed.

Lemma step_calls_not_completed (cs : list store_call) :
  Forall step_call cs →
  "calculation_completed" ∉ ev_event_type <$> journal_writes cs.
Proof.
  intros Hsc Hin. apply journal_writes_types in Hin.
  by destruct (step_calls_event_types cs _ Hsc Hin).
Qed.

(** X10: the journal never says more than the record. In both endpoints,
    for a request that passed both checks, if the run wrote a
    [calculation_completed] entry to the journal, then its record is stored
    as completed, with the totals [base * exponent] and
    [math.pow(base, exponent)] and the step count E, and, in the generator,
    with the [completed_at] that the [complete] chunk carries. *)
Theorem journaled_completion_has_completed_record :
  ∀ (request : CalculationRequest) (m : mongo) (now : time),
    valid request →
    (journaled "calculation_completed" m (stream_end request m now) →
     ∃ tc, calculations_collection (db (stream_end request m now)) !! next_oid m
           = Some (completed_record request now tc)
           ∧ last (yielded (stream_end request m now))
             = Some (complete_chunk (str_oid (next_oid m))
                       (float_mul_int (base request) (exponent request))
                       (pow_value (base request) (exponent request))
                       (exponent request) now tc)
           ∧ math_pow (base request) (exponent request)
             = Ret (pow_value (base request) (exponent request)))
    ∧ (journaled "calculation_completed" m (sync_end request m now) →
       calculations_collection (db (sync_end request m now)) !! next_oid m
       = Some (completed_record request now now)
       ∧ fst (serve_calculate request m now)
         = Ret (response_of request (next_oid m) now)).
Proof.
  intros request m now Hvalid. unfold journaled. split.
  - unfold stream_end. rewrite serve_stream_run. cbn [snd].
    destruct (stream_run request m now Hvalid) as (s' & Hrun & Hout).
    rewrite Hrun. cbn [snd].
    destruct Hout as [msg _ _ _ _ Hev
                     |e l1 ts cs t f1 f _ _ _ _ _ _ Hsc _ _ _ _ Hev
                     |ts cs fin tc out _ _ Hpow Hy _ Hsc _ _ Hfin _ Hev].
    + rewrite (events_since_app m s' []) by (by rewrite app_nil_r). intros Hin.
      by apply elem_of_nil in Hin.
    + rewrite (events_since_app _ _ _ Hev). intros Hin.
      apply journal_writes_types in Hin.
      change (?a :: ?l ++ ?y) with ([a] ++ l ++ y) in Hin.
      rewrite !event_types_app in Hin.
      apply elem_of_app in Hin as [Hin|Hin]; [|apply elem_of_app in Hin as [Hin|Hin]].
      * destruct f1; cbn in Hin; apply list_elem_of_singleton in Hin; discriminate.
      * by destruct (step_calls_event_types cs _ Hsc Hin).
      * apply list_elem_of_singleton in Hin. discriminate.
    + rewrite (events_since_app _ _ _ Hev). intros Hin.
      change (?a :: ?l ++ ?y) with ([a] ++ l ++ y) in Hin.
      rewrite !fmap_app in Hin.
      apply elem_of_app in Hin as [Hin|Hin]; [|apply elem_of_app in Hin as [Hin|Hin]].
      * apply list_elem_of_singleton in Hin. discriminate.
      * by destruct (step_calls_not_completed cs Hsc).
      * destruct Hvalid as [_ He].
        destruct Hfin as [msg' -> _ _|msg' -> _ _| _ -> _].
        -- by apply elem_of_nil in Hin.
        -- by apply elem_of_nil in Hin.
        -- exists tc. split_and!.
           ++ by rewrite lookup_alter_eq, lookup_insert_eq.
           ++ rewrite Hy. change (?x :: ?l ++ ?y) with ((x :: l) ++ y).
              apply last_snoc.
           ++ apply Hpow. lia.
  - unfold sync_end, serve_calculate.
    destruct (sync_run request m now Hvalid) as (r & s' & Hrun & Hout).
    rewrite Hrun. cbn [fst snd].
    destruct Hout as [msg f _ _ _ _ Hev
                     |e pre f _ Hfail _ _ Hev
                     |_ _ _ _ _ -> Hrec _ _].
    + rewrite (events_since_app _ _ _ Hev). intros Hin.
      destruct f; cbn in Hin; [by apply elem_of_nil in Hin|].
      apply list_elem_of_singleton in Hin. discriminate.
    + rewrite (events_since_app _ _ _ Hev). intros Hin.
      destruct Hfail as [msg' _ _ -> _|i _ _ _ -> _|msg' _ _ _ -> _
                        |msg' _ _ _ _ -> _];
        destruct f; cbn [app] in Hin;
        rewrite ?journal_writes_ok, ?journal_writes_fail, ?journal_writes_update,
          ?journal_writes_nil in Hin;
        simpl in Hin;
        repeat (apply elem_of_cons in Hin as [Hin|Hin]; [discriminate Hin|]);
        by apply elem_of_nil in Hin.
    + intros _. split; [|reflexivity].
      by rewrite Hrec, lookup_alter_eq, lookup_insert_eq.
Qed.

(** A run and a call on a healthy store. *)
Lemma journaled_completion_has_completed_record_witness :
  (∃ tc, calculations_collection (db (stream_end small_request empty_store 0%nat)) !! 0%nat
         = Some (completed_record small_request 0%nat tc))
  ∧ calculations_collection (db (sync_end small_request empty_store 0%nat)) !! 0%nat
    = Some (completed_record small_request 0%nat 0%nat).
Proof.
  destruct (journaled_completion_has_completed_record small_request empty_store 0%nat)
    as [Hs Hy].
  - split; [reflexivity|cbn; lia].
  - split.
    + destruct Hs as (tc & Hrec & _); [|by exists tc].
      apply list_elem_of_In. vm_compute.
      repeat (first [left; reflexivity|right]).
    + apply Hy. apply list_elem_of_In. vm_compute.
      repeat (first [left; reflexivity|right]).
Defined.

(** ** A store that cannot create the record *)

(** X11: where [insert_one] raises, no record exists and [calculation_id]
    is unbound. The generator then sends a single [error] chunk with the
    message of the exception, without a [start] chunk, and journals
    nothing; the synchronous endpoint journals [calculation_error] under
    the identifier ["unknown"] and answers 500. Neither changes a record,
    and the identifier that was not used is still the next one. *)
Theorem failed_insert_creates_nothing :
  ∀ (request : CalculationRequest) (m : mongo) (now : time) (msg : string),
    valid request →
    fault_at m 0 = Some msg →
    (yielded (stream_end request m now) = [failure_chunk (PyMongoError msg)]
     ∧ calculations_collection (db (stream_end request m now))
       = calculations_collection m
     ∧ events_collection (db (stream_end request m now)) = events_collection m
     ∧ calls_since m (stream_end request m now)
       = [StoreCall (CalcInsertOne (new_calculation request now)) (Some msg)])
    ∧ (http_status (fst (serve_calculate request m now)) = 500
       ∧ calculations_collection (db (sync_end request m now))
         = calculations_collection m
       ∧ ∃ f, calls_since m (sync_end request m now)
              = [StoreCall (CalcInsertOne (new_calculation request now)) (Some msg);
                 StoreCall (EventInsertOne
                              (error_doc (lit "unknown") (PyMongoError msg) now)) f]
              ∧ (f = None →
                 events_collection (db (sync_end request m now))
                 = events_collection m
                   ++ [error_doc (lit "unknown") (PyMongoError msg) now])).
Proof.
  intros request m now msg Hvalid F0. split.
  - unfold stream_end. rewrite serve_stream_run. cbn [snd].
    destruct (stream_run request m now Hvalid) as (s' & Hrun & Hout).
    rewrite Hrun. cbn [snd].
    destruct Hout as [msg' F0' Hy Hrec Hcalls Hev
                     |e l1 ts cs t f1 f F0' _ _ _ _ _ _ _ _ _ _ _
                     |ts cs fin tc out F0' _ _ _ _ _ _ _ _ _ _];
      [|congruence..].
    assert (msg' = msg) as -> by congruence.
    split_and!; try done. by apply calls_since_app.
  - unfold sync_end, serve_calculate.
    destruct (sync_run request m now Hvalid) as (r & s' & Hrun & Hout).
    rewrite Hrun. cbn [fst snd].
    destruct Hout as [msg' f F0' -> Hrec Hcalls Hev
                     |e pre f F0' _ _ _ _
                     |F0' _ _ _ _ _ _ _ _];
      [|congruence..].
    assert (msg' = msg) as -> by congruence.
    split_and!; [apply http_status_sync_raised|done|].
    exists f. split; [by apply calls_since_app|].
    intros ->. by rewrite Hev.
Qed.

(** A store whose first call raises. *)
Lemma failed_insert_creates_nothing_witness :
  yielded (stream_end small_request store_down 0%nat)
  = [failure_chunk (PyMongoError "store unavailable")]
  ∧ http_status (fst (serve_calculate small_request store_down 0%nat)) = 500.
Proof.
  destruct (failed_insert_creates_nothing small_request store_down 0%nat
              "store unavailable") as [(Hy & _) (Hs & _)].
  - split; [reflexivity|cbn; lia].
  - reflexivity.
  - by split.
Defined.

(** ** Bases that are not numbers greater than zero *)

Lemma math_pow_nan (i : Z) : 1 ≤ i → math_pow nan i = Ret nan.
Proof.
  intros Hi. unfold math_pow. change (is_nan nan) with true. cbv iota.
  destruct (Z.eqb_spec i 0); [lia|done].
Qed.

Lemma math_pow_infinity (i : Z) : 1 ≤ i → math_pow infinity i = Ret infinity.
Proof.
  intros Hi. unfold math_pow.
  change (is_nan infinity) with false. change (is_infinity infinity) with true.
  cbv iota. destruct (Z.ltb_spec 0 i); [|lia].
  destruct (odd_int i); reflexivity.
Qed.

Lemma powers_fit_constant (request : CalculationRequest) (v : float) :
  (∀ i, 1 ≤ i → math_pow (base request) i = Ret v) →
  powers_fit request = true.
Proof.
  intros H. apply powers_fit_spec. intros i Hi. unfold pow_value.
  by rewrite (H i) by lia.
Qed.

(** X12: the check [base <= 0] lets NaN and positive infinity through. For
    a base that is NaN or positive infinity and an exponent in 1..100, the
    request is not rejected; [math.pow] returns the base itself at every
    step, so that no step raises; a streamed run whose record is created and
    whose first journal write is accepted ends with a [complete] chunk
    whose exponential total is NaN, respectively infinite. *)
Theorem nan_and_infinite_base_accepted :
  ∀ (b : float) (e : Z) (m : mongo) (now : time),
    b = nan ∨ b = infinity →
    1 ≤ e ≤ 100 →
    fault_at m 0 = None →
    fault_at m 1 = None →
    valid (Request b e)
    ∧ (∀ i, 1 ≤ i → math_pow b i = Ret b)
    ∧ omap step_values (yielded (stream_end (Request b e) m now))
      = (λ i, (i, float_mul_int b i, b)) <$> py_range 1 (e + 1)
    ∧ ∃ tc, last (yielded (stream_end (Request b e) m now))
            = Some (complete_chunk (str_oid (next_oid m)) (float_mul_int b e) b e
                      now tc).
Proof.
  intros b e m now Hb He F0 F1.
  assert (Hpow : ∀ i, 1 ≤ i → math_pow b i = Ret b).
  { destruct Hb as [->| ->]; [apply math_pow_nan|apply math_pow_infinity]. }
  assert (Hvalid : valid (Request b e)).
  { split; [|exact He]. by destruct Hb as [->| ->]. }
  assert (Hfit : powers_fit (Request b e) = true)
    by (by apply (powers_fit_constant (Request b e) b)).
  assert (Hval : ∀ i, 1 ≤ i → pow_value b i = b).
  { intros i Hi. unfold pow_value. by rewrite Hpow. }
  destruct (stream_completed_body (Request b e) m now Hvalid F0 F1 Hfit)
    as (ts & tc & Hlen & Hy).
  cbn [base exponent] in Hy, Hlen.
  split_and!; [done|done| |].
  - rewrite Hy. change (?x :: ?l ++ ?y) with ([x] ++ l ++ y).
    rewrite !omap_app, step_values_steps by done. cbn [base].
    cbn [omap list_omap]. 
    change (step_values (start_chunk _ _)) with (@None (Z * float * float)).
    change (step_values (complete_chunk _ _ _ _ _ _))
      with (@None (Z * float * float)).
    cbn [app]. rewrite app_nil_r. apply list_fmap_ext.
    intros k i Hi. apply list_elem_of_lookup_2, elem_of_py_range in Hi.
    by rewrite Hval by lia.
  - exists tc. rewrite Hy. change (?x :: ?l ++ ?y) with ((x :: l) ++ y).
    rewrite last_snoc, Hval by lia. reflexivity.
Qed.

(** The base NaN with exponent 3, on a healthy store. *)
Lemma nan_and_infinite_base_accepted_witness :
  valid (Request nan 3)
  ∧ ∃ tc, last (yielded (stream_end (Request nan 3) empty_store 0%nat))
          = Some (complete_chunk (str_oid 0%nat) (float_mul_int nan 3) nan 3 0%nat tc).
Proof.
  destruct (nan_and_infinite_base_accepted nan 3 empty_store 0%nat)
    as (Hvalid & _ & _ & Hlast).
  - by left.
  - lia.
  - reflexivity.
  - reflexivity.
  - by split.
Defined.

(** ** The calls of a run concern its own record *)

Lemma stream_step_about (request : CalculationRequest) (oid : ObjectId) (i : Z)
    (s : state) :
  ∃ cs, store_calls (db (snd (stream_step request (str_oid oid) i s)))
        = store_calls (db s) ++ cs
        ∧ Forall (call_about oid) cs.
Proof.
  destruct (math_pow (base request) i) as [v|e] eqn:Hpow.
  2:{ rewrite (stream_step_raise request _ i s e Hpow). exists [].
      split; [by rewrite app_nil_r|constructor]. }
  unfold stream_step. run_cbn. rewrite Hpow. run_cbn.
  rewrite log_event_run. cbv zeta. run_cbn.
  destruct (fault_at (db s) 0) as [msg1|].
  - run_cbn. eexists [_]. split; [reflexivity|].
    constructor; [reflexivity|constructor].
  - rewrite log_event_run. cbv zeta. run_cbn.
    match goal with |- context [fault_at ?m 0] => destruct (fault_at m 0) end.
    + run_cbn. eexists [_; _]. split; [by rewrite <- app_assoc|].
      constructor; [reflexivity|constructor; [reflexivity|constructor]].
    + run_cbn. eexists [_; _]. split; [by rewrite <- app_assoc|].
      constructor; [reflexivity|constructor; [reflexivity|constructor]].
Qed.

Lemma stream_loop_about (request : CalculationRequest) (oid : ObjectId)
    (l : list Z) :
  ∀ s : state,
  ∃ cs, store_calls (db (snd (for_each l (stream_step request (str_oid oid)) s)))
        = store_calls (db s) ++ cs
        ∧ Forall (call_about oid) cs.
Proof.
  induction l as [|i l IH]; intros s.
  - exists []. split; [by rewrite app_nil_r|constructor].
  - cbn [for_each]. unfold bind at 1.
    destruct (stream_step_about request oid i s) as (cs1 & Hc1 & Ha1).
    destruct (stream_step request (str_oid oid) i s) as [[[]|e] s1].
    + cbn [snd] in Hc1. destruct (IH s1) as (cs & Hc & Ha).
      exists (cs1 ++ cs). split; [by rewrite Hc, Hc1, app_assoc|by apply Forall_app].
    + exists cs1. by split.
Qed.

(** The calls of a run of the generator whose record was created: the
    insertion of its record, then calls for that record only. *)
Lemma stream_calls_about (request : CalculationRequest) (m : mongo) (now : time) :
  valid request →
  fault_at m 0 = None →
  ∃ rest,
    calls_since m (stream_end request m now)
    = StoreCall (CalcInsertOne (new_calculation request now)) None :: rest
    ∧ Forall (call_about (next_oid m)) rest.
Proof.
  intros Hvalid F0. pose proof Hvalid as [Hb He].
  unfold stream_end. rewrite serve_stream_run. cbn [snd].
  rewrite generate_calculation_events_blocks.
  unfold try_except at 1. rewrite Hb, (valid_exponent_test request He).
  rewrite stream_main_run. cbv zeta. rewrite F0.
  destruct (fault_at m 1) as [msg1|] eqn:F1.
  { match goal with |- context [stream_except ?e ?s] =>
      destruct (stream_except_run e s) as (s' & Hrun & _ & Hjo) end.
    rewrite Hrun. cbn [snd local_calculation_id] in *.
    destruct Hjo as [_ _ _ Hcalls _ _]. cbn [db store_calls clock] in Hcalls.
    rewrite <- !app_assoc in Hcalls. rewrite (calls_since_app _ _ _ Hcalls).
    cbn [app]. eexists. split; [reflexivity|]. repeat constructor. }
  match goal with |- context [for_each ?l ?body ?s] =>
    destruct (stream_loop request (str_oid (next_oid m)) l s)
      as (r & s3 & l1 & ts & cs & Hloop & _ & _ & Hjo3 & _ & _ & _ & Hpow & Hr);
    destruct (stream_loop_about request (next_oid m) l s) as (cs' & Hc' & Ha')
  end.
  rewrite Hloop in Hc' |- *. cbn [snd db store_calls] in Hc'.
  destruct Hjo3 as [_ _ Hloc3 _ _ _]. cbn [local_calculation_id] in Hloc3.
  destruct r as [[]|e].
  - subst l1.
    assert (HE : math_pow (base request) (exponent request)
                 = Ret (pow_value (base request) (exponent request))).
    { apply Hpow, elem_of_py_range. lia. }
    destruct (stream_finish_ret request (next_oid m) now s3 _ HE)
      as (s' & fin & Hrun & _ & Hcalls & _ & _ & _ & Hfin).
    rewrite Hrun. cbn [snd]. rewrite Hc', <- !app_assoc in Hcalls.
    rewrite (calls_since_app _ _ _ Hcalls).
    cbn [app]. eexists. split; [reflexivity|]. constructor; [reflexivity|].
    apply Forall_app. split; [exact Ha'|].
    destruct Hfin as [msg' -> _ _|msg' -> _ _| -> _ _]; repeat constructor.
  - destruct (stream_except_run e s3) as (s' & Hrun & _ & Hjo).
    rewrite Hrun. cbn [snd]. rewrite Hloc3 in Hjo.
    destruct Hjo as [_ _ _ Hcalls _ _].
    rewrite Hc', <- !app_assoc in Hcalls.
    rewrite (calls_since_app _ _ _ Hcalls).
    cbn [app]. eexists. split; [reflexivity|]. constructor; [reflexivity|].
    apply Forall_app. split; [exact Ha'|]. repeat constructor.
Qed.

Lemma stream_events_are_journal_writes (request : CalculationRequest) (m : mongo)
    (now : time) :
  valid request →
  events_since m (stream_end request m now)
  = journal_writes (calls_since m (stream_end request m now)).
Proof.
  intros Hvalid. unfold stream_end. rewrite serve_stream_run. cbn [snd].
  destruct (stream_run request m now Hvalid) as (s' & Hrun & Hout).
  rewrite Hrun. cbn [snd].
  destruct Hout as [msg _ _ _ Hcalls Hev
                   |e l1 ts cs t f1 f _ _ _ _ _ _ _ _ _ _ Hcalls Hev
                   |ts cs fin tc out _ _ _ _ _ _ _ _ _ Hcalls Hev];
    rewrite (calls_since_app _ _ _ Hcalls).
  - rewrite (events_since_app m s' []) by (by rewrite app_nil_r).
    by rewrite journal_writes_fail.
  - rewrite (events_since_app _ _ _ Hev). by rewrite journal_writes_insert.
  - rewrite (events_since_app _ _ _ Hev).
    by rewrite journal_writes_insert, journal_writes_ok, journal_writes_app.
Qed.

Lemma sync_calls_about (request : CalculationRequest) (m : mongo) (now : time) :
  valid request →
  fault_at m 0 = None →
  (∃ rest,
     calls_since m (sync_end request m now)
     = StoreCall (CalcInsertOne (new_calculation request now)) None :: rest
     ∧ Forall (call_about (next_oid m)) rest)
  ∧ events_since m (sync_end request m now)
    = journal_writes (calls_since m (sync_end request m now)).
Proof.
  intros Hvalid F0. unfold sync_end, serve_calculate.
  destruct (sync_run request m now Hvalid) as (r & s' & Hrun & Hout).
  rewrite Hrun. cbn [snd].
  destruct Hout as [msg f F0' _ _ _ _
                   |e pre f _ Hfail _ Hcalls Hev
                   |_ _ _ _ _ _ _ Hcalls Hev];
    [congruence|..]; rewrite (calls_since_app _ _ _ Hcalls),
                       (events_since_app _ _ _ Hev).
  - split; [|by rewrite journal_writes_insert].
    eexists. split; [reflexivity|].
    destruct Hfail as [msg' _ _ -> _|i _ _ _ -> _|msg' _ _ _ -> _
                      |msg' _ _ _ _ -> _]; repeat constructor.
  - split; [|reflexivity]. eexists. split; [reflexivity|]. repeat constructor.
Qed.

Lemma journal_writes_about (oid : ObjectId) (cs : list store_call) :
  Forall (call_about oid) cs →
  Forall (λ d, ev_calculation_id d = str_oid oid) (journal_writes cs).
Proof.
  induction 1 as [|[op f] cs Hc _ IH]; [constructor|].
  destruct op as [c| |d]; [destruct Hc|exact IH|].
  destruct f as [msg|]; [by rewrite journal_writes_fail|].
  rewrite journal_writes_ok. by constructor.
Qed.

Lemma stream_journal_grows (request : CalculationRequest) (m : mongo) (now : time) :
  valid request →
  events_collection (db (stream_end request m now))
  = events_collection m
    ++ journal_writes (calls_since m (stream_end request m now)).
Proof.
  intros Hvalid.
  rewrite <- stream_events_are_journal_writes by done.
  unfold stream_end. rewrite serve_stream_run. cbn [snd].
  destruct (stream_run request m now Hvalid) as (s' & Hrun & Hout).
  rewrite Hrun. cbn [snd].
  destruct Hout as [msg _ _ _ _ Hev
                   |e l1 ts cs t f1 f _ _ _ _ _ _ _ _ _ _ _ Hev
                   |ts cs fin tc out _ _ _ _ _ _ _ _ _ _ Hev];
    [rewrite (events_since_app m s' []) by (by rewrite app_nil_r);
     by rewrite app_nil_r|..];
    by rewrite (events_since_app _ _ _ Hev).
Qed.

Lemma sync_journal_grows (request : CalculationRequest) (m : mongo) (now : time) :
  valid request →
  fault_at m 0 = None →
  events_collection (db (sync_end request m now))
  = events_collection m
    ++ journal_writes (calls_since m (sync_end request m now)).
Proof.
  intros Hvalid F0.
  destruct (sync_calls_about request m now Hvalid F0) as [_ He].
  rewrite <- He. unfold sync_end, serve_calculate.
  destruct (sync_run request m now Hvalid) as (r & s' & Hrun & Hout).
  rewrite Hrun. cbn [snd].
  destruct Hout as [msg f F0' _ _ _ _
                   |e pre f _ _ _ _ Hev
                   |_ _ _ _ _ _ _ _ Hev];
    [congruence|..]; by rewrite (events_since_app _ _ _ Hev).
Qed.

Lemma filter_imap_all {A} (P : A → Prop) `{!∀ x, Decision (P x)}
    (l : list A) :
  ∀ f : nat → nat,
  Forall P l →
  filter (λ e : nat * A, P e.2) (imap (λ k d, (f k, d)) l)
  = imap (λ k d, (f k, d)) l.
Proof.
  induction l as [|x l IH]; intros f Hl; [reflexivity|].
  inversion Hl as [|? ? Hx Hl']; subst. cbn [imap].
  rewrite filter_cons_True by exact Hx. f_equal.
  exact (IH (f ∘ S) Hl').
Qed.

Lemma filter_imap_none {A} (P : A → Prop) `{!∀ x, Decision (P x)}
    (l : list A) :
  ∀ f : nat → nat,
  Forall (λ x, ¬ P x) l →
  filter (λ e : nat * A, P e.2) (imap (λ k d, (f k, d)) l) = [].
Proof.
  induction l as [|x l IH]; intros f Hl; [reflexivity|].
  inversion Hl as [|? ? Hx Hl']; subst. cbn [imap].
  rewrite filter_cons_False by exact Hx.
  exact (IH (f ∘ S) Hl').
Qed.

(** The journal entries of an identifier that the journal did not have,
    after writes under that identifier only. *)
Lemma entries_of_run (cid : pystr) (m m' : mongo) (new : list event_document) :
  events_collection m' = events_collection m ++ new →
  Forall (λ d, ev_calculation_id d ≠ cid) (events_collection m) →
  Forall (λ d, ev_calculation_id d = cid) new →
  entries_of cid m'
  = imap (λ k d, (length (events_collection m) + k, d)%nat) new.
Proof.
  intros Hev Hold Hnew. unfold entries_of, journal_entries.
  rewrite Hev, imap_app, filter_app.
  trans ([] ++ imap (λ k d, (length (events_collection m) + k, d)%nat) new);
    [|reflexivity].
  f_equal.
  - exact (filter_imap_none (λ d, ev_calculation_id d = cid) _ (λ k, k) Hold).
  - exact (filter_imap_all (λ d, ev_calculation_id d = cid) new
             (λ k, (length (events_collection m) + k)%nat) Hnew).
Qed.

(** X13: a run writes under its own identifier only. For a request that
    passed both checks and whose record was created, the first call that
    the generator, respectively the synchronous endpoint, makes to the store
    is the insertion of the record of the run, and it is the only
    insertion: every later call is an update of that record or a journal
    write under the [str] of its [_id]. The records that the store had are
    as they were. *)
Theorem run_writes_under_its_own_id :
  ∀ (request : CalculationRequest) (m : mongo) (now : time),
    valid request →
    fault_at m 0 = None →
    ((∃ rest,
        calls_since m (stream_end request m now)
        = StoreCall (CalcInsertOne (new_calculation request now)) None :: rest
        ∧ Forall (call_about (next_oid m)) rest)
     ∧ others_untouched m (stream_end request m now))
    ∧ ((∃ rest,
          calls_since m (sync_end request m now)
          = StoreCall (CalcInsertOne (new_calculation request now)) None :: rest
          ∧ Forall (call_about (next_oid m)) rest)
       ∧ others_untouched m (sync_end request m now)).
Proof.
  intros request m now Hvalid F0. split; split.
  - by apply stream_calls_about.
  - by destruct (stream_record_kept request m now Hvalid F0) as (_ & H & _).
  - by destruct (sync_calls_about request m now Hvalid F0) as [H _].
  - by destruct (sync_record_kept request m now Hvalid F0) as (_ & H & _).
Qed.

(** A run and a call on a healthy store. *)
Lemma run_writes_under_its_own_id_witness :
  (∃ rest,
     calls_since empty_store (stream_end small_request empty_store 0%nat)
     = StoreCall (CalcInsertOne (new_calculation small_request 0%nat)) None :: rest
     ∧ Forall (call_about 0%nat) rest)
  ∧ (∃ rest,
       calls_since empty_store (sync_end small_request empty_store 0%nat)
       = StoreCall (CalcInsertOne (new_calculation small_request 0%nat)) None :: rest
       ∧ Forall (call_about 0%nat) rest).
Proof.
  destruct (run_writes_under_its_own_id small_request empty_store 0%nat)
    as [[H1 _] [H2 _]].
  - split; [reflexivity|cbn; lia].
  - reflexivity.
  - by split.
Defined.

(** X14: the journal of a run is what [get_calculation_events] returns for
    it. For a request that passed both checks, whose record was created and
    under whose identifier the journal had no entry, a read that the store
    answers after the run of the generator, respectively after the call of
    the synchronous endpoint, returns the entries that the run wrote, each
    once, with the [_id] of its position in the journal, and nothing else;
    [count] is the number of journal writes of the run that the store
    accepted. *)
Theorem run_events_are_retrieved :
  ∀ (request : CalculationRequest) (m : mongo) (now : time) (s' : state),
    valid request →
    fault_at m 0 = None →
    Forall (λ d, ev_calculation_id d ≠ str_oid (next_oid m)) (events_collection m) →
    s' = stream_end request m now ∨ s' = sync_end request m now →
    fault_at (db s') 0 = None →
    ∃ result : EventsResult,
      fst (get_calculation_events (str_oid (next_oid m)) s') = Ret result
      ∧ events result ≡ₚ event_json <$> entries_since m s'
      ∧ count result = Z.of_nat (length (journal_writes (calls_since m s'))).
Proof.
  intros request m now s' Hvalid F0 Hfresh Hs' Fr.
  assert (H : events_collection (db s')
              = events_collection m ++ journal_writes (calls_since m s')
              ∧ Forall (λ d, ev_calculation_id d = str_oid (next_oid m))
                  (journal_writes (calls_since m s'))).
  { destruct Hs' as [-> | ->].
    - split; [by apply stream_journal_grows|].
      destruct (stream_calls_about request m now Hvalid F0) as (rest & -> & Ha).
      rewrite journal_writes_insert. by apply journal_writes_about.
    - split; [by apply sync_journal_grows|].
      destruct (sync_calls_about request m now Hvalid F0) as [(rest & -> & Ha) _].
      rewrite journal_writes_insert. by apply journal_writes_about. }
  destruct H as [Hev Habout].
  pose proof (entries_of_run _ m (db s') _ Hev Hfresh Habout) as Hent.
  assert (Hsince : events_since m s' = journal_writes (calls_since m s')).
  { by apply events_since_app. }
  eexists. rewrite get_calculation_events_run, Fr.
  split; [reflexivity|]. cbn [events_result events count]. split.
  - rewrite find_calculation_events_perm, Hent.
    unfold entries_since. by rewrite Hsince.
  - rewrite length_fmap, find_calculation_events_perm, Hent, length_imap.
    reflexivity.
Qed.

(** A streamed run on a healthy store, read afterwards: eight entries. *)
Lemma run_events_are_retrieved_witness :
  ∃ result : EventsResult,
    fst (get_calculation_events (str_oid 0%nat)
           (stream_end small_request empty_store 0%nat)) = Ret result
    ∧ count result = 8.
Proof.
  destruct (run_events_are_retrieved small_request empty_store 0%nat
              (stream_end small_request empty_store 0%nat))
    as (result & Hr & _ & Hc).
  - split; [reflexivity|cbn; lia].
  - reflexivity.
  - constructor.
  - by left.
  - reflexivity.
  - exists result. split; [exact Hr|]. rewrite Hc. reflexivity.
Defined.
